(** * Reward-point ledger: the three routes of [src/index.js]

    A shallow embedding of the Express handlers [POST /add], [POST /spend]
    and [GET /balance] together with the part of their environment that
    decides what they compute: the [Points] table behind the three SQL
    statements, and the plain JavaScript objects the handlers use as
    payer-indexed accumulators.

    Scope of the model.
    - Request bodies carry the fields of the documented shape
      [{payer: string, points: integer, timestamp: string}], each of them
      possibly absent.
    - The handlers compute with JavaScript numbers, that is with doubles.
      The numbers they meet are integers; an integer is kept in [Z] and
      every sum and difference of the handlers is rounded the way the
      double arithmetic rounds it ([Js.round]): to 53 significant bits, to
      the nearest, ties to the even significand.  Below 2^53 nothing is
      rounded.  Overflow to Infinity (magnitudes of 2^1024 and more) is
      outside the model.
    - The store is the table itself, a list of rows in rowid order.  A
      driver call may throw; the schedule of such failures is part of the
      store state, so that the [try]/[catch] of each handler is modelled.
    - Of the middleware of [api-middleware.js] only the body parser is
      modelled, and of it only that a number of the body reaches the
      handler as a double. *)

From Stdlib Require Import ZArith NArith List String Ascii Bool Lia.
From Stdlib Require Import Sorting.Sorted Sorting.Permutation.
From Stdlib Require Import Structures.OrderedTypeEx.
From Stdlib Require Import Floats.PrimFloat.
Import ListNotations.

Local Open Scope Z_scope.
Local Open Scope string_scope.
Local Open Scope list_scope.

(** ** Plain JavaScript objects used as maps *)

Module Js.

(** The values that can be read from, or stored in, the accumulator
    objects of the handlers. [VBuiltin] is a member inherited from
    [Object.prototype] (a function, or the prototype object itself for
    [__proto__]); [VText] is the string obtained when such a member is
    concatenated with a number: its characters are left to the engine,
    only its being a non-empty, non-numeric string matters here. *)
Inductive value : Type :=
| VUndefined
| VNumber (n : Z)
| VNaN
| VText
| VBuiltin.

(** An object created by the literal [{}]: its own enumerable
    properties, in creation order. Its prototype is [Object.prototype]. *)
Definition object : Type := list (string * value).

Definition empty : object := [].

(** Names of the data properties of [Object.prototype]. *)
Definition prototype_functions : list string :=
  [ "constructor"; "hasOwnProperty"; "isPrototypeOf";
    "propertyIsEnumerable"; "toLocaleString"; "toString"; "valueOf";
    "__defineGetter__"; "__defineSetter__";
    "__lookupGetter__"; "__lookupSetter__" ].

Definition proto_name : string := "__proto__".

Definition inherited (k : string) : bool :=
  (k =? proto_name) || existsb (String.eqb k) prototype_functions.

Fixpoint own (o : object) (k : string) : option value :=
  match o with
  | [] => None
  | (k', v) :: rest => if k' =? k then Some v else own rest k
  end.

(** [o[k]]: the own property, else the one found on the prototype. *)
Definition get (o : object) (k : string) : value :=
  match own o k with
  | Some v => v
  | None => if inherited k then VBuiltin else VUndefined
  end.

Fixpoint put (o : object) (k : string) (v : value) : object :=
  match o with
  | [] => [(k, v)]
  | (k', v') :: rest =>
      if k' =? k then (k', v) :: rest else (k', v') :: put rest k v
  end.

(** [o[k] = v] for a primitive [v]: the setter of [__proto__] ignores
    primitives; every other name becomes (or stays) an own property. *)
Definition set (o : object) (k : string) (v : value) : object :=
  if k =? proto_name then o else put o k v.

(** ToBoolean. *)
Definition truthy (v : value) : bool :=
  match v with
  | VUndefined => false
  | VNumber n => negb (n =? 0)%Z
  | VNaN => false
  | VText => true
  | VBuiltin => true
  end.

(** *** Numbers

    A number is a double. [nearest e a] is the multiple of [2^e] nearest
    to [a >= 0]; of two equally near multiples it is the even one. *)
Definition nearest (e a : Z) : Z :=
  let q := a / 2 ^ e in
  let r := a mod 2 ^ e in
  let half := 2 ^ (e - 1) in
  let up := (half <? r)%Z || ((r =? half)%Z && Z.odd q) in
  (if up then q + 1 else q) * 2 ^ e.

(** The double nearest to the integer [x]: [x] itself when it has at most
    53 significant bits, else [x] rounded at its 53rd bit. It is what an
    addition or a subtraction whose exact result is [x] evaluates to. *)
Definition round (x : Z) : Z :=
  let e := Z.log2 (Z.abs x) - 52 in
  if (e <=? 0)%Z then x else Z.sgn x * nearest e (Z.abs x).

(** An integer that a number holds exactly. *)
Definition is_number (x : Z) : Prop := round x = x.

(** 2^53: every integer of smaller magnitude is held exactly. *)
Definition limit : Z := 9007199254740992.

(** [Number.MAX_SAFE_INTEGER], 2^53 - 1. *)
Definition max_safe_integer : Z := 9007199254740991.

(** The machine's double that holds a given number, built bit by bit; no
    step rounds when the integer is one a number holds exactly. It serves
    to compare [round] with the arithmetic of the machine. *)
Fixpoint double_of_positive (p : positive) : float :=
  match p with
  | xH => 1%float
  | xO q => PrimFloat.mul 2%float (double_of_positive q)
  | xI q => PrimFloat.add (PrimFloat.mul 2%float (double_of_positive q)) 1%float
  end.

Definition to_double (x : Z) : float :=
  match x with
  | Z0 => 0%float
  | Zpos p => double_of_positive p
  | Zneg p => PrimFloat.opp (double_of_positive p)
  end.

(** For numbers [a] and [b], [a + b] on the machine is the double of
    [round (a + b)], and likewise [a - b]. *)
Definition adds_as_doubles (ab : Z * Z) : bool :=
  PrimFloat.eqb (PrimFloat.add (to_double (fst ab)) (to_double (snd ab)))
                (to_double (round (fst ab + snd ab))).

Definition subtracts_as_doubles (ab : Z * Z) : bool :=
  PrimFloat.eqb (PrimFloat.sub (to_double (fst ab)) (to_double (snd ab)))
                (to_double (round (fst ab - snd ab))).

(** [v - d]: only a number converts to something other than NaN. *)
Definition sub (v : value) (d : Z) : value :=
  match v with
  | VNumber n => VNumber (round (n - d))
  | _ => VNaN
  end.

(** [v + d]: addition on numbers, concatenation as soon as the left
    operand converts to a string. *)
Definition add (v : value) (d : Z) : value :=
  match v with
  | VNumber n => VNumber (round (n + d))
  | VUndefined => VNaN
  | VNaN => VNaN
  | VText => VText
  | VBuiltin => VText
  end.

Definition is_undefined (v : value) : bool :=
  match v with VUndefined => true | _ => false end.

(** *** Enumeration order of own keys

    [Object.entries] (and JSON serialisation) list the keys that are
    array indices first, in ascending numeric order, then the other keys
    in creation order. An array index is the canonical decimal spelling
    of an integer below 2^32 - 1. *)

Definition digit (c : ascii) : option N :=
  let n := N_of_ascii c in
  if ((48 <=? n) && (n <=? 57))%N then Some (n - 48)%N else None.

Fixpoint decimal (s : string) (acc : N) : option N :=
  match s with
  | EmptyString => Some acc
  | String c rest =>
      match digit c with
      | Some d => decimal rest (10 * acc + d)%N
      | None => None
      end
  end.

Definition array_index (k : string) : option N :=
  match k with
  | EmptyString => None
  | String c rest =>
      if (Ascii.eqb c "0"%char) && negb (rest =? "") then None
      else match decimal k 0%N with
           | Some n => if (n <? 4294967295)%N then Some n else None
           | None => None
           end
  end.

Definition index_name (k : string) : bool :=
  match array_index k with Some _ => true | None => false end.

Definition index_value (k : string) : N :=
  match array_index k with Some n => n | None => 0%N end.

Definition is_index (kv : string * value) : bool := index_name (fst kv).

Definition index_of (kv : string * value) : N := index_value (fst kv).

Fixpoint insert_index (kv : string * value) (l : list (string * value))
  : list (string * value) :=
  match l with
  | [] => [kv]
  | h :: t =>
      if (index_of kv <=? index_of h)%N then kv :: h :: t
      else h :: insert_index kv t
  end.

Definition sort_indices (l : list (string * value)) : list (string * value) :=
  fold_right insert_index [] l.

Definition entries (o : object) : list (string * value) :=
  sort_indices (filter is_index o)
    ++ filter (fun kv => negb (is_index kv)) o.

End Js.

(** ** The [Points] table and the driver *)

(** A row of
    [Points(id INTEGER PRIMARY KEY UNIQUE, payer TEXT NOT NULL,
            points INTEGER NOT NULL, timestamp TEXT NOT NULL)]. *)
Module Grant.
Record t : Type := make {
  id : Z;
  payer : string;
  points : Z;
  timestamp : string
}.

Definition eq_dec (a b : t) : {a = b} + {a <> b}.
Proof. decide equality; auto using string_dec, Z.eq_dec. Defined.
End Grant.

(** The store: the rows in rowid order, and the outcomes the driver will
    give to the coming calls ([true]: the call throws). An empty schedule
    is a driver that never throws. *)
Record Store : Type := mkStore {
  table : list Grant.t;
  faults : list bool
}.

Inductive outcome (A : Type) : Type :=
| Returned (a : A)
| Thrown.
Arguments Returned {A} a.
Arguments Thrown {A}.

(** Computations of a handler body: they read and write the store and may
    throw; what was written before a throw stays written. *)
Definition M (A : Type) : Type := Store -> outcome A * Store.

Definition ret {A} (a : A) : M A := fun s => (Returned a, s).

Definition bind {A B} (m : M A) (k : A -> M B) : M B :=
  fun s =>
    match m s with
    | (Returned a, s') => k a s'
    | (Thrown, s') => (Thrown, s')
    end.

Notation "x <- m ;; k" := (bind m (fun x => k))
  (at level 61, m at next level, right associativity).
Notation "m ;;; k" := (bind m (fun _ => k))
  (at level 61, right associativity).

(** [try { body } catch (e) { ... handler ... }] around a whole handler. *)
Definition try_catch {A} (body : M A) (handler : A) : Store -> A * Store :=
  fun s =>
    match body s with
    | (Returned a, s') => (a, s')
    | (Thrown, s') => (handler, s')
    end.

(** One call to the driver running a statement [stmt] on the table. *)
Definition driver {A} (stmt : list Grant.t -> A * list Grant.t) : M A :=
  fun s =>
    match faults s with
    | true :: later => (Thrown, mkStore (table s) later)
    | false :: later =>
        let (a, t) := stmt (table s) in (Returned a, mkStore t later)
    | [] =>
        let (a, t) := stmt (table s) in (Returned a, mkStore t [])
    end.

(** The rowid given to a new row: one more than the largest in use. *)
Definition next_id (t : list Grant.t) : Z :=
  1 + fold_right Z.max 0 (map Grant.id t).

(** [INSERT_POINTS_SQL]:
    [INSERT INTO Points(payer, points, timestamp) VALUES (?, ?, ?) RETURNING id]. *)
Definition INSERT_POINTS (payer : string) (points : Z) (timestamp : string)
  : M Z :=
  driver (fun t =>
    let i := next_id t in (i, t ++ [Grant.make i payer points timestamp])).

(** [ORDER BY timestamp] on a TEXT column: bytewise comparison; rows with
    equal timestamps are kept in rowid order. *)
Fixpoint insert_by_timestamp (g : Grant.t) (l : list Grant.t) : list Grant.t :=
  match l with
  | [] => [g]
  | h :: rest =>
      if String.leb (Grant.timestamp g) (Grant.timestamp h) then g :: h :: rest
      else h :: insert_by_timestamp g rest
  end.

Definition order_by_timestamp (t : list Grant.t) : list Grant.t :=
  fold_right insert_by_timestamp [] t.

(** [GET_POINTS_SQL]: [SELECT * FROM Points ORDER BY timestamp]. *)
Definition GET_POINTS : M (list Grant.t) :=
  driver (fun t => (order_by_timestamp t, t)).

Definition set_points (new_points i : Z) (g : Grant.t) : Grant.t :=
  if (Grant.id g =? i)%Z
  then Grant.make (Grant.id g) (Grant.payer g) new_points (Grant.timestamp g)
  else g.

(** [UPDATE_POINTS_SQL]: [UPDATE Points SET points = ? WHERE id = ?]. *)
Definition UPDATE_POINTS (new_points i : Z) : M unit :=
  driver (fun t => (tt, map (set_points new_points i) t)).

(** ** Requests and responses *)

(** The fields of a body. For a handler they are the values of
    [req.body]; for [handle] below, the body as the client wrote it. *)
Record AddBody : Type := mkAddBody {
  add_payer : option string;
  add_points : option Z;
  add_timestamp : option string
}.

Record SpendBody : Type := mkSpendBody {
  spend_points : option Z
}.

(** Bodies are kept as the handler hands them to [res.send], before
    serialisation (which prints NaN as [null]). *)
Inductive Body : Type :=
| Msg (msg : string)                         (* {msg} *)
| MsgId (msg : string) (id : Z)              (* {msg, id} *)
| Text (text : string)                       (* a plain-text body *)
| Spent (l : list (string * Js.value))       (* [{payer, points}, ...] *)
| Balances (l : list (string * Js.value)).   (* {payer: points, ...} *)

Record Response : Type := mkResponse {
  status : Z;
  body : Body
}.

(** The value of a field when it is truthy: [!x] holds of an absent field,
    of the empty string and of the number 0. *)
Definition truthy_string (x : option string) : option string :=
  match x with
  | Some s => if s =? "" then None else Some s
  | None => None
  end.

Definition truthy_number (x : option Z) : option Z :=
  match x with
  | Some n => if (n =? 0)%Z then None else Some n
  | None => None
  end.

Definition something_went_wrong : Response :=
  mkResponse 500 (Msg "Something went wrong!").

Definition must_specify_payer : Response :=
  mkResponse 400 (Msg "You must specify a payer!").

Definition must_specify_points_to_add : Response :=
  mkResponse 400 (Msg "You must specify points to add!").

Definition must_specify_timestamp : Response :=
  mkResponse 400 (Msg "You must specify a timestamp!").

Definition must_specify_points_to_spend : Response :=
  mkResponse 400 (Msg "You must specify points to spend!").

Definition successfully_added (id : Z) : Response :=
  mkResponse 200 (MsgId "Successfully added!" id).

(** ** [app.post('/add', ...)] *)

Definition post_add (req : AddBody) : Store -> Response * Store :=
  match truthy_string (add_payer req) with
  | None => fun s => (must_specify_payer, s)
  | Some payer =>
      match truthy_number (add_points req) with
      | None => fun s => (must_specify_points_to_add, s)
      | Some points =>
          match truthy_string (add_timestamp req) with
          | None => fun s => (must_specify_timestamp, s)
          | Some timestamp =>
              try_catch
                (ret_id <- INSERT_POINTS payer points timestamp ;;
                 ret (successfully_added ret_id))
                something_went_wrong
          end
      end
  end.

(** ** [app.post('/spend', ...)] *)

(** One pass of the body of [for (const data of pointsRecord)] that
    updates the summary. *)
Definition summarise (spendSummary : Js.object) (payer : string)
    (pointsDeduced : Z) : Js.object :=
  if Js.truthy (Js.get spendSummary payer) then
    Js.set spendSummary payer (Js.sub (Js.get spendSummary payer) pointsDeduced)
  else
    Js.set spendSummary payer (Js.VNumber ((-1) * pointsDeduced)).

(** The loop of the handler; it returns the final [points] and
    [spendSummary]. *)
Fixpoint spend_loop (pointsRecord : list Grant.t) (points : Z)
    (spendSummary : Js.object) : M (Z * Js.object) :=
  match pointsRecord with
  | [] => ret (points, spendSummary)
  | data :: rest =>
      if (points <=? 0)%Z then ret (points, spendSummary)
      else if (0 <? data.(Grant.points))%Z then
        let pointsDeduced := Z.min points data.(Grant.points) in
        UPDATE_POINTS (Js.round (data.(Grant.points) - pointsDeduced))
                      data.(Grant.id) ;;;
        spend_loop rest (Js.round (points - pointsDeduced))
          (summarise spendSummary data.(Grant.payer) pointsDeduced)
      else spend_loop rest points spendSummary
  end.

Definition totalBalance (pointsRecord : list Grant.t) : Z :=
  fold_left (fun prev data => Js.round (prev + data.(Grant.points)))
            pointsRecord 0.

Definition not_enough : Response :=
  mkResponse 400 (Text "The user doesn't have enough points!").

Definition post_spend (req : SpendBody) : Store -> Response * Store :=
  match truthy_number (spend_points req) with
  | None => fun s => (must_specify_points_to_spend, s)
  | Some points =>
      try_catch
        (pointsRecord <- GET_POINTS ;;
         if (totalBalance pointsRecord <? points)%Z then ret not_enough
         else
           final <- spend_loop pointsRecord points Js.empty ;;
           ret (mkResponse 200 (Spent (Js.entries (snd final)))))
        something_went_wrong
  end.

(** ** [app.get('/balance', ...)] *)

Definition accumulate (result : Js.object) (data : Grant.t) : Js.object :=
  if Js.is_undefined (Js.get result data.(Grant.payer)) then
    Js.set result data.(Grant.payer) (Js.VNumber data.(Grant.points))
  else
    Js.set result data.(Grant.payer) (Js.add (Js.get result data.(Grant.payer)) data.(Grant.points)).

Definition get_balance : Store -> Response * Store :=
  try_catch
    (pointsRecord <- GET_POINTS ;;
     let result := fold_left accumulate pointsRecord Js.empty in
     ret (mkResponse 200 (Balances (Js.entries result))))
    something_went_wrong.

(** ** Sequences of requests *)

Inductive Request : Type :=
| Add (b : AddBody)
| Spend (b : SpendBody)
| Balance.

(** Modelled from the spec: the bodies are the JSON objects
    [{payer, points, timestamp}] and [{points}]; the parser that
    [applyBodyParsing] installs is defined in [api-middleware.js], which is
    not among the sources. A number written in a JSON body reaches the
    handler as a JavaScript number, the double nearest to it. *)
Definition parse_number (x : option Z) : option Z := option_map Js.round x.

Definition parse_add (b : AddBody) : AddBody :=
  mkAddBody (add_payer b) (parse_number (add_points b)) (add_timestamp b).

Definition parse_spend (b : SpendBody) : SpendBody :=
  mkSpendBody (parse_number (spend_points b)).

Definition handle (r : Request) : Store -> Response * Store :=
  match r with
  | Add b => post_add (parse_add b)
  | Spend b => post_spend (parse_spend b)
  | Balance => get_balance
  end.

Definition serve (s : Store) (r : Request) : Store := snd (handle r s).

Definition run (rs : list Request) (s : Store) : Store := fold_left serve rs s.

(** The ledger before any request, under a given behaviour of the driver. *)
Definition empty_ledger (fs : list bool) : Store := mkStore [] fs.

(** ** Vocabulary of the properties *)

(** A field that the handlers take for missing. *)
Definition lacking_string (x : option string) : Prop := x = None \/ x = Some "".

Definition lacking_number (x : option Z) : Prop := x = None \/ x = Some 0.

(** The driver never throws. *)
Definition reliable (s : Store) : Prop := faults s = [].

(** [id] is a key of the table. *)
Definition unique_ids (t : list Grant.t) : Prop := NoDup (map Grant.id t).

(** The order of [ORDER BY timestamp], and its strict part. *)
Definition ts_le (a b : Grant.t) : Prop :=
  String.leb (Grant.timestamp a) (Grant.timestamp b) = true.

Definition ts_lt (a b : Grant.t) : Prop :=
  String.ltb (Grant.timestamp a) (Grant.timestamp b) = true.

(** Sum of [points] over all rows, whatever their sign. *)
Definition total (t : list Grant.t) : Z :=
  fold_right (fun g acc => Grant.points g + acc) 0 t.

(** Sum of [points] over the rows that still hold points. *)
Definition available (t : list Grant.t) : Z :=
  fold_right (fun g acc => Z.max 0 (Grant.points g) + acc) 0 t.

(** Sum of the magnitudes of [points] over all rows. While it stays below
    [Js.limit], no sum or difference the handlers form is rounded. *)
Definition magnitude (t : list Grant.t) : Z :=
  fold_right (fun g acc => Z.abs (Grant.points g) + acc) 0 t.

(** Every row holds points that a number holds exactly, as do the rows of
    every table the handlers have written. *)
Definition numbers (t : list Grant.t) : Prop :=
  Forall (fun g => Js.is_number (Grant.points g)) t.

(** Sum of [points] over the rows of one payer. *)
Definition balance_of (p : string) (t : list Grant.t) : Z :=
  fold_right
    (fun g acc => if Grant.payer g =? p then Grant.points g + acc else acc) 0 t.

(** A payer name that [{}] does not already answer to. *)
Definition ordinary (p : string) : Prop := Js.inherited p = false.

(** Sum of the magnitudes of the values of a summary; there is none as
    soon as one value is not a number. *)
Fixpoint magnitudes (l : list (string * Js.value)) : option Z :=
  match l with
  | [] => Some 0
  | (_, Js.VNumber n) :: rest =>
      match magnitudes rest with
      | Some m => Some (Z.abs n + m)
      | None => None
      end
  | _ :: _ => None
  end.

(** The grants the loop of [/spend] debits, in order, each with its
    [pointsDeduced]. *)
Fixpoint plan (pointsRecord : list Grant.t) (points : Z)
  : list (Grant.t * Z) :=
  match pointsRecord with
  | [] => []
  | data :: rest =>
      if (points <=? 0)%Z then []
      else if (0 <? data.(Grant.points))%Z then
        let pointsDeduced := Z.min points data.(Grant.points) in
        (data, pointsDeduced) :: plan rest (Js.round (points - pointsDeduced))
      else plan rest points
  end.

(** The value of [points] when the loop of [/spend] ends. *)
Fixpoint remaining (pointsRecord : list Grant.t) (points : Z) : Z :=
  match pointsRecord with
  | [] => points
  | data :: rest =>
      if (points <=? 0)%Z then points
      else if (0 <? data.(Grant.points))%Z then
        let pointsDeduced := Z.min points data.(Grant.points) in
        remaining rest (Js.round (points - pointsDeduced))
      else remaining rest points
  end.

(** What the [UPDATE] of one pass writes into the table. *)
Definition apply_debit (t : list Grant.t) (gd : Grant.t * Z) : list Grant.t :=
  map (set_points (Js.round (Grant.points (fst gd) - snd gd))
                  (Grant.id (fst gd))) t.

(** A pass whose [UPDATE] writes the exact difference. *)
Definition exact_debit (gd : Grant.t * Z) : Prop :=
  Js.round (Grant.points (fst gd) - snd gd) = Grant.points (fst gd) - snd gd.

Definition note_debit (sm : Js.object) (gd : Grant.t * Z) : Js.object :=
  summarise sm (Grant.payer (fst gd)) (snd gd).

Definition debited (pl : list (Grant.t * Z)) : Z :=
  fold_right (fun gd acc => snd gd + acc) 0 pl.

(** The row [g] with its points replaced. *)
Definition with_points (g : Grant.t) (n : Z) : Grant.t :=
  Grant.make (Grant.id g) (Grant.payer g) n (Grant.timestamp g).

(** What one request may do to a row: nothing, or lower its points to a
    value that is not negative. *)
Definition shrinks (g g' : Grant.t) : Prop :=
  g' = g
  \/ (g' = with_points g (Grant.points g')
      /\ 0 <= Grant.points g' < Grant.points g).

(** A plan that debits rows of the table [t], each once and by no more
    than it holds. *)
Definition applicable (pl : list (Grant.t * Z)) (t : list Grant.t) : Prop :=
  unique_ids t
  /\ NoDup (map (fun gd => Grant.id (fst gd)) pl)
  /\ Forall (fun gd => In (fst gd) t /\ 0 < snd gd <= Grant.points (fst gd)) pl.

(** Points a plan takes from one payer. *)
Definition tally (pl : list (Grant.t * Z)) (p : string) : Z :=
  fold_right
    (fun gd acc => if Grant.payer (fst gd) =? p then snd gd + acc else acc) 0 pl.

(** The elements of a list in the order of their first occurrence. *)
Fixpoint first_seen (l : list string) : list string :=
  match l with
  | [] => []
  | x :: rest => x :: filter (fun y => negb (y =? x)) (first_seen rest)
  end.

(** The object that holds, for the payers of a plan in the order in which
    the plan first meets them, the negated points the plan takes from each. *)
Definition summary_of (pl : list (Grant.t * Z)) (o : Js.object) : Prop :=
  map fst o = first_seen (map (fun gd => Grant.payer (fst gd)) pl)
  /\ Forall (fun kv => snd kv = Js.VNumber (- tally pl (fst kv))) o.

(** The object that holds, for the payers of some rows in the order in
    which the rows first show them, the sum of the points of each. *)
Definition balances_of (rows : list Grant.t) (o : Js.object) : Prop :=
  map fst o = first_seen (map Grant.payer rows)
  /\ Forall (fun kv => snd kv = Js.VNumber (balance_of (fst kv) rows)) o.

(** The rows of the snapshot that a request has changed: those that are
    no longer in the table as the snapshot shows them. *)
Definition touched (snapshot after : list Grant.t) : list Grant.t :=
  filter (fun g => if in_dec Grant.eq_dec g after then false else true) snapshot.

(** Ascending order of array indices. *)
Definition index_le (a b : string) : Prop :=
  (Js.index_value a <= Js.index_value b)%N.

(** A request that does not grant a negative number of points. *)
Definition no_negative_grant (r : Request) : Prop :=
  match r with
  | Add b => match add_points b with Some n => 0 <= n | None => True end
  | Spend _ => True
  | Balance => True
  end.

Definition never_negative (t : list Grant.t) : Prop :=
  Forall (fun g => 0 <= Grant.points g) t.

(** What no request changes in a row: its id, its payer, its timestamp. *)
Definition identity (g : Grant.t) : Z * string * string :=
  (Grant.id g, Grant.payer g, Grant.timestamp g).

(** The snapshot as the loop of [/spend] leaves it: each row with the
    points the [UPDATE] of its pass has written, or untouched. *)
Fixpoint settle (pointsRecord : list Grant.t) (points : Z) : list Grant.t :=
  match pointsRecord with
  | [] => []
  | data :: rest =>
      if (points <=? 0)%Z then data :: rest
      else if (0 <? data.(Grant.points))%Z then
        let pointsDeduced := Z.min points data.(Grant.points) in
        with_points data (Js.round (data.(Grant.points) - pointsDeduced))
          :: settle rest (Js.round (points - pointsDeduced))
      else data :: settle rest points
  end.

(** Sum of the values of a mapping; there is none as soon as one value is
    not a number. *)
Fixpoint sum_values (l : list (string * Js.value)) : option Z :=
  match l with
  | [] => Some 0
  | (_, Js.VNumber n) :: rest =>
      match sum_values rest with
      | Some m => Some (n + m)
      | None => None
      end
  | _ :: _ => None
  end.

(** ** Ledgers used as examples *)

Definition grant_request (p : string) (n : Z) (ts : string) : Request :=
  Add (mkAddBody (Some p) (Some n) (Some ts)).

Definition spend_request (n : Z) : Request := Spend (mkSpendBody (Some n)).

Definition t1 : string := "2020-10-31T10:00:00Z".
Definition t2 : string := "2020-10-31T11:00:00Z".
Definition t25 : string := "2020-11-01T14:00:00Z".
Definition t3 : string := "2020-11-02T14:00:00Z".

(** Scenario 1 of the specification; the grants arrive out of order. *)
Definition scenario1 : Store :=
  run [ grant_request "DANNON" 300 t1; grant_request "UNILEVER" 200 t2;
        grant_request "DANNON" 10000 t3; grant_request "MILLER COORS" 10000 t25 ]
      (empty_ledger []).

(** Scenario 2: one grant of 100 points. *)
Definition scenario2 : Store :=
  run [ grant_request "DANNON" 100 t1 ] (empty_ledger []).

(** A ledger holding a grant of negative points. *)
Definition overdrawn : Store :=
  run [ grant_request "DANNON" 100 t1; grant_request "UNILEVER" (-50) t2 ]
      (empty_ledger []).

(** A ledger whose only payer is named like a member of every object. *)
Definition constructor_ledger : Store :=
  run [ grant_request "constructor" 100 t1 ] (empty_ledger []).

Definition proto_ledger : Store :=
  run [ grant_request "__proto__" 100 t1 ] (empty_ledger []).

(** A ledger with a payer whose name is an array index. *)
Definition numbered_ledger : Store :=
  run [ grant_request "ACME" 5 t1; grant_request "10" 3 t2 ] (empty_ledger []).

(** Scenario 1 behind a driver that throws on its third call. *)
Definition flaky_scenario1 : Store :=
  mkStore (table scenario1) [false; false; true].

Definition t4 : string := "2020-11-03T14:00:00Z".

(** Two grants whose points add up to 2^53 + 3, which no number holds. *)
Definition rounding_ledger : Store :=
  run [ grant_request "DANNON" Js.max_safe_integer t1;
        grant_request "UNILEVER" 4 t2 ] (empty_ledger []).

(** Grants that add up to -1, through partial sums that are rounded. *)
Definition cancelling_ledger : Store :=
  run [ grant_request "DANNON" Js.max_safe_integer t1;
        grant_request "UNILEVER" 2 t2;
        grant_request "DANNON" (- Js.max_safe_integer) t25;
        grant_request "UNILEVER" (-3) t3 ] (empty_ledger []).

(** Three grants of 2^53 - 1 points and two of as many negative points. *)
Definition tripled_ledger : Store :=
  run [ grant_request "DANNON" Js.max_safe_integer t1;
        grant_request "DANNON" Js.max_safe_integer t2;
        grant_request "DANNON" Js.max_safe_integer t25;
        grant_request "DANNON" (- Js.max_safe_integer) t3;
        grant_request "DANNON" (- Js.max_safe_integer) t4 ] (empty_ledger []).

(** A payer whose two grants add up to 2^53 + 3, and another payer. *)
Definition lagging_ledger : Store :=
  run [ grant_request "DANNON" 9007199254740994 t1;
        grant_request "DANNON" 1 t2;
        grant_request "UNILEVER" 5 t3 ] (empty_ledger []).

(** * Properties *)

(** The balance check of [/spend] lets the request through. *)
Ltac enough_points :=
  let E := fresh "E" in
  destruct (total _ <? _)%Z eqn:E; [apply Z.ltb_lt in E; lia|].

(** A field given as [Some v], with [v] truthy, is not lacking. *)
Ltac present :=
  let E := fresh "E" in intros [E|E]; discriminate E.

(** ** Rounding to a double *)

Lemma round_exact (x : Z) : Z.abs x < Js.limit -> Js.round x = x.
Proof.
  unfold Js.limit. change 9007199254740992 with (2 ^ 53).
  intro H. unfold Js.round.
  destruct (Z.leb_spec (Z.log2 (Z.abs x) - 52) 0) as [_|He]; [reflexivity|].
  exfalso.
  assert (Hpos : 0 < Z.abs x).
  { destruct (Z.eq_dec (Z.abs x) 0) as [E|E]; [rewrite E in He; simpl in He; lia | lia]. }
  assert (Z.log2 (Z.abs x) < 53) by (apply Z.log2_lt_pow2; lia).
  lia.
Qed.

Lemma round_opp (x : Z) : Js.round (- x) = - Js.round x.
Proof.
  unfold Js.round. rewrite Z.abs_opp, Z.sgn_opp.
  destruct (Z.log2 (Z.abs x) - 52 <=? 0)%Z; lia.
Qed.

Lemma nearest_bounds (e a : Z) :
  0 < e -> 0 <= a ->
  a / 2 ^ e * 2 ^ e <= Js.nearest e a <= (a / 2 ^ e + 1) * 2 ^ e.
Proof.
  intros He Ha. unfold Js.nearest.
  assert (0 < 2 ^ e) by (apply Z.pow_pos_nonneg; lia).
  destruct (_ || _); nia.
Qed.

Lemma nearest_multiple (e m : Z) :
  0 < e -> Js.nearest e (m * 2 ^ e) = m * 2 ^ e.
Proof.
  intros He. unfold Js.nearest.
  assert (H2 : 0 < 2 ^ e) by (apply Z.pow_pos_nonneg; lia).
  assert (Hh : 0 < 2 ^ (e - 1)) by (apply Z.pow_pos_nonneg; lia).
  rewrite Z.div_mul by lia. rewrite Z.mod_mul by lia.
  destruct (Z.ltb_spec (2 ^ (e - 1)) 0); [lia|].
  destruct (Z.eqb_spec 0 (2 ^ (e - 1))); [lia|]. reflexivity.
Qed.

Lemma nearest_mono (e a b : Z) :
  0 < e -> 0 <= a -> a <= b -> Js.nearest e a <= Js.nearest e b.
Proof.
  intros He Ha Hab.
  assert (H2 : 0 < 2 ^ e) by (apply Z.pow_pos_nonneg; lia).
  pose proof (Z.div_le_mono a b (2 ^ e) H2 Hab) as Hq.
  destruct (Z.eq_dec (a / 2 ^ e) (b / 2 ^ e)) as [Eq|Ne].
  - unfold Js.nearest. rewrite <- Eq.
    assert (Hr : a mod 2 ^ e <= b mod 2 ^ e).
    { pose proof (Z.div_mod a (2 ^ e)). pose proof (Z.div_mod b (2 ^ e)).
      rewrite <- Eq in H0. lia. }
    set (q := a / 2 ^ e). set (ra := a mod 2 ^ e) in *. set (rb := b mod 2 ^ e) in *.
    set (h := 2 ^ (e - 1)).
    destruct (Z.ltb_spec h ra), (Z.ltb_spec h rb),
      (Z.eqb_spec ra h), (Z.eqb_spec rb h), (Z.odd q); simpl; nia.
  - pose proof (nearest_bounds e a He Ha) as [_ Hu].
    pose proof (nearest_bounds e b He ltac:(lia)) as [Hl _].
    nia.
Qed.

Lemma log2_scale (a : Z) :
  0 < Z.log2 a - 52 ->
  2 ^ 52 * 2 ^ (Z.log2 a - 52) <= a < 2 ^ 53 * 2 ^ (Z.log2 a - 52).
Proof.
  intro He.
  assert (Ha : 0 < a).
  { destruct (Z_lt_le_dec 0 a); [assumption|]. rewrite Z.log2_nonpos in He by lia. lia. }
  pose proof (Z.log2_spec a Ha) as [Hl Hu].
  rewrite <- !Z.pow_add_r by lia.
  replace (52 + (Z.log2 a - 52)) with (Z.log2 a) by lia.
  replace (53 + (Z.log2 a - 52)) with (Z.succ (Z.log2 a)) by lia.
  lia.
Qed.

Lemma round_nonneg_eq (x : Z) :
  0 <= x ->
  Js.round x = if (Z.log2 x - 52 <=? 0)%Z then x else Js.nearest (Z.log2 x - 52) x.
Proof.
  intro Hx. unfold Js.round. rewrite Z.abs_eq by lia.
  destruct (Z.leb_spec (Z.log2 x - 52) 0); [reflexivity|].
  assert (0 < x).
  { destruct (Z_lt_le_dec 0 x); [assumption|]. rewrite Z.log2_nonpos in * by lia. lia. }
  rewrite Z.sgn_pos by lia. lia.
Qed.

Lemma round_nonneg (x : Z) : 0 <= x -> 0 <= Js.round x.
Proof.
  intro Hx. rewrite round_nonneg_eq by lia.
  destruct (Z.leb_spec (Z.log2 x - 52) 0) as [|He]; [lia|].
  pose proof (nearest_bounds _ x He Hx) as [Hl _].
  assert (0 < 2 ^ (Z.log2 x - 52)) by (apply Z.pow_pos_nonneg; lia).
  assert (0 <= x / 2 ^ (Z.log2 x - 52)) by (apply Z.div_pos; lia).
  nia.
Qed.

Lemma nearest_range (a : Z) :
  0 < Z.log2 a - 52 ->
  2 ^ 52 * 2 ^ (Z.log2 a - 52) <= Js.nearest (Z.log2 a - 52) a
    <= 2 ^ 53 * 2 ^ (Z.log2 a - 52).
Proof.
  intro He. pose proof (log2_scale a He) as [Hl Hu].
  set (e := Z.log2 a - 52) in *.
  assert (H2 : 0 < 2 ^ e) by (apply Z.pow_pos_nonneg; lia).
  split.
  - rewrite <- (nearest_multiple e (2 ^ 52) He). apply nearest_mono; lia.
  - rewrite <- (nearest_multiple e (2 ^ 53) He). apply nearest_mono; lia.
Qed.

Lemma round_mono_nonneg (x y : Z) : 0 <= x -> x <= y -> Js.round x <= Js.round y.
Proof.
  intros Hx Hxy. rewrite !round_nonneg_eq by lia.
  pose proof (Z.log2_le_mono x y Hxy) as Hlog.
  destruct (Z.leb_spec (Z.log2 x - 52) 0) as [Hex|Hex];
    destruct (Z.leb_spec (Z.log2 y - 52) 0) as [Hey|Hey]; try lia.
  - (* x small, y large *)
    pose proof (nearest_range y Hey) as [Hl _].
    assert (x < 2 ^ 53).
    { destruct (Z.eq_dec x 0); [subst; reflexivity|].
      apply Z.log2_lt_pow2; lia. }
    assert (2 ^ 1 <= 2 ^ (Z.log2 y - 52)) by (apply Z.pow_le_mono_r; lia).
    change (2 ^ 1) with 2 in *. change (2 ^ 52) with 4503599627370496 in *.
    change (2 ^ 53) with 9007199254740992 in *. lia.
  - destruct (Z.eq_dec (Z.log2 x) (Z.log2 y)) as [E|NE].
    + rewrite E. apply nearest_mono; lia.
    + pose proof (nearest_range x Hex) as [_ Hu].
      pose proof (nearest_range y Hey) as [Hl _].
      assert (2 ^ (Z.log2 x - 52 + 1) <= 2 ^ (Z.log2 y - 52))
        by (apply Z.pow_le_mono_r; lia).
      rewrite Z.pow_add_r in H by lia. change (2 ^ 1) with 2 in H.
      change (2 ^ 52) with 4503599627370496 in *.
      change (2 ^ 53) with 9007199254740992 in *. lia.
Qed.

Lemma round_le_number (x p : Z) : 0 <= x -> x <= p -> Js.round p = p -> Js.round x <= p.
Proof.
  intros Hx Hxp Hp. rewrite <- Hp. apply round_mono_nonneg; assumption.
Qed.

Lemma round_idempotent_nonneg (x : Z) : 0 <= x -> Js.round (Js.round x) = Js.round x.
Proof.
  intro Hx.
  destruct (Z.leb_spec (Z.log2 x - 52) 0) as [He|He].
  - rewrite (round_nonneg_eq x Hx).
    destruct (Z.leb_spec (Z.log2 x - 52) 0); [|lia].
    rewrite round_nonneg_eq by lia.
    destruct (Z.leb_spec (Z.log2 x - 52) 0); [reflexivity | lia].
  - pose proof (nearest_range x He) as [Hl Hu].
    pose proof (nearest_bounds _ x He Hx) as [Hbl Hbu].
    rewrite (round_nonneg_eq x Hx).
    destruct (Z.leb_spec (Z.log2 x - 52) 0); [lia|].
    set (e := Z.log2 x - 52) in *.
    assert (H2 : 0 < 2 ^ e) by (apply Z.pow_pos_nonneg; lia).
    assert (Hmul : exists m, Js.nearest e x = m * 2 ^ e /\ 2 ^ 52 <= m <= 2 ^ 53).
    { unfold Js.nearest in *. destruct (_ || _); eexists; split; try reflexivity; nia. }
    destruct Hmul as (m & Hm & Hrange). rewrite Hm.
    assert (0 < m) by (change (2 ^ 52) with 4503599627370496 in *; lia).
    rewrite round_nonneg_eq by nia.
    destruct (Z.eq_dec m (2 ^ 53)) as [->|Hne].
    + rewrite <- Z.pow_add_r by lia.
      rewrite Z.log2_pow2 by lia.
      destruct (Z.leb_spec (53 + e - 52) 0); [lia|].
      replace (2 ^ (53 + e)) with (2 ^ 52 * 2 ^ (53 + e - 52)).
      * apply nearest_multiple. lia.
      * rewrite <- Z.pow_add_r by lia. f_equal. lia.
    + assert (Hlog : Z.log2 (m * 2 ^ e) = 52 + e).
      { rewrite <- Z.shiftl_mul_pow2 by lia.
        rewrite Z.log2_shiftl by lia.
        assert (Z.log2 m = 52); [|lia].
        apply Z.log2_unique; [lia|]. change (2 ^ Z.succ 52) with (2 ^ 53). lia. }
      rewrite Hlog. replace (52 + e - 52) with e by lia.
      destruct (Z.leb_spec e 0); [lia|]. apply nearest_multiple. lia.
Qed.

Lemma round_idempotent (x : Z) : Js.round (Js.round x) = Js.round x.
Proof.
  destruct (Z_le_gt_dec 0 x) as [H|H].
  - apply round_idempotent_nonneg. exact H.
  - pose proof (round_idempotent_nonneg (- x) ltac:(lia)) as E.
    rewrite !round_opp in E. lia.
Qed.

Lemma round_0 : Js.round 0 = 0.
Proof. reflexivity. Qed.

Lemma round_is_number (x : Z) : Js.is_number (Js.round x).
Proof. apply round_idempotent. Qed.

(** On the sums and differences that the ledgers used as examples below
    give rise to, and on others around 2^53, 2^54 and 2^63, [Js.round]
    is the double arithmetic of the machine. *)
Example round_as_the_machine :
  forallb Js.adds_as_doubles
    [ (Js.max_safe_integer, 4); (Js.max_safe_integer, 2);
      (Js.limit, - Js.max_safe_integer); (1, -3);
      (Js.max_safe_integer, Js.max_safe_integer);
      (18014398509481982, Js.max_safe_integer);
      (27021597764222972, - Js.max_safe_integer);
      (18014398509481980, - Js.max_safe_integer);
      (9007199254740994, 1); (9007199254740996, 5);
      (Js.limit, 1); (Js.limit, 3); (Js.limit + 2, 1); (Js.limit + 2, 3);
      (18014398509481984, 2); (18014398509481984, 6); (18014398509481984, 5);
      (9223372036854775808, 1); (9223372036854775808, 1024);
      (300, 200); (-50, 100) ] = true
  /\ forallb Js.subtracts_as_doubles
    [ (9007199254740996, Js.max_safe_integer); (5, 4);
      (-9007199254740994, 1); (-1, 1);
      (9223372036854775808, 1); (1152921504606847232, 64);
      (1152921504606847232, 1152921504606846976);
      (18014398509481992, 1); (18014398509481992, 2); (18014398509481992, 3);
      (Js.limit, 1); (Js.limit + 2, 1); (- Js.limit, 1); (- Js.limit - 2, 1);
      (10000, 4500); (300, 300) ] = true.
Proof. split; vm_compute; reflexivity. Qed.

(** The difference [p - d] a pass of the loop writes, for a row holding
    the number [p] and [0 < d <= p], is a number between 0 and [p]. *)
Lemma round_debit (p d : Z) :
  Js.is_number p -> 0 < d <= p ->
  0 <= Js.round (p - d) <= p /\ Js.is_number (Js.round (p - d)).
Proof.
  intros Hp Hd. split; [split|apply round_is_number].
  - apply round_nonneg. lia.
  - apply round_le_number; [lia | lia | exact Hp].
Qed.

(** What is rounded away is nothing when the magnitudes stay below 2^53. *)
Ltac exact_rounds :=
  repeat rewrite round_exact by (unfold Js.limit in *; lia).

(** ** The driver and the monad *)

Lemma reliable_eta (s : Store) : reliable s -> s = mkStore (table s) [].
Proof. destruct s as [t fs]; unfold reliable; simpl; intros ->; reflexivity. Qed.

Lemma driver_reliable {A} (stmt : list Grant.t -> A * list Grant.t) (s : Store) :
  reliable s ->
  driver stmt s = (Returned (fst (stmt (table s))), mkStore (snd (stmt (table s))) []).
Proof.
  unfold reliable, driver; intros ->.
  destruct (stmt (table s)); reflexivity.
Qed.

Lemma driver_table {A} (stmt : list Grant.t -> A * list Grant.t) (s : Store) :
  table (snd (driver stmt s)) = table s
  \/ table (snd (driver stmt s)) = snd (stmt (table s)).
Proof.
  unfold driver.
  destruct (faults s) as [|[|] later]; simpl; auto;
    destruct (stmt (table s)); simpl; auto.
Qed.

(** ** The loop of [/spend] against its plan *)

Lemma spend_loop_reliable (rows : list Grant.t) :
  forall points sm s,
    reliable s ->
    spend_loop rows points sm s =
      (Returned (remaining rows points,
                 fold_left note_debit (plan rows points) sm),
       mkStore (fold_left apply_debit (plan rows points) (table s)) []).
Proof.
  induction rows as [|data rest IH]; intros pts sm s Hs; simpl.
  - unfold ret. rewrite (reliable_eta s Hs) at 1. reflexivity.
  - destruct (pts <=? 0)%Z.
    + unfold ret. rewrite (reliable_eta s Hs) at 1. reflexivity.
    + destruct (0 <? Grant.points data)%Z.
      * unfold bind, UPDATE_POINTS. rewrite driver_reliable by assumption.
        rewrite IH by reflexivity. reflexivity.
      * apply IH; assumption.
Qed.

(** ** [ORDER BY timestamp] *)

Lemma string_leb_iff (a b : string) :
  String.leb a b = true <-> a = b \/ String_as_OT.lt a b.
Proof.
  unfold String.leb.
  destruct (String.compare a b) eqn:E; split; intro H; auto; try discriminate.
  - left. apply String.compare_eq_iff; assumption.
  - right. apply String_as_OT.cmp_lt. exact E.
  - destruct H as [H|H].
    + subst. assert (String.compare b b = Eq) by (apply String_as_OT.cmp_eq; reflexivity).
      congruence.
    + apply String_as_OT.cmp_lt in H. unfold String_as_OT.cmp in H. congruence.
Qed.

Lemma string_ltb_iff (a b : string) :
  String.ltb a b = true <-> String_as_OT.lt a b.
Proof.
  unfold String.ltb. rewrite <- String_as_OT.cmp_lt. unfold String_as_OT.cmp.
  destruct (String.compare a b); split; intro; auto; discriminate.
Qed.

Lemma string_leb_trans (a b c : string) :
  String.leb a b = true -> String.leb b c = true -> String.leb a c = true.
Proof.
  rewrite !string_leb_iff.
  intros [->|H1] [->|H2]; auto.
  right. eapply String_as_OT.lt_trans; eassumption.
Qed.

Lemma string_ltb_not_leb (a b : string) :
  String.ltb a b = true -> String.leb b a = true -> False.
Proof.
  rewrite string_ltb_iff, string_leb_iff.
  intros H [->|H'].
  - eapply String_as_OT.lt_not_eq; [exact H | reflexivity].
  - eapply String_as_OT.lt_not_eq; [eapply String_as_OT.lt_trans; eassumption | reflexivity].
Qed.

Lemma insert_by_timestamp_perm (g : Grant.t) (l : list Grant.t) :
  Permutation (insert_by_timestamp g l) (g :: l).
Proof.
  induction l as [|h rest IH]; simpl.
  - apply Permutation_refl.
  - destruct (String.leb (Grant.timestamp g) (Grant.timestamp h)).
    + apply Permutation_refl.
    + eapply perm_trans; [apply perm_skip; exact IH | apply perm_swap].
Qed.

Lemma order_by_timestamp_perm (t : list Grant.t) :
  Permutation (order_by_timestamp t) t.
Proof.
  induction t as [|g rest IH]; simpl.
  - constructor.
  - eapply perm_trans; [apply insert_by_timestamp_perm | apply perm_skip; exact IH].
Qed.

Lemma insert_by_timestamp_sorted (g : Grant.t) (l : list Grant.t) :
  StronglySorted ts_le l -> StronglySorted ts_le (insert_by_timestamp g l).
Proof.
  induction l as [|h rest IH]; simpl; intro Hs.
  - constructor; constructor.
  - inversion Hs as [|? ? Hrest Hall]; subst.
    destruct (String.leb (Grant.timestamp g) (Grant.timestamp h)) eqn:E.
    + constructor; [assumption|].
      constructor; [exact E|].
      eapply Forall_impl; [|exact Hall].
      intros x Hx. unfold ts_le in *. eapply string_leb_trans; eassumption.
    + constructor; [apply IH; assumption|].
      assert (Hhg : ts_le h g).
      { unfold ts_le. destruct (String.leb_total (Grant.timestamp g) (Grant.timestamp h));
          congruence. }
      eapply Permutation_Forall; [apply Permutation_sym, insert_by_timestamp_perm|].
      constructor; assumption.
Qed.

Lemma order_by_timestamp_sorted (t : list Grant.t) :
  StronglySorted ts_le (order_by_timestamp t).
Proof.
  induction t as [|g rest IH]; simpl.
  - constructor.
  - apply insert_by_timestamp_sorted; assumption.
Qed.

(** ** Sums over the snapshot *)

Lemma magnitude_cons (g : Grant.t) (t : list Grant.t) :
  magnitude (g :: t) = Z.abs (Grant.points g) + magnitude t.
Proof. reflexivity. Qed.

Lemma magnitude_app (a b : list Grant.t) :
  magnitude (a ++ b) = magnitude a + magnitude b.
Proof.
  induction a as [|g rest IH]; [reflexivity|].
  cbn [app]. rewrite !magnitude_cons, IH. lia.
Qed.

Lemma magnitude_nonneg (t : list Grant.t) : 0 <= magnitude t.
Proof.
  induction t as [|g rest IH]; [reflexivity|]. rewrite magnitude_cons. lia.
Qed.

Lemma magnitude_perm (l l' : list Grant.t) :
  Permutation l l' -> magnitude l = magnitude l'.
Proof. induction 1; rewrite ?magnitude_cons in *; lia. Qed.

Lemma magnitude_in (g : Grant.t) (t : list Grant.t) :
  In g t -> Z.abs (Grant.points g) <= magnitude t.
Proof.
  induction t as [|h rest IH]; [contradiction|].
  rewrite magnitude_cons. pose proof (magnitude_nonneg rest).
  intros [->|Hin]; [lia|]. specialize (IH Hin). lia.
Qed.

Lemma total_magnitude (t : list Grant.t) : Z.abs (total t) <= magnitude t.
Proof.
  induction t as [|g rest IH]; [reflexivity|].
  rewrite magnitude_cons. unfold total in *. cbn [fold_right]. lia.
Qed.

(** A table of small magnitude holds numbers only. *)
Lemma magnitude_numbers (t : list Grant.t) :
  magnitude t < Js.limit -> numbers t.
Proof.
  intro H. apply Forall_forall. intros g Hg.
  apply round_exact. pose proof (magnitude_in g t Hg). lia.
Qed.

Lemma fold_left_points (l : list Grant.t) :
  forall acc,
    Z.abs acc + magnitude l < Js.limit ->
    fold_left (fun prev data => Js.round (prev + Grant.points data)) l acc
    = acc + total l.
Proof.
  induction l as [|g rest IH]; intros acc Hacc; cbn [fold_left].
  - unfold total. simpl. lia.
  - rewrite magnitude_cons in Hacc. pose proof (magnitude_nonneg rest).
    rewrite round_exact by lia. rewrite IH by lia.
    unfold total. cbn [fold_right]. lia.
Qed.

(** The balance the handler computes is the sum of the points as long as
    nothing is rounded on the way. *)
Lemma totalBalance_total (l : list Grant.t) :
  magnitude l < Js.limit -> totalBalance l = total l.
Proof.
  intro H. unfold totalBalance. rewrite fold_left_points; simpl; lia.
Qed.

Lemma total_perm (l l' : list Grant.t) :
  Permutation l l' -> total l = total l'.
Proof. induction 1; simpl; lia. Qed.

Lemma available_perm (l l' : list Grant.t) :
  Permutation l l' -> available l = available l'.
Proof. induction 1; simpl; lia. Qed.

Lemma total_le_available (l : list Grant.t) : total l <= available l.
Proof. induction l as [|g rest IH]; simpl; lia. Qed.

Lemma totalBalance_snapshot (t : list Grant.t) :
  magnitude t < Js.limit -> totalBalance (order_by_timestamp t) = total t.
Proof.
  intro H. pose proof (order_by_timestamp_perm t) as Hperm.
  rewrite totalBalance_total by (rewrite (magnitude_perm _ _ Hperm); exact H).
  apply total_perm, Hperm.
Qed.

(** ** The handlers on a reliable driver *)

Lemma post_spend_reliable (n : Z) (s : Store) :
  n <> 0 -> reliable s ->
  post_spend (mkSpendBody (Some n)) s =
    if (totalBalance (order_by_timestamp (table s)) <? n)%Z then (not_enough, s)
    else
      let pl := plan (order_by_timestamp (table s)) n in
      (mkResponse 200 (Spent (Js.entries (fold_left note_debit pl Js.empty))),
       mkStore (fold_left apply_debit pl (table s)) []).
Proof.
  intros Hn Hs. unfold post_spend; simpl.
  destruct (n =? 0)%Z eqn:E; [apply Z.eqb_eq in E; contradiction|].
  unfold try_catch, bind, GET_POINTS.
  rewrite driver_reliable by assumption. simpl.
  destruct (totalBalance (order_by_timestamp (table s)) <? n)%Z.
  - unfold ret. rewrite <- reliable_eta by assumption. reflexivity.
  - rewrite spend_loop_reliable by reflexivity. reflexivity.
Qed.

(** The same, on a table whose sums are not rounded. *)
Lemma post_spend_valid (n : Z) (s : Store) :
  n <> 0 -> reliable s -> magnitude (table s) < Js.limit ->
  post_spend (mkSpendBody (Some n)) s =
    if (total (table s) <? n)%Z then (not_enough, s)
    else
      let pl := plan (order_by_timestamp (table s)) n in
      (mkResponse 200 (Spent (Js.entries (fold_left note_debit pl Js.empty))),
       mkStore (fold_left apply_debit pl (table s)) []).
Proof.
  intros Hn Hs Hm. rewrite post_spend_reliable by assumption.
  rewrite totalBalance_snapshot by exact Hm. reflexivity.
Qed.

Lemma get_balance_reliable (s : Store) :
  reliable s ->
  get_balance s =
    (mkResponse 200
       (Balances (Js.entries
          (fold_left accumulate (order_by_timestamp (table s)) Js.empty))), s).
Proof.
  intro Hs. unfold get_balance, try_catch, bind, GET_POINTS.
  rewrite driver_reliable by assumption. simpl.
  unfold ret. rewrite <- reliable_eta by assumption. reflexivity.
Qed.

(** Scenario 1 of the specification: 5000 points are taken from the four
    grants by age, whatever the order in which they were granted. *)
Example scenario1_spend :
  post_spend (mkSpendBody (Some 5000)) scenario1
  = (mkResponse 200
       (Spent [("DANNON", Js.VNumber (-300)); ("UNILEVER", Js.VNumber (-200));
               ("MILLER COORS", Js.VNumber (-4500))]),
     mkStore [Grant.make 1 "DANNON" 0 t1; Grant.make 2 "UNILEVER" 0 t2;
              Grant.make 3 "DANNON" 10000 t3;
              Grant.make 4 "MILLER COORS" 5500 t25] []).
Proof. reflexivity. Qed.

(** Scenario 3: spending all there is empties every grant. *)
Example scenario1_spend_all :
  post_spend (mkSpendBody (Some 20500)) scenario1
  = (mkResponse 200
       (Spent [("DANNON", Js.VNumber (-10300)); ("UNILEVER", Js.VNumber (-200));
               ("MILLER COORS", Js.VNumber (-10000))]),
     mkStore [Grant.make 1 "DANNON" 0 t1; Grant.make 2 "UNILEVER" 0 t2;
              Grant.make 3 "DANNON" 0 t3;
              Grant.make 4 "MILLER COORS" 0 t25] []).
Proof. reflexivity. Qed.

(** Scenario 4: the balance of an empty ledger. *)
Example empty_balance :
  get_balance (empty_ledger []) = (mkResponse 200 (Balances []), empty_ledger []).
Proof. reflexivity. Qed.

(** A driver that throws on the second update leaves the first one
    written, and the request is answered 500. *)
Example partial_spend :
  post_spend (mkSpendBody (Some 400)) (mkStore (table scenario1) [false; false; true])
  = (something_went_wrong,
     mkStore [Grant.make 1 "DANNON" 0 t1; Grant.make 2 "UNILEVER" 200 t2;
              Grant.make 3 "DANNON" 10000 t3;
              Grant.make 4 "MILLER COORS" 10000 t25] []).
Proof. reflexivity. Qed.

(** A grant of 2^63 points is left as it is by a spend of 1 point, which
    is answered 200 all the same: 2^63 - 1 rounds back to 2^63. *)
Example spend_rounds_back :
  post_spend (mkSpendBody (Some 1))
    (run [grant_request "DANNON" 9223372036854775808 t1] (empty_ledger []))
  = (mkResponse 200 (Spent [("DANNON", Js.VNumber (-1))]),
     run [grant_request "DANNON" 9223372036854775808 t1] (empty_ledger [])).
Proof. vm_compute. reflexivity. Qed.

(** Three grants of 2^53 - 1 points to one payer: [/balance] answers with
    their sum as doubles, one less than their sum. *)
Example balance_rounded :
  fst (get_balance
         (run [ grant_request "DANNON" Js.max_safe_integer t1;
                grant_request "DANNON" Js.max_safe_integer t2;
                grant_request "DANNON" Js.max_safe_integer t3 ] (empty_ledger [])))
  = mkResponse 200 (Balances [("DANNON", Js.VNumber 27021597764222972)])
  /\ 3 * Js.max_safe_integer = 27021597764222973.
Proof. split; vm_compute; reflexivity. Qed.

(** The counter of the loop lags behind what has been taken: of grants of
    64, 2^60, 200 and 100 points, a spend of 2^60 + 256 has taken
    2^60 + 264 when a throw of the driver stops it at the fourth grant. *)
Example counter_lags :
  let s := mkStore
             (table (run [ grant_request "DANNON" 64 t1;
                           grant_request "UNILEVER" 1152921504606846976 t2;
                           grant_request "DANNON" 200 t25;
                           grant_request "UNILEVER" 100 t3 ] (empty_ledger [])))
             [false; false; false; false; true] in
  fst (post_spend (mkSpendBody (Some 1152921504606847232)) s) = something_went_wrong
  /\ total (table s)
       - total (table (snd (post_spend (mkSpendBody (Some 1152921504606847232)) s)))
     = 1152921504606847240.
Proof. cbv zeta. split; vm_compute; reflexivity. Qed.

Lemma plan_nonpositive (rows : list Grant.t) (n : Z) : n <= 0 -> plan rows n = [].
Proof.
  intro Hn. destruct rows as [|g rest]; simpl; [reflexivity|].
  destruct (n <=? 0)%Z eqn:E; [reflexivity|]. apply Z.leb_gt in E. lia.
Qed.

Lemma remaining_nonpositive (rows : list Grant.t) (n : Z) :
  n <= 0 -> remaining rows n = n.
Proof.
  intro Hn. destruct rows as [|g rest]; simpl; [reflexivity|].
  destruct (n <=? 0)%Z eqn:E; [reflexivity|]. apply Z.leb_gt in E. lia.
Qed.

(** ** Insufficient balance *)

Lemma post_spend_rejected_table (n : Z) (s : Store) :
  totalBalance (order_by_timestamp (table s)) < n ->
  table (snd (post_spend (mkSpendBody (Some n)) s)) = table s.
Proof.
  intro Hlt. unfold post_spend; simpl.
  destruct (n =? 0)%Z; [reflexivity|].
  unfold try_catch, bind, GET_POINTS, driver.
  destruct (faults s) as [|[|] later]; simpl; try reflexivity;
    (destruct (totalBalance (order_by_timestamp (table s)) <? n)%Z eqn:E;
      [reflexivity | apply Z.ltb_ge in E; lia]).
Qed.

(** C2, as stated, fails: the handler adds the points up as doubles. The
    grants of [rounding_ledger] hold 2^53 - 1 and 4 points, 2^53 + 3 in
    all; the handler's sum is rounded to 2^53 + 4, so a request for
    2^53 + 4 points passes the check and both grants are emptied. *)
Lemma insufficient_spend_accepted :
  total (table rounding_ledger) < 9007199254740996
  /\ available (table rounding_ledger) < 9007199254740996
  /\ post_spend (mkSpendBody (Some 9007199254740996)) rounding_ledger
     = (mkResponse 200
          (Spent [("DANNON", Js.VNumber (- Js.max_safe_integer));
                  ("UNILEVER", Js.VNumber (-4))]),
        mkStore [Grant.make 1 "DANNON" 0 t1; Grant.make 2 "UNILEVER" 0 t2] [])
  /\ table (snd (post_spend (mkSpendBody (Some 9007199254740996)) rounding_ledger))
     <> table rounding_ledger.
Proof.
  split; [vm_compute; reflexivity|]. split; [vm_compute; reflexivity|].
  split; [vm_compute; reflexivity|]. vm_compute. discriminate.
Qed.

(** C2, amended. On a ledger whose points have magnitudes that add up to
    less than 2^53, when the points available are fewer than the requested
    amount (whether one counts every row, as the handler does, or only the
    rows that still hold points), a validated [/spend] leaves every row as
    it was, whatever the driver does; and when the driver answers, the
    response is the 400 with the plain-text message and the store is
    exactly the one before the request. *)
Theorem spend_insufficient_rejected (n : Z) (s : Store) :
  n <> 0 -> magnitude (table s) < Js.limit ->
  total (table s) < n \/ available (table s) < n ->
  table (snd (post_spend (mkSpendBody (Some n)) s)) = table s
  /\ (reliable s ->
      post_spend (mkSpendBody (Some n)) s = (not_enough, s)
      /\ status not_enough = 400
      /\ body not_enough = Text "The user doesn't have enough points!").
Proof.
  intros Hn Hm Hlt.
  assert (Ht : total (table s) < n).
  { destruct Hlt as [H|H]; [exact H|].
    pose proof (total_le_available (table s)). lia. }
  split.
  - apply post_spend_rejected_table. rewrite totalBalance_snapshot; assumption.
  - intro Hs. split; [|split; reflexivity].
    rewrite post_spend_valid by assumption.
    destruct (total (table s) <? n)%Z eqn:E; [reflexivity|].
    apply Z.ltb_ge in E. lia.
Qed.

Lemma spend_insufficient_rejected_witness :
  table (snd (post_spend (mkSpendBody (Some 150)) scenario2)) = table scenario2
  /\ post_spend (mkSpendBody (Some 150)) scenario2 = (not_enough, scenario2).
Proof.
  destruct (spend_insufficient_rejected 150 scenario2) as [Htable Hanswer].
  - lia.
  - vm_compute. reflexivity.
  - left. vm_compute. reflexivity.
  - split; [exact Htable|]. apply Hanswer. reflexivity.
Defined.

(** ** Validation of [/spend] *)

(** C5, as stated, fails: a request for a negative amount is not rejected. *)
Lemma negative_spend_not_rejected :
  post_spend (mkSpendBody (Some (-5))) (empty_ledger [])
    = (mkResponse 200 (Spent []), empty_ledger [])
  /\ status (fst (post_spend (mkSpendBody (Some (-5))) (empty_ledger []))) <> 400.
Proof. split; [reflexivity | vm_compute; discriminate]. Qed.

(** C5, amended. A [/spend] whose points are zero (or absent) is answered
    with the 400 of the validation without any call to the driver: the store,
    schedule of the driver included, is the one before the request, even
    when the driver was about to throw. Conversely every request that gets
    another answer carries a non-zero amount: that is all the validation
    guarantees to the allocation loop. *)
Theorem spend_zero_rejected_before_store :
  (forall s, post_spend (mkSpendBody (Some 0)) s = (must_specify_points_to_spend, s))
  /\ (forall s, post_spend (mkSpendBody None) s = (must_specify_points_to_spend, s))
  /\ status must_specify_points_to_spend = 400
  /\ (forall b s,
        fst (post_spend b s) <> must_specify_points_to_spend ->
        exists n, spend_points b = Some n /\ n <> 0).
Proof.
  repeat split.
  intros [[n|]] s; unfold post_spend; simpl.
  - destruct (n =? 0)%Z eqn:E.
    + intro H; exfalso; apply H; reflexivity.
    + intros _. exists n. split; [reflexivity|]. apply Z.eqb_neq; exact E.
  - intro H; exfalso; apply H; reflexivity.
Qed.

Lemma spend_zero_rejected_before_store_witness :
  post_spend (mkSpendBody (Some 0)) (mkStore [] [true])
    = (must_specify_points_to_spend, mkStore [] [true])
  /\ exists n, spend_points (mkSpendBody (Some (-5))) = Some n /\ n <> 0.
Proof.
  destruct spend_zero_rejected_before_store as (Hzero & _ & _ & Hother).
  split; [apply Hzero|].
  apply (Hother (mkSpendBody (Some (-5))) (empty_ledger [])).
  vm_compute. discriminate.
Defined.

(** ** Negative amounts *)

Lemma spend_loop_satisfied (rows : list Grant.t) (n : Z) (sm : Js.object) (s : Store) :
  n <= 0 -> spend_loop rows n sm s = (Returned (n, sm), s).
Proof.
  intro Hn. destruct rows as [|g rest]; simpl; [reflexivity|].
  destruct (n <=? 0)%Z eqn:E; [reflexivity|]. apply Z.leb_gt in E. lia.
Qed.

(** C9, as stated, fails: the handler adds the points up as doubles. The
    grants of [cancelling_ledger] hold 2^53 - 1, 2, -(2^53 - 1) and -3
    points, -1 in all; the handler's second partial sum is rounded down to
    2^53 and its total is -2, so a request for -1 points is answered with
    the insufficient-points 400. *)
Lemma negative_spend_rejected :
  -1 <= total (table cancelling_ledger)
  /\ totalBalance (order_by_timestamp (table cancelling_ledger)) = -2
  /\ post_spend (mkSpendBody (Some (-1))) cancelling_ledger
     = (not_enough, cancelling_ledger).
Proof.
  split; [vm_compute; discriminate|]. split; vm_compute; reflexivity.
Qed.

(** C9, amended. A [/spend] for a strictly negative amount, on a ledger
    whose points have magnitudes that add up to less than 2^53 and sum to
    at least that amount, is answered 200 with an empty list and the store
    is untouched: the amount is truthy, the balance check passes, and the
    loop stops before its first row without calling the driver. *)
Theorem negative_spend_accepted (n : Z) (s : Store) :
  n < 0 -> reliable s ->
  magnitude (table s) < Js.limit -> n <= total (table s) ->
  truthy_number (Some n) = Some n
  /\ (totalBalance (order_by_timestamp (table s)) <? n)%Z = false
  /\ (forall rows sm s', spend_loop rows n sm s' = (Returned (n, sm), s'))
  /\ post_spend (mkSpendBody (Some n)) s = (mkResponse 200 (Spent []), s).
Proof.
  intros Hn Hs Hm Ht. repeat split.
  - simpl. destruct (Z.eqb_spec n 0); [lia | reflexivity].
  - rewrite totalBalance_snapshot by exact Hm. apply Z.ltb_ge. lia.
  - intros. apply spend_loop_satisfied. lia.
  - rewrite post_spend_valid by (assumption || lia).
    enough_points.
    rewrite plan_nonpositive by lia. simpl.
    rewrite <- reliable_eta by assumption. reflexivity.
Qed.

Lemma negative_spend_accepted_witness :
  post_spend (mkSpendBody (Some (-70))) overdrawn
    = (mkResponse 200 (Spent []), overdrawn).
Proof.
  apply (negative_spend_accepted (-70) overdrawn).
  - lia.
  - reflexivity.
  - vm_compute. reflexivity.
  - vm_compute. discriminate.
Defined.

(** ** The balance check counts every row *)

(** C10, as stated, fails: the handler adds the points up as doubles. The
    grants of [tripled_ledger] hold three times 2^53 - 1 points and twice
    as many negative points, 2^53 - 1 in all; the handler's sum is
    2^53 - 3, so a request for 2^53 - 1 points is answered with the
    insufficient-points 400 although the sum is not less than the request. *)
Lemma equal_total_rejected :
  total (table tripled_ledger) = Js.max_safe_integer
  /\ totalBalance (order_by_timestamp (table tripled_ledger))
     = Js.max_safe_integer - 2
  /\ post_spend (mkSpendBody (Some Js.max_safe_integer)) tripled_ledger
     = (not_enough, tripled_ledger)
  /\ ~ (fst (post_spend (mkSpendBody (Some Js.max_safe_integer)) tripled_ledger)
          = not_enough
        <-> total (table tripled_ledger) < Js.max_safe_integer).
Proof.
  split; [vm_compute; reflexivity|]. split; [vm_compute; reflexivity|].
  split; [vm_compute; reflexivity|].
  intros [H _]. assert (E : total (table tripled_ledger) < Js.max_safe_integer)
    by (apply H; vm_compute; reflexivity).
  vm_compute in E. discriminate.
Qed.

(** C10, amended. On a reliable driver a validated [/spend] is answered
    with the insufficient-points 400 exactly when the balance the handler
    computes, adding the points of all rows as doubles in the order of the
    snapshot, the zero and negative ones included, is less than the
    requested amount. That balance is the sum of the points of all rows
    whenever their magnitudes add up to less than 2^53. On the ledger
    [overdrawn] (a grant of 100 and a grant of -50) a request for 80 is
    thus rejected although the rows that hold points hold 100. *)
Theorem spend_rejected_iff_total_short :
  (forall n s, n <> 0 -> reliable s ->
     (fst (post_spend (mkSpendBody (Some n)) s) = not_enough
      <-> totalBalance (order_by_timestamp (table s)) < n)
     /\ (magnitude (table s) < Js.limit ->
         totalBalance (order_by_timestamp (table s)) = total (table s)
         /\ (fst (post_spend (mkSpendBody (Some n)) s) = not_enough
             <-> total (table s) < n)))
  /\ (exists g, In g (table overdrawn) /\ Grant.points g < 0)
  /\ magnitude (table overdrawn) < Js.limit
  /\ 80 <= available (table overdrawn)
  /\ post_spend (mkSpendBody (Some 80)) overdrawn = (not_enough, overdrawn).
Proof.
  split; [|split; [|split; [|split]]].
  - intros n s Hn Hs.
    assert (Hiff : fst (post_spend (mkSpendBody (Some n)) s) = not_enough
                   <-> totalBalance (order_by_timestamp (table s)) < n).
    { rewrite post_spend_reliable by assumption.
      destruct (totalBalance (order_by_timestamp (table s)) <? n)%Z eqn:E; simpl.
      - apply Z.ltb_lt in E. split; auto.
      - apply Z.ltb_ge in E. split; [discriminate | lia]. }
    split; [exact Hiff|]. intro Hm.
    split; [apply totalBalance_snapshot; exact Hm|].
    rewrite <- (totalBalance_snapshot _ Hm). exact Hiff.
  - exists (Grant.make 2 "UNILEVER" (-50) t2). split; [|simpl; lia].
    vm_compute. right; left; reflexivity.
  - vm_compute. reflexivity.
  - vm_compute. discriminate.
  - reflexivity.
Qed.

Lemma spend_rejected_iff_total_short_witness :
  fst (post_spend (mkSpendBody (Some 150)) scenario2) = not_enough
  /\ totalBalance (order_by_timestamp (table scenario2)) = total (table scenario2).
Proof.
  destruct spend_rejected_iff_total_short as [Hiff _].
  destruct (Hiff 150 scenario2) as [_ Hexact].
  - lia.
  - reflexivity.
  - destruct Hexact as [Hsum [_ Hback]].
    + vm_compute. reflexivity.
    + split; [|exact Hsum]. apply Hback. vm_compute. reflexivity.
Defined.

(** ** [/add] *)

Lemma next_id_above (t : list Grant.t) (g : Grant.t) :
  In g t -> Grant.id g < next_id t.
Proof.
  unfold next_id. induction t as [|h rest IH]; cbn [In map fold_right]; [contradiction|].
  intros [->|Hin]; [lia|]. specialize (IH Hin). lia.
Qed.

Lemma next_id_fresh (t : list Grant.t) : ~ In (next_id t) (map Grant.id t).
Proof.
  intro Hin. apply in_map_iff in Hin. destruct Hin as (g & Hid & Hg).
  apply next_id_above in Hg. lia.
Qed.

Lemma truthy_string_none (x : option string) :
  truthy_string x = None <-> lacking_string x.
Proof.
  unfold lacking_string. destruct x as [s|]; simpl; [|tauto].
  destruct (String.eqb_spec s "") as [->|Hne]; split; auto; try discriminate.
  intros [H|H]; [discriminate | inversion H; contradiction].
Qed.

Lemma truthy_number_none (x : option Z) :
  truthy_number x = None <-> lacking_number x.
Proof.
  unfold lacking_number. destruct x as [n|]; simpl; [|tauto].
  destruct (Z.eqb_spec n 0) as [->|Hne]; split; auto; try discriminate.
  intros [H|H]; [discriminate | inversion H; contradiction].
Qed.

Lemma truthy_string_some (x : option string) (s : string) :
  truthy_string x = Some s -> x = Some s.
Proof.
  destruct x as [s'|]; simpl; [|discriminate].
  destruct (s' =? ""); [discriminate|]. auto.
Qed.

Lemma truthy_number_some (x : option Z) (n : Z) :
  truthy_number x = Some n -> x = Some n.
Proof.
  destruct x as [n'|]; simpl; [|discriminate].
  destruct (n' =? 0)%Z; [discriminate|]. auto.
Qed.

(** C8. [/add] answers a request that lacks its payer, its points or its
    timestamp (a field is lacking when it is absent or falsy: the empty
    string, the number 0) with a 400 whose message names the first such
    field, and makes no call to the driver. In particular points of exactly
    0 get the answer of absent points. Any other request, on a reliable
    driver, appends one row holding the three fields under the id the
    store assigns, an id no row had, and is answered 200 with that id. *)
Theorem add_contract (req : AddBody) (s : Store) :
  (lacking_string (add_payer req) ->
     post_add req s = (must_specify_payer, s))
  /\ (~ lacking_string (add_payer req) -> lacking_number (add_points req) ->
     post_add req s = (must_specify_points_to_add, s))
  /\ (~ lacking_string (add_payer req) -> add_points req = Some 0 ->
     post_add req s = (must_specify_points_to_add, s)
     /\ post_add req s
        = post_add (mkAddBody (add_payer req) None (add_timestamp req)) s)
  /\ (~ lacking_string (add_payer req) -> ~ lacking_number (add_points req) ->
     lacking_string (add_timestamp req) ->
     post_add req s = (must_specify_timestamp, s))
  /\ (~ lacking_string (add_payer req) -> ~ lacking_number (add_points req) ->
     ~ lacking_string (add_timestamp req) ->
     reliable s ->
     exists p n ts,
       req = mkAddBody (Some p) (Some n) (Some ts)
       /\ post_add req s =
            (successfully_added (next_id (table s)),
             mkStore (table s ++ [Grant.make (next_id (table s)) p n ts]) [])
       /\ ~ In (next_id (table s)) (map Grant.id (table s))).
Proof.
  destruct req as [p n ts]. cbn [add_payer add_points add_timestamp].
  rewrite <- !truthy_string_none, <- !truthy_number_none.
  unfold post_add. cbn [add_payer add_points add_timestamp].
  split; [intros ->; reflexivity|].
  split; [intros Hp ->; destruct (truthy_string p); [reflexivity | contradiction]|].
  split.
  { intros Hp ->. simpl. destruct (truthy_string p); [split; reflexivity | contradiction]. }
  split.
  { intros Hp Hn ->.
    destruct (truthy_string p); [|contradiction].
    destruct (truthy_number n); [reflexivity | contradiction]. }
  intros Hp Hn Hts Hs.
  destruct (truthy_string p) as [p'|] eqn:Ep; [|contradiction].
  destruct (truthy_number n) as [n'|] eqn:En; [|contradiction].
  destruct (truthy_string ts) as [ts'|] eqn:Ets; [|contradiction].
  apply truthy_string_some in Ep, Ets. apply truthy_number_some in En. subst.
  exists p', n', ts'. split; [reflexivity|]. split; [|apply next_id_fresh].
  unfold try_catch, bind, INSERT_POINTS.
  rewrite driver_reliable by assumption. reflexivity.
Qed.

Lemma add_contract_witness :
  post_add (mkAddBody (Some "DANNON") (Some 0) (Some t1)) scenario2
    = (must_specify_points_to_add, scenario2)
  /\ post_add (mkAddBody None (Some 5) (Some t1)) scenario2
    = (must_specify_payer, scenario2)
  /\ post_add (mkAddBody (Some "DANNON") (Some 5) None) scenario2
    = (must_specify_timestamp, scenario2)
  /\ exists p n ts,
       mkAddBody (Some "UNILEVER") (Some 200) (Some t2)
         = mkAddBody (Some p) (Some n) (Some ts)
       /\ post_add (mkAddBody (Some "UNILEVER") (Some 200) (Some t2)) scenario2 =
            (successfully_added (next_id (table scenario2)),
             mkStore (table scenario2
                        ++ [Grant.make (next_id (table scenario2)) p n ts]) [])
       /\ ~ In (next_id (table scenario2)) (map Grant.id (table scenario2)).
Proof.
  split; [|split; [|split]].
  - destruct (add_contract (mkAddBody (Some "DANNON") (Some 0) (Some t1)) scenario2)
      as (_ & H & _).
    apply H; [present | right; reflexivity].
  - destruct (add_contract (mkAddBody None (Some 5) (Some t1)) scenario2)
      as (H & _).
    apply H. left; reflexivity.
  - destruct (add_contract (mkAddBody (Some "DANNON") (Some 5) None) scenario2)
      as (_ & _ & _ & H & _).
    apply H; [present | present | left; reflexivity].
  - destruct (add_contract (mkAddBody (Some "UNILEVER") (Some 200) (Some t2)) scenario2)
      as (_ & _ & _ & _ & H).
    apply H; [present | present | present | reflexivity].
Defined.

(** ** The plan of a spend *)

Lemma plan_in (rows : list Grant.t) :
  forall n g d,
    In (g, d) (plan rows n) ->
    In g rows /\ 0 < d /\ d <= Grant.points g.
Proof.
  induction rows as [|data rest IH]; intros n g d; simpl; [contradiction|].
  destruct (n <=? 0)%Z eqn:En; [contradiction|]. apply Z.leb_gt in En.
  destruct (0 <? Grant.points data)%Z eqn:Ep.
  - apply Z.ltb_lt in Ep. intros [Heq|Hin].
    + inversion Heq; subst. repeat split; auto; lia.
    + destruct (IH _ _ _ Hin) as (H1 & H2 & H3). repeat split; auto.
  - intro Hin. destruct (IH _ _ _ Hin) as (H1 & H2 & H3). repeat split; auto.
Qed.

Lemma plan_positive (rows : list Grant.t) (n : Z) :
  Forall (fun gd => 0 < snd gd) (plan rows n).
Proof.
  apply Forall_forall. intros [g d] Hin. apply plan_in in Hin. simpl. tauto.
Qed.

Lemma plan_ids_incl (rows : list Grant.t) (n i : Z) :
  In i (map (fun gd => Grant.id (fst gd)) (plan rows n)) ->
  In i (map Grant.id rows).
Proof.
  intro Hin. apply in_map_iff in Hin. destruct Hin as ([g d] & Hi & Hgd).
  apply plan_in in Hgd. simpl in Hi. subst i.
  apply in_map; tauto.
Qed.

Lemma plan_unique_ids (rows : list Grant.t) :
  forall n,
    unique_ids rows ->
    NoDup (map (fun gd => Grant.id (fst gd)) (plan rows n)).
Proof.
  unfold unique_ids.
  induction rows as [|data rest IH]; intros n Hnd; simpl; [constructor|].
  inversion Hnd as [|? ? Hnot Hrest]; subst.
  destruct (n <=? 0)%Z; [constructor|].
  destruct (0 <? Grant.points data)%Z; [|apply IH; assumption].
  simpl. constructor; [|apply IH; assumption].
  intro Hin. apply Hnot. eapply plan_ids_incl; eassumption.
Qed.

Lemma available_nonneg (rows : list Grant.t) : 0 <= available rows.
Proof.
  unfold available. induction rows as [|g rest IH]; cbn [fold_right]; lia.
Qed.

(** As long as the amount is below 2^53 the counter of the loop is not
    rounded, and the loop takes all of the amount that the rows hold. *)
Lemma debited_plan (rows : list Grant.t) :
  forall n, 0 <= n < Js.limit -> debited (plan rows n) = Z.min n (available rows).
Proof.
  induction rows as [|data rest IH]; intros n Hn;
    cbn [plan available debited fold_right]; [lia|].
  fold (available rest).
  pose proof (available_nonneg rest).
  destruct (n <=? 0)%Z eqn:En.
  - apply Z.leb_le in En. cbn [debited fold_right]. lia.
  - apply Z.leb_gt in En.
    destruct (0 <? Grant.points data)%Z eqn:Ep.
    + apply Z.ltb_lt in Ep. cbn [debited fold_right snd].
      rewrite (round_exact (n - Z.min n (Grant.points data))) by lia.
      fold (debited (plan rest (n - Z.min n (Grant.points data)))).
      rewrite IH by lia. lia.
    + apply Z.ltb_ge in Ep. rewrite IH by lia. lia.
Qed.

Lemma remaining_exact (rows : list Grant.t) :
  forall n, 0 <= n < Js.limit -> remaining rows n = n - debited (plan rows n).
Proof.
  induction rows as [|data rest IH]; intros n Hn; cbn [plan remaining].
  - change (debited []) with 0. lia.
  - destruct (n <=? 0)%Z eqn:En; [change (debited []) with 0; lia|].
    apply Z.leb_gt in En.
    destruct (0 <? Grant.points data)%Z eqn:Ep; [|apply IH; exact Hn].
    apply Z.ltb_lt in Ep.
    rewrite (round_exact (n - Z.min n (Grant.points data))) by lia.
    rewrite IH by lia.
    change (debited ((data, Z.min n (Grant.points data))
              :: plan rest (n - Z.min n (Grant.points data))))
      with (Z.min n (Grant.points data)
            + debited (plan rest (n - Z.min n (Grant.points data)))).
    lia.
Qed.

Lemma debited_app (pl pl' : list (Grant.t * Z)) :
  debited (pl ++ pl') = debited pl + debited pl'.
Proof.
  unfold debited. induction pl as [|gd rest IH]; cbn [app fold_right]; lia.
Qed.

Lemma plan_app (before after : list Grant.t) :
  forall n,
    plan (before ++ after) n =
      plan before n ++ plan after (remaining before n).
Proof.
  induction before as [|data rest IH]; intro n; cbn [plan remaining app].
  - reflexivity.
  - destruct (n <=? 0)%Z eqn:En.
    + rewrite plan_nonpositive; [reflexivity|]. apply Z.leb_le in En. exact En.
    + destruct (0 <? Grant.points data)%Z.
      * cbn [app]. rewrite IH. reflexivity.
      * apply IH.
Qed.

(** ** Applying a plan to the table *)

Lemma apply_debit_ids (t : list Grant.t) (gd : Grant.t * Z) :
  map Grant.id (apply_debit t gd) = map Grant.id t.
Proof.
  unfold apply_debit. rewrite map_map. apply map_ext.
  intro r. unfold set_points. destruct (Grant.id r =? Grant.id (fst gd))%Z; reflexivity.
Qed.

Lemma set_points_other (n i : Z) (l : list Grant.t) :
  ~ In i (map Grant.id l) -> map (set_points n i) l = l.
Proof.
  induction l as [|r rest IH]; simpl; intro Hnot; [reflexivity|].
  rewrite IH by tauto. unfold set_points.
  destruct (Grant.id r =? i)%Z eqn:E; [|reflexivity].
  apply Z.eqb_eq in E. tauto.
Qed.

Lemma apply_debit_split (t : list Grant.t) (g : Grant.t) (d : Z) :
  unique_ids t -> In g t ->
  exists t1 t2,
    t = t1 ++ g :: t2
    /\ apply_debit t (g, d)
       = t1 ++ with_points g (Js.round (Grant.points g - d)) :: t2.
Proof.
  unfold unique_ids. intros Hnd Hin.
  destruct (in_split _ _ Hin) as (t1 & t2 & ->).
  exists t1, t2. split; [reflexivity|].
  rewrite map_app in Hnd. simpl in Hnd.
  pose proof (NoDup_remove_2 _ _ _ Hnd) as Hnot.
  unfold apply_debit. simpl. rewrite map_app. simpl.
  rewrite !set_points_other.
  - unfold set_points. rewrite Z.eqb_refl. reflexivity.
  - intro H. apply Hnot. apply in_or_app; right; exact H.
  - intro H. apply Hnot. apply in_or_app; left; exact H.
Qed.

Lemma unique_ids_same (t : list Grant.t) (a b : Grant.t) :
  unique_ids t -> In a t -> In b t -> Grant.id a = Grant.id b -> a = b.
Proof.
  unfold unique_ids. induction t as [|r rest IH]; simpl; [contradiction|].
  intros Hnd Ha Hb Hid. inversion Hnd as [|? ? Hnot Hrest]; subst.
  destruct Ha as [->|Ha], Hb as [->|Hb]; auto.
  - exfalso. apply Hnot. rewrite Hid. apply in_map; assumption.
  - exfalso. apply Hnot. rewrite <- Hid. apply in_map; assumption.
Qed.

Lemma applicable_step (gd : Grant.t * Z) (pl : list (Grant.t * Z)) (t : list Grant.t) :
  applicable (gd :: pl) t -> applicable pl (apply_debit t gd).
Proof.
  intros (Hu & Hnd & Hall). simpl in Hnd.
  inversion Hnd as [|? ? Hnot Hrest]; subst.
  inversion Hall as [|? ? [Hg Hd] Hpl]; subst.
  split; [|split].
  - unfold unique_ids. rewrite apply_debit_ids. exact Hu.
  - exact Hrest.
  - rewrite Forall_forall in *. intros [g' d'] Hin.
    destruct (Hpl _ Hin) as [Hg' Hd']. split; [|exact Hd']. simpl in *.
    destruct gd as [g d]. simpl in *.
    destruct (apply_debit_split t g d Hu Hg) as (t1 & t2 & Ht & ->).
    subst t. apply in_app_or in Hg'. apply in_or_app.
    destruct Hg' as [H|[H|H]]; [left; exact H | | right; right; exact H].
    exfalso. apply Hnot. subst g'.
    change (Grant.id g) with (Grant.id (fst (g, d'))).
    apply (in_map (fun gd => Grant.id (fst gd))). exact Hin.
Qed.

Lemma applicable_prefix (done todo : list (Grant.t * Z)) (t : list Grant.t) :
  applicable (done ++ todo) t -> applicable done t.
Proof.
  intros (Hu & Hnd & Hall). split; [exact Hu|split].
  - rewrite map_app in Hnd. eapply NoDup_app_remove_r. exact Hnd.
  - apply Forall_app in Hall. tauto.
Qed.

Lemma applicable_plan (rows t : list Grant.t) (n : Z) :
  unique_ids t -> Permutation rows t -> applicable (plan rows n) t.
Proof.
  intros Hu Hperm. split; [exact Hu|split].
  - apply plan_unique_ids. unfold unique_ids in *.
    eapply Permutation_NoDup; [|exact Hu].
    apply Permutation_map, Permutation_sym, Hperm.
  - apply Forall_forall. intros [g d] Hin. apply plan_in in Hin. simpl.
    destruct Hin as (Hg & Hd & Hle).
    split; [eapply Permutation_in; eassumption | lia].
Qed.

Lemma shrinks_refl (t : list Grant.t) : Forall2 shrinks t t.
Proof. induction t; constructor; auto. left; reflexivity. Qed.

Lemma shrinks_trans (a b c : Grant.t) : shrinks a b -> shrinks b c -> shrinks a c.
Proof.
  unfold shrinks, with_points.
  intros [->|[Hb Hab]] [->|[Hc Hbc]]; auto.
  right. split; [|lia]. rewrite Hc. rewrite Hb. simpl. reflexivity.
Qed.

Lemma Forall2_shrinks_trans (t1 t2 t3 : list Grant.t) :
  Forall2 shrinks t1 t2 -> Forall2 shrinks t2 t3 -> Forall2 shrinks t1 t3.
Proof.
  intro H. revert t3. induction H; intros t3 H'; inversion H'; subst; constructor.
  - eapply shrinks_trans; eassumption.
  - auto.
Qed.

Lemma with_points_same (g : Grant.t) : with_points g (Grant.points g) = g.
Proof. destruct g; reflexivity. Qed.

(** The number written for a row that holds a number is no larger than
    the number it replaces; it is the same one when the difference rounds
    back to it. *)
Lemma apply_debit_shrinks (t : list Grant.t) (g : Grant.t) (d : Z) :
  unique_ids t -> In g t -> 0 < d <= Grant.points g ->
  Js.is_number (Grant.points g) ->
  Forall2 shrinks t (apply_debit t (g, d)).
Proof.
  intros Hu Hg Hd Hnum.
  destruct (apply_debit_split t g d Hu Hg) as (t1 & t2 & -> & ->).
  apply Forall2_app; [apply shrinks_refl|].
  constructor; [|apply shrinks_refl].
  destruct (round_debit _ _ Hnum Hd) as [Hrange _].
  destruct (Z.eq_dec (Js.round (Grant.points g - d)) (Grant.points g)) as [E|Hne].
  - left. rewrite E. apply with_points_same.
  - right. unfold with_points; simpl. split; [reflexivity | lia].
Qed.

Lemma apply_debit_numbers (t : list Grant.t) (gd : Grant.t * Z) :
  numbers t -> numbers (apply_debit t gd).
Proof.
  unfold numbers, apply_debit. intro H. apply Forall_map.
  eapply Forall_impl; [|exact H]. intros r Hr. unfold set_points.
  destruct (Grant.id r =? Grant.id (fst gd))%Z; [|exact Hr].
  apply round_is_number.
Qed.

Lemma plan_numbers (pl : list (Grant.t * Z)) :
  forall t, numbers t -> numbers (fold_left apply_debit pl t).
Proof.
  induction pl as [|gd rest IH]; intros t Ht; simpl; [exact Ht|].
  apply IH. apply apply_debit_numbers. exact Ht.
Qed.

Lemma plan_shrinks (pl : list (Grant.t * Z)) :
  forall t,
    applicable pl t -> numbers t -> Forall2 shrinks t (fold_left apply_debit pl t).
Proof.
  induction pl as [|[g d] rest IH]; intros t Happ Hnum; simpl.
  - apply shrinks_refl.
  - pose proof Happ as (Hu & _ & Hall).
    inversion Hall as [|? ? [Hg Hd] _]; subst. simpl in *.
    eapply Forall2_shrinks_trans.
    + apply apply_debit_shrinks; try eassumption.
      unfold numbers in Hnum. rewrite Forall_forall in Hnum. apply Hnum. exact Hg.
    + apply IH; [apply applicable_step; exact Happ|].
      apply apply_debit_numbers. exact Hnum.
Qed.

(** ** What each handler does to the table, whatever the driver does *)

Lemma spend_loop_table (rows : list Grant.t) :
  forall n sm s,
  exists done todo,
    plan rows n = done ++ todo
    /\ table (snd (spend_loop rows n sm s)) = fold_left apply_debit done (table s).
Proof.
  induction rows as [|data rest IH]; intros n sm s; simpl.
  - exists [], []. split; reflexivity.
  - destruct (n <=? 0)%Z.
    + exists [], []. split; reflexivity.
    + destruct (0 <? Grant.points data)%Z; [|apply IH].
      set (d := Z.min n (Grant.points data)).
      unfold bind, UPDATE_POINTS, driver.
      destruct (faults s) as [|[|] later]; simpl.
      * destruct (IH (Js.round (n - d)) (summarise sm (Grant.payer data) d)
                    (mkStore (map (set_points (Js.round (Grant.points data - d))
                                              (Grant.id data))
                                (table s)) []))
          as (done & todo & Hplan & Htable).
        exists ((data, d) :: done), todo. split; [simpl; f_equal; exact Hplan|].
        exact Htable.
      * exists [], ((data, d) :: plan rest (Js.round (n - d))). split; reflexivity.
      * destruct (IH (Js.round (n - d)) (summarise sm (Grant.payer data) d)
                    (mkStore (map (set_points (Js.round (Grant.points data - d))
                                              (Grant.id data))
                                (table s)) later))
          as (done & todo & Hplan & Htable).
        exists ((data, d) :: done), todo. split; [simpl; f_equal; exact Hplan|].
        exact Htable.
Qed.

Lemma post_spend_table (b : SpendBody) (s : Store) :
  unique_ids (table s) ->
  exists pl,
    applicable pl (table s)
    /\ table (snd (post_spend b s)) = fold_left apply_debit pl (table s).
Proof.
  intro Hu.
  assert (Hnil : applicable [] (table s)).
  { split; [exact Hu|split; constructor]. }
  destruct b as [[n|]]; unfold post_spend; simpl;
    [|exists []; split; [exact Hnil | reflexivity]].
  destruct (n =? 0)%Z; [exists []; split; [exact Hnil | reflexivity]|].
  unfold try_catch, bind, GET_POINTS, driver.
  destruct (faults s) as [|[|] later]; simpl;
    try (exists []; split; [exact Hnil | reflexivity]).
  - destruct (totalBalance (order_by_timestamp (table s)) <? n)%Z;
      [exists []; split; [exact Hnil | reflexivity]|].
    destruct (spend_loop_table (order_by_timestamp (table s)) n Js.empty
                (mkStore (table s) [])) as (done & todo & Hplan & Htable).
    exists done. split.
    + apply applicable_prefix with (todo := todo). rewrite <- Hplan.
      apply applicable_plan; [exact Hu | apply order_by_timestamp_perm].
    + destruct (spend_loop (order_by_timestamp (table s)) n Js.empty
                  (mkStore (table s) [])) as [[a|] s']; exact Htable.
  - destruct (totalBalance (order_by_timestamp (table s)) <? n)%Z;
      [exists []; split; [exact Hnil | reflexivity]|].
    destruct (spend_loop_table (order_by_timestamp (table s)) n Js.empty
                (mkStore (table s) later)) as (done & todo & Hplan & Htable).
    exists done. split.
    + apply applicable_prefix with (todo := todo). rewrite <- Hplan.
      apply applicable_plan; [exact Hu | apply order_by_timestamp_perm].
    + destruct (spend_loop (order_by_timestamp (table s)) n Js.empty
                  (mkStore (table s) later)) as [[a|] s']; exact Htable.
Qed.

Lemma post_add_table (b : AddBody) (s : Store) :
  table (snd (post_add b s)) = table s
  \/ exists p n ts,
       b = mkAddBody (Some p) (Some n) (Some ts)
       /\ table (snd (post_add b s))
          = table s ++ [Grant.make (next_id (table s)) p n ts].
Proof.
  destruct b as [[p|] [n|] [ts|]]; unfold post_add; simpl;
    repeat match goal with
           | |- context [if ?c then _ else _] => destruct c; simpl; auto
           end; auto.
  unfold try_catch, bind, INSERT_POINTS, driver.
  destruct (faults s) as [|[|] later]; simpl; auto;
    right; exists p, n, ts; split; reflexivity.
Qed.

Lemma get_balance_table (s : Store) : table (snd (get_balance s)) = table s.
Proof.
  unfold get_balance, try_catch, bind, GET_POINTS, driver.
  destruct (faults s) as [|[|] later]; reflexivity.
Qed.

Lemma fold_apply_debit_ids (pl : list (Grant.t * Z)) :
  forall t, map Grant.id (fold_left apply_debit pl t) = map Grant.id t.
Proof.
  induction pl as [|gd rest IH]; intro t; simpl; [reflexivity|].
  rewrite IH. apply apply_debit_ids.
Qed.

Lemma shrinks_never_negative (t t' : list Grant.t) :
  Forall2 shrinks t t' -> never_negative t -> never_negative t'.
Proof.
  unfold never_negative.
  induction 1 as [|g g' t t' Hg _ IH]; intro Hall; [constructor|].
  inversion Hall; subst. constructor; [|apply IH; assumption].
  destruct Hg as [->|[_ Hg]]; lia.
Qed.

Lemma NoDup_snoc {A} (l : list A) (x : A) :
  NoDup l -> ~ In x l -> NoDup (l ++ [x]).
Proof.
  induction l as [|a l IH]; simpl; intros Hnd Hnot.
  - constructor; [tauto | constructor].
  - inversion Hnd; subst. constructor.
    + intro Hin. apply in_app_or in Hin. simpl in Hin.
      destruct Hin as [Hin|[Hin|[]]]; [tauto|]. subst. tauto.
    + apply IH; tauto.
Qed.

(** What [/add] stores is the number the body parser has made of the
    points of the request. *)
Lemma parse_add_points (b : AddBody) (p : string) (n : Z) (ts : string) :
  parse_add b = mkAddBody (Some p) (Some n) (Some ts) ->
  exists n0, add_points b = Some n0 /\ n = Js.round n0.
Proof.
  destruct b as [bp [n0|] bts]; unfold parse_add; simpl; intro H;
    inversion H; subst. exists n0. split; reflexivity.
Qed.

(** The three facts every request preserves. *)
Lemma serve_invariant (s : Store) (r : Request) :
  no_negative_grant r ->
  unique_ids (table s) /\ never_negative (table s) /\ numbers (table s) ->
  unique_ids (table (serve s r)) /\ never_negative (table (serve s r))
  /\ numbers (table (serve s r)).
Proof.
  intros Hr (Hu & Hn & Hnum). destruct r as [b|b|]; unfold serve; cbn [handle].
  - destruct (post_add_table (parse_add b) s) as [->|(p & n & ts & Hb & ->)]; [tauto|].
    destruct (parse_add_points _ _ _ _ Hb) as (n0 & Hn0 & ->).
    simpl in Hr. rewrite Hn0 in Hr.
    split; [|split].
    + unfold unique_ids. rewrite map_app. simpl.
      apply NoDup_snoc; [exact Hu | apply next_id_fresh].
    + apply Forall_app. split; [exact Hn|]. constructor; [|constructor].
      simpl. apply round_nonneg. exact Hr.
    + apply Forall_app. split; [exact Hnum|]. constructor; [|constructor].
      simpl. apply round_is_number.
  - destruct (post_spend_table (parse_spend b) s Hu) as (pl & Happ & ->).
    split; [|split].
    + unfold unique_ids. rewrite fold_apply_debit_ids. exact Hu.
    + eapply shrinks_never_negative; [apply plan_shrinks; assumption | exact Hn].
    + apply plan_numbers. exact Hnum.
  - rewrite get_balance_table. tauto.
Qed.

Lemma run_snoc (rs : list Request) (r : Request) (s : Store) :
  run (rs ++ [r]) s = serve (run rs s) r.
Proof. unfold run. rewrite fold_left_app. reflexivity. Qed.

Lemma run_invariant (rs : list Request) (fs : list bool) :
  Forall no_negative_grant rs ->
  unique_ids (table (run rs (empty_ledger fs)))
  /\ never_negative (table (run rs (empty_ledger fs)))
  /\ numbers (table (run rs (empty_ledger fs))).
Proof.
  induction rs as [|r rs IH] using rev_ind; intro Hall.
  - simpl. repeat split; constructor.
  - apply Forall_app in Hall. destruct Hall as [Hrs Hr].
    inversion Hr; subst. rewrite run_snoc.
    apply serve_invariant; auto.
Qed.

(** C4, as stated, fails: [/add] stores the points it is given, sign
    included, so a grant can be negative right after the request that
    creates it. *)
Lemma negative_grant_recorded :
  exists g,
    In g (table (run [grant_request "DANNON" (-5) t1] (empty_ledger [])))
    /\ Grant.points g < 0.
Proof.
  exists (Grant.make 1 "DANNON" (-5) t1). split; [left; reflexivity | simpl; lia].
Qed.

(** C4, amended. Start from the empty ledger and serve any sequence of
    [/add], [/spend] and [/balance] requests in which no [/add] grants a
    negative number of points, under any behaviour of the driver. After
    each request no row holds negative points. Moreover [/add] leaves the
    rows in place and at most appends one, [/balance] changes nothing, and
    [/spend] leaves each row either as it was or with the same id, payer
    and timestamp and strictly fewer points, never below zero. *)
Theorem points_never_negative (rs : list Request) (r : Request) (fs : list bool) :
  Forall no_negative_grant (rs ++ [r]) ->
  never_negative (table (serve (run rs (empty_ledger fs)) r))
  /\ match r with
     | Add _ =>
         table (serve (run rs (empty_ledger fs)) r) = table (run rs (empty_ledger fs))
         \/ exists g,
              table (serve (run rs (empty_ledger fs)) r)
              = table (run rs (empty_ledger fs)) ++ [g]
     | Spend _ =>
         Forall2 shrinks (table (run rs (empty_ledger fs)))
                         (table (serve (run rs (empty_ledger fs)) r))
     | Balance =>
         table (serve (run rs (empty_ledger fs)) r) = table (run rs (empty_ledger fs))
     end.
Proof.
  intro Hall. apply Forall_app in Hall. destruct Hall as [Hrs Hr].
  inversion Hr as [|? ? Hr' _]; subst.
  pose proof (run_invariant rs fs Hrs) as (Hu & Hn & Hnum).
  split.
  - apply serve_invariant; auto.
  - destruct r as [b|b|]; unfold serve; cbn [handle].
    + destruct (post_add_table (parse_add b) (run rs (empty_ledger fs)))
        as [->|(p & n & ts & _ & ->)]; [left; reflexivity|].
      right. eexists; reflexivity.
    + destruct (post_spend_table (parse_spend b) _ Hu) as (pl & Happ & ->).
      apply plan_shrinks; assumption.
    + apply get_balance_table.
Qed.

Lemma points_never_negative_witness :
  never_negative
    (table (serve (run [grant_request "DANNON" 300 t1; Balance;
                        grant_request "UNILEVER" 200 t2]
                       (empty_ledger [false; false; true]))
                  (spend_request 400)))
  /\ Forall2 shrinks
       (table (run [grant_request "DANNON" 300 t1; Balance;
                    grant_request "UNILEVER" 200 t2]
                   (empty_ledger [false; false; true])))
       (table (serve (run [grant_request "DANNON" 300 t1; Balance;
                           grant_request "UNILEVER" 200 t2]
                          (empty_ledger [false; false; true]))
                     (spend_request 400))).
Proof.
  apply (points_never_negative
           [grant_request "DANNON" 300 t1; Balance; grant_request "UNILEVER" 200 t2]
           (spend_request 400) [false; false; true]).
  repeat constructor; simpl; lia.
Defined.

(** ** Oldest first *)

Lemma debited_cons (g : Grant.t) (d : Z) (pl : list (Grant.t * Z)) :
  debited ((g, d) :: pl) = d + debited pl.
Proof. reflexivity. Qed.

Lemma sorted_middle (before after : list Grant.t) (b : Grant.t) :
  StronglySorted ts_le (before ++ b :: after) -> Forall (ts_le b) after.
Proof.
  induction before as [|x before IH]; simpl; intro Hs.
  - inversion Hs; assumption.
  - inversion Hs; subst. apply IH; assumption.
Qed.

Lemma plan_exhausts (before : list Grant.t) :
  forall n a,
    In a before -> 0 < Grant.points a ->
    remaining before n <= 0 \/ In (a, Grant.points a) (plan before n).
Proof.
  induction before as [|data rest IH]; intros n a Hin Hpos; [contradiction|].
  cbn [plan remaining].
  destruct (n <=? 0)%Z eqn:En.
  - apply Z.leb_le in En. left. exact En.
  - apply Z.leb_gt in En. destruct Hin as [->|Hin].
    + assert (Ea : (0 <? Grant.points a)%Z = true) by (apply Z.ltb_lt; exact Hpos).
      rewrite Ea.
      destruct (Z_le_gt_dec (Grant.points a) n) as [Hle|Hgt].
      * right. left. f_equal. lia.
      * left. replace (Z.min n (Grant.points a)) with n by lia.
        rewrite Z.sub_diag, round_0.
        rewrite remaining_nonpositive by lia. lia.
    + destruct (0 <? Grant.points data)%Z.
      * destruct (IH (Js.round (n - Z.min n (Grant.points data))) a Hin Hpos)
          as [H|H].
        -- left. exact H.
        -- right. right. exact H.
      * apply IH; assumption.
Qed.

Lemma apply_debit_frame (t : list Grant.t) (gd : Grant.t * Z) (r : Grant.t) :
  In r t -> Grant.id r <> Grant.id (fst gd) -> In r (apply_debit t gd).
Proof.
  intros Hin Hid. unfold apply_debit.
  replace r with (set_points (Js.round (Grant.points (fst gd) - snd gd))
                             (Grant.id (fst gd)) r).
  - apply in_map. exact Hin.
  - unfold set_points. destruct (Grant.id r =? Grant.id (fst gd))%Z eqn:E; [|reflexivity].
    apply Z.eqb_eq in E. contradiction.
Qed.

Lemma plan_frame (pl : list (Grant.t * Z)) :
  forall t r,
    In r t -> ~ In (Grant.id r) (map (fun gd => Grant.id (fst gd)) pl) ->
    In r (fold_left apply_debit pl t).
Proof.
  induction pl as [|gd rest IH]; intros t r Hin Hnot; simpl; [exact Hin|].
  simpl in Hnot. apply IH; [|tauto].
  apply apply_debit_frame; [exact Hin|]. intro H. apply Hnot. left. symmetry. exact H.
Qed.

Lemma plan_applied (pl : list (Grant.t * Z)) :
  forall t g d,
    applicable pl t -> In (g, d) pl ->
    In (with_points g (Js.round (Grant.points g - d))) (fold_left apply_debit pl t).
Proof.
  induction pl as [|[g0 d0] rest IH]; intros t g d Happ Hin; [contradiction|].
  simpl. destruct Hin as [Heq|Hin].
  - inversion Heq; subst g0 d0.
    destruct Happ as (Hu & Hnd & Hall).
    inversion Hall as [|? ? [Hg _] _]; subst. simpl in Hg.
    inversion Hnd as [|? ? Hnot _]; subst. simpl in Hnot.
    apply plan_frame; [|exact Hnot].
    destruct (apply_debit_split t g d Hu Hg) as (t1 & t2 & _ & ->).
    apply in_or_app. right. left. reflexivity.
  - apply IH; [apply applicable_step with (gd := (g0, d0)); exact Happ | exact Hin].
Qed.

Lemma string_ltb_irrefl (a : string) : String.ltb a a = true -> False.
Proof.
  intro H. apply (string_ltb_not_leb a a H).
  apply string_leb_iff. left; reflexivity.
Qed.

(** C3. Let a [/spend] be answered 200 on a reliable driver, and let [A]
    and [B] be rows that hold points, [A] with the smaller timestamp;
    payers play no part. The snapshot lists [A] before [B]. When the loop
    reaches [B], the row [B] is still untouched in the table, and either
    nothing remains to be spent, in which case the loop stops there and [B] is
    never debited, or the row [A] already holds 0 points. The run of the
    loop from that point on is the rest of the handler's run. *)
Theorem oldest_first (s : Store) (n : Z) (A B : Grant.t) :
  reliable s -> unique_ids (table s) ->
  status (fst (post_spend (mkSpendBody (Some n)) s)) = 200 ->
  In A (table s) -> In B (table s) -> ts_lt A B ->
  0 < Grant.points A -> 0 < Grant.points B ->
  exists before after points_left sm mid final s_end,
    StronglySorted ts_le (order_by_timestamp (table s))
    /\ order_by_timestamp (table s) = before ++ B :: after
    /\ In A before
    /\ spend_loop before n Js.empty s = (Returned (points_left, sm), mid)
    /\ spend_loop (B :: after) points_left sm mid = (Returned final, s_end)
    /\ post_spend (mkSpendBody (Some n)) s
       = (mkResponse 200 (Spent (Js.entries (snd final))), s_end)
    /\ In B (table mid)
    /\ ((points_left <= 0 /\ s_end = mid) \/ In (with_points A 0) (table mid)).
Proof.
  intros Hs Hu Hok HA HB Hlt HposA HposB.
  assert (Hn : n <> 0).
  { intro E. subst n. unfold post_spend in Hok. simpl in Hok. discriminate. }
  rewrite post_spend_reliable in Hok |- * by assumption.
  destruct (totalBalance (order_by_timestamp (table s)) <? n)%Z;
    [simpl in Hok; discriminate|]. clear Hok.
  pose proof (order_by_timestamp_perm (table s)) as Hperm.
  pose proof (order_by_timestamp_sorted (table s)) as Hsorted.
  assert (HBs : In B (order_by_timestamp (table s)))
    by (eapply Permutation_in; [apply Permutation_sym; exact Hperm | exact HB]).
  assert (HAs : In A (order_by_timestamp (table s)))
    by (eapply Permutation_in; [apply Permutation_sym; exact Hperm | exact HA]).
  destruct (in_split _ _ HBs) as (before & after & Hsplit).
  assert (HAbefore : In A before).
  { rewrite Hsplit in HAs, Hsorted. apply in_app_or in HAs.
    destruct HAs as [H|[H|H]]; [exact H | |].
    - subst A. exfalso. eapply string_ltb_irrefl. exact Hlt.
    - exfalso. apply sorted_middle in Hsorted.
      rewrite Forall_forall in Hsorted. specialize (Hsorted A H).
      eapply string_ltb_not_leb; [exact Hlt | exact Hsorted]. }
  assert (Happ : applicable (plan before n) (table s)).
  { apply applicable_prefix
      with (todo := plan (B :: after) (remaining before n)).
    rewrite <- plan_app, <- Hsplit. apply applicable_plan; assumption. }
  assert (HidB : ~ In (Grant.id B) (map (fun gd => Grant.id (fst gd)) (plan before n))).
  { intro Hin. apply plan_ids_incl in Hin.
    assert (Hnd : NoDup (map Grant.id (before ++ B :: after))).
    { rewrite <- Hsplit. eapply Permutation_NoDup; [|exact Hu].
      apply Permutation_map, Permutation_sym, Hperm. }
    rewrite map_app in Hnd. simpl in Hnd.
    apply NoDup_remove_2 in Hnd. apply Hnd. apply in_or_app. left. exact Hin. }
  set (points_left := remaining before n).
  set (sm := fold_left note_debit (plan before n) Js.empty).
  set (mid := mkStore (fold_left apply_debit (plan before n) (table s)) []).
  set (pl := plan (B :: after) points_left).
  exists before, after, points_left, sm, mid,
    (remaining (B :: after) points_left, fold_left note_debit pl sm),
    (mkStore (fold_left apply_debit pl (table mid)) []).
  split; [exact Hsorted|]. split; [exact Hsplit|]. split; [exact HAbefore|].
  split; [apply spend_loop_reliable; exact Hs|].
  split; [apply spend_loop_reliable; reflexivity|].
  split.
  { cbv zeta. rewrite Hsplit, plan_app, !fold_left_app. reflexivity. }
  split; [apply plan_frame; assumption|].
  destruct (plan_exhausts before n A HAbefore HposA) as [Hdone|Hin].
  - left. split; [exact Hdone|].
    subst pl. rewrite plan_nonpositive by exact Hdone. reflexivity.
  - right. pose proof (plan_applied _ _ _ _ Happ Hin) as Hzero.
    rewrite Z.sub_diag, round_0 in Hzero. exact Hzero.
Qed.

Lemma oldest_first_witness :
  exists before after points_left sm mid final s_end,
    StronglySorted ts_le (order_by_timestamp (table scenario1))
    /\ order_by_timestamp (table scenario1)
       = before ++ Grant.make 4 "MILLER COORS" 10000 t25 :: after
    /\ In (Grant.make 1 "DANNON" 300 t1) before
    /\ spend_loop before 5000 Js.empty scenario1 = (Returned (points_left, sm), mid)
    /\ spend_loop (Grant.make 4 "MILLER COORS" 10000 t25 :: after) points_left sm mid
       = (Returned final, s_end)
    /\ post_spend (mkSpendBody (Some 5000)) scenario1
       = (mkResponse 200 (Spent (Js.entries (snd final))), s_end)
    /\ In (Grant.make 4 "MILLER COORS" 10000 t25) (table mid)
    /\ ((points_left <= 0 /\ s_end = mid)
        \/ In (with_points (Grant.make 1 "DANNON" 300 t1) 0) (table mid)).
Proof.
  apply (oldest_first scenario1 5000
           (Grant.make 1 "DANNON" 300 t1) (Grant.make 4 "MILLER COORS" 10000 t25)).
  - reflexivity.
  - unfold unique_ids. vm_compute.
    repeat constructor; simpl; intuition discriminate.
  - vm_compute. reflexivity.
  - vm_compute. tauto.
  - vm_compute. tauto.
  - reflexivity.
  - simpl. lia.
  - simpl. lia.
Defined.

(** ** Plain objects as payer-indexed maps *)

Lemma own_none (o : Js.object) (k : string) :
  Js.own o k = None <-> ~ In k (map fst o).
Proof.
  induction o as [|[k' v] rest IH]; simpl; [tauto|].
  destruct (String.eqb_spec k' k) as [->|Hne].
  - split; [discriminate | tauto].
  - rewrite IH. tauto.
Qed.

Lemma own_in (o : Js.object) (k : string) (v : Js.value) :
  Js.own o k = Some v -> In (k, v) o.
Proof.
  induction o as [|[k' v'] rest IH]; simpl; [discriminate|].
  destruct (String.eqb_spec k' k) as [->|Hne].
  - intro H; inversion H; subst. left; reflexivity.
  - intro H. right. apply IH. exact H.
Qed.

Lemma put_absent (o : Js.object) (k : string) (v : Js.value) :
  ~ In k (map fst o) -> Js.put o k v = o ++ [(k, v)].
Proof.
  induction o as [|[k' v'] rest IH]; simpl; intro Hnot; [reflexivity|].
  destruct (String.eqb_spec k' k) as [->|Hne]; [tauto|].
  rewrite IH by tauto. reflexivity.
Qed.

Lemma put_keys (o : Js.object) (k : string) (v : Js.value) :
  In k (map fst o) -> map fst (Js.put o k v) = map fst o.
Proof.
  induction o as [|[k' v'] rest IH]; simpl; [contradiction|].
  destruct (String.eqb_spec k' k) as [->|Hne]; [reflexivity|].
  intros [H|H]; [contradiction|]. simpl. rewrite IH by exact H. reflexivity.
Qed.

Lemma put_in (o : Js.object) (k : string) (v : Js.value) :
  NoDup (map fst o) ->
  forall k' v',
    In (k', v') (Js.put o k v) ->
    (k' = k /\ v' = v) \/ (k' <> k /\ In (k', v') o).
Proof.
  induction o as [|[k0 v0] rest IH]; simpl; intros Hnd k' v' Hin.
  - destruct Hin as [H|[]]. inversion H; subst. left; split; reflexivity.
  - inversion Hnd as [|? ? Hnot Hrest]; subst.
    destruct (String.eqb_spec k0 k) as [->|Hne]; simpl in Hin.
    + destruct Hin as [H|H].
      * inversion H; subst. left; split; reflexivity.
      * right. split; [|right; exact H].
        intro; subst. apply Hnot. change k with (fst (k, v')). apply in_map. exact H.
    + destruct Hin as [H|H].
      * inversion H; subst. right. split; [exact Hne | left; reflexivity].
      * destruct (IH Hrest _ _ H) as [Hl|[Hr1 Hr2]]; [left; exact Hl|].
        right. split; [exact Hr1 | right; exact Hr2].
Qed.

Lemma ordinary_not_proto (p : string) : ordinary p -> (p =? Js.proto_name) = false.
Proof.
  unfold ordinary, Js.inherited. intro H. apply orb_false_iff in H. tauto.
Qed.

(** ** First occurrences and tallies *)

Lemma first_seen_in (l : list string) (x : string) :
  In x (first_seen l) <-> In x l.
Proof.
  induction l as [|a l IH]; simpl; [tauto|].
  rewrite filter_In, IH.
  destruct (String.eqb_spec x a) as [->|Hne]; simpl; split; intro H; auto.
  - destruct H as [H|[H _]]; auto.
  - destruct H as [H|H]; [left; exact H | right; split; [exact H | reflexivity]].
Qed.

Lemma first_seen_nodup (l : list string) : NoDup (first_seen l).
Proof.
  induction l as [|a l IH]; simpl; constructor.
  - rewrite filter_In. intros [_ H]. rewrite String.eqb_refl in H. discriminate.
  - apply NoDup_filter. exact IH.
Qed.

Lemma first_seen_snoc (l : list string) (x : string) :
  first_seen (l ++ [x]) =
    if existsb (String.eqb x) l then first_seen l else first_seen l ++ [x].
Proof.
  induction l as [|a l IH]; simpl; [reflexivity|].
  rewrite IH. destruct (String.eqb_spec x a) as [->|Hne]; simpl.
  - destruct (existsb (String.eqb a) l); [reflexivity|].
    rewrite filter_app. simpl. rewrite String.eqb_refl. simpl.
    rewrite app_nil_r. reflexivity.
  - destruct (existsb (String.eqb x) l); [reflexivity|].
    rewrite filter_app. simpl.
    destruct (String.eqb_spec x a); [contradiction|]. reflexivity.
Qed.

Lemma existsb_eqb_in (x : string) (l : list string) :
  existsb (String.eqb x) l = true <-> In x l.
Proof.
  rewrite existsb_exists. split.
  - intros (y & Hy & E). apply String.eqb_eq in E. subst. exact Hy.
  - intro H. exists x. split; [exact H | apply String.eqb_refl].
Qed.

Lemma tally_app (pl pl' : list (Grant.t * Z)) (p : string) :
  tally (pl ++ pl') p = tally pl p + tally pl' p.
Proof.
  unfold tally. induction pl as [|gd rest IH]; cbn [app fold_right]; [lia|].
  destruct (Grant.payer (fst gd) =? p); lia.
Qed.

Lemma tally_absent (pl : list (Grant.t * Z)) (p : string) :
  ~ In p (map (fun gd => Grant.payer (fst gd)) pl) -> tally pl p = 0.
Proof.
  unfold tally. induction pl as [|gd rest IH]; cbn [map fold_right In]; intro H; [reflexivity|].
  destruct (String.eqb_spec (Grant.payer (fst gd)) p) as [E|_]; [tauto|].
  apply IH. tauto.
Qed.

Lemma tally_nonneg (pl : list (Grant.t * Z)) (p : string) :
  Forall (fun gd => 0 < snd gd) pl -> 0 <= tally pl p.
Proof.
  unfold tally. induction 1 as [|gd rest Hd _ IH]; cbn [fold_right]; [lia|].
  destruct (Grant.payer (fst gd) =? p); lia.
Qed.

Lemma tally_present (pl : list (Grant.t * Z)) (p : string) :
  Forall (fun gd => 0 < snd gd) pl ->
  In p (map (fun gd => Grant.payer (fst gd)) pl) -> 0 < tally pl p.
Proof.
  intros Hall. induction Hall as [|gd rest Hd Hrest IH]; cbn [map In]; [contradiction|].
  pose proof (tally_nonneg rest p Hrest) as Hge.
  change (tally (gd :: rest) p)
    with (if Grant.payer (fst gd) =? p then snd gd + tally rest p else tally rest p).
  destruct (String.eqb_spec (Grant.payer (fst gd)) p) as [E|Hne].
  - intros _. lia.
  - intros [H|H]; [contradiction | apply IH; exact H].
Qed.

(** ** The summary of a spend, for ordinary payer names *)

Lemma summarise_known (o : Js.object) (p : string) (m d : Z) :
  ordinary p -> Js.own o p = Some (Js.VNumber m) -> m <> 0 ->
  summarise o p d = Js.put o p (Js.VNumber (Js.round (m - d))).
Proof.
  intros Hp Hown Hm. unfold summarise, Js.get, Js.set.
  rewrite Hown. simpl.
  destruct (m =? 0)%Z eqn:E; [apply Z.eqb_eq in E; contradiction|]. simpl.
  rewrite (ordinary_not_proto p Hp). reflexivity.
Qed.

Lemma summarise_new (o : Js.object) (p : string) (d : Z) :
  ordinary p -> Js.own o p = None ->
  summarise o p d = o ++ [(p, Js.VNumber (- d))].
Proof.
  intros Hp Hown. unfold summarise, Js.get, Js.set.
  rewrite Hown. unfold ordinary in Hp. rewrite Hp. simpl.
  rewrite (ordinary_not_proto p Hp).
  rewrite put_absent by (apply own_none; exact Hown).
  reflexivity.
Qed.

Lemma tally_le_debited (pl : list (Grant.t * Z)) (p : string) :
  Forall (fun gd => 0 < snd gd) pl -> tally pl p <= debited pl.
Proof.
  unfold tally, debited. induction 1 as [|gd rest Hd _ IH]; cbn [fold_right]; [lia|].
  destruct (Grant.payer (fst gd) =? p); lia.
Qed.

(** While the plan takes less than 2^53 points in all, no entry of the
    summary is rounded. *)
Lemma summary_invariant (pl : list (Grant.t * Z)) :
  Forall (fun gd => ordinary (Grant.payer (fst gd)) /\ 0 < snd gd) pl ->
  debited pl < Js.limit ->
  summary_of pl (fold_left note_debit pl Js.empty).
Proof.
  induction pl as [|[g d] pl IH] using rev_ind; intros Hall Hsmall.
  - split; [reflexivity | constructor].
  - apply Forall_app in Hall. destruct Hall as [Hpl Hgd].
    inversion Hgd as [|? ? [Hord Hd] _]; subst. simpl in Hord, Hd.
    rewrite debited_app in Hsmall. change (debited [(g, d)]) with (d + 0) in Hsmall.
    assert (Hpos : Forall (fun gd => 0 < snd gd) pl)
      by (eapply Forall_impl; [|exact Hpl]; simpl; tauto).
    pose proof (tally_le_debited pl (Grant.payer g) Hpos) as Hle.
    specialize (IH Hpl ltac:(lia)). destruct IH as [Hkeys Hvals].
    rewrite fold_left_app. simpl.
    set (o := fold_left note_debit pl Js.empty) in *.
    unfold note_debit at 1. simpl.
    unfold summary_of. rewrite map_app. cbn [map fst]. rewrite first_seen_snoc.
    destruct (existsb (String.eqb (Grant.payer g))
                (map (fun gd => Grant.payer (fst gd)) pl)) eqn:Eseen.
    + apply existsb_eqb_in in Eseen.
      assert (Hin : In (Grant.payer g) (map fst o))
        by (rewrite Hkeys; apply first_seen_in; exact Eseen).
      destruct (Js.own o (Grant.payer g)) as [v|] eqn:Hown;
        [|apply own_none in Hown; contradiction].
      pose proof (own_in _ _ _ Hown) as Hentry.
      rewrite Forall_forall in Hvals. pose proof (Hvals _ Hentry) as Hv.
      simpl in Hv. subst v.
      pose proof (tally_present pl (Grant.payer g) Hpos Eseen) as Htally.
      rewrite (summarise_known o _ _ d Hord Hown) by lia.
      exact_rounds.
      split; [rewrite put_keys by exact Hin; exact Hkeys|].
      apply Forall_forall. intros [k v] Hkv. simpl.
      assert (Hnd : NoDup (map fst o)) by (rewrite Hkeys; apply first_seen_nodup).
      rewrite tally_app. unfold tally at 2. simpl.
      destruct (put_in o _ _ Hnd _ _ Hkv) as [[-> ->]|[Hne Hold]].
      * rewrite String.eqb_refl. f_equal. lia.
      * destruct (String.eqb_spec (Grant.payer g) k) as [E|_]; [congruence|].
        specialize (Hvals _ Hold). simpl in Hvals. rewrite Hvals. f_equal. lia.
    + assert (Hnot : ~ In (Grant.payer g) (map (fun gd => Grant.payer (fst gd)) pl)).
      { intro H. apply existsb_eqb_in in H. congruence. }
      assert (Hown : Js.own o (Grant.payer g) = None).
      { apply own_none. rewrite Hkeys, first_seen_in. exact Hnot. }
      rewrite (summarise_new o _ d Hord Hown).
      split; [rewrite map_app, Hkeys; reflexivity|].
      apply Forall_app. split.
      * rewrite Forall_forall in *. intros [k v] Hkv. simpl.
        rewrite tally_app. unfold tally at 2. simpl.
        destruct (String.eqb_spec (Grant.payer g) k) as [E|_].
        -- exfalso. apply Hnot. rewrite <- first_seen_in, <- Hkeys, E.
           change k with (fst (k, v)). apply in_map. exact Hkv.
        -- specialize (Hvals _ Hkv). simpl in Hvals. rewrite Hvals. f_equal. lia.
      * constructor; [|constructor]. simpl.
        rewrite tally_app, (tally_absent pl _ Hnot). unfold tally. simpl.
        rewrite String.eqb_refl. f_equal. lia.
Qed.

Lemma magnitudes_put (o : Js.object) (k : string) (m d : Z) :
  forall total_so_far,
    Js.own o k = Some (Js.VNumber m) -> m < 0 -> 0 < d ->
    magnitudes o = Some total_so_far ->
    magnitudes (Js.put o k (Js.VNumber (m - d))) = Some (total_so_far + d).
Proof.
  induction o as [|[k' v'] rest IH]; intros M Hown Hm Hd Hmag; [discriminate|].
  cbn [Js.own Js.put magnitudes] in *.
  destruct (String.eqb_spec k' k) as [->|Hne].
  - inversion Hown; subst v'. cbn [magnitudes].
    destruct (magnitudes rest) as [M'|]; [|discriminate].
    inversion Hmag; subst. f_equal. lia.
  - destruct v' as [|n'| | |]; try discriminate. cbn [magnitudes].
    destruct (magnitudes rest) as [M'|] eqn:E; [|discriminate].
    inversion Hmag; subst.
    rewrite (IH M' Hown Hm Hd eq_refl). f_equal. lia.
Qed.

Lemma magnitudes_snoc (o : Js.object) (k : string) (n : Z) :
  forall total_so_far,
    magnitudes o = Some total_so_far ->
    magnitudes (o ++ [(k, Js.VNumber n)]) = Some (total_so_far + Z.abs n).
Proof.
  induction o as [|[k' v'] rest IH]; intros M Hmag; cbn [app magnitudes] in *.
  - inversion Hmag; subst. f_equal. lia.
  - destruct v' as [|n'| | |]; try discriminate.
    destruct (magnitudes rest) as [M'|] eqn:E; [|discriminate].
    inversion Hmag; subst. rewrite (IH M' eq_refl). f_equal. lia.
Qed.

Lemma summary_magnitudes (pl : list (Grant.t * Z)) :
  Forall (fun gd => ordinary (Grant.payer (fst gd)) /\ 0 < snd gd) pl ->
  debited pl < Js.limit ->
  magnitudes (fold_left note_debit pl Js.empty) = Some (debited pl).
Proof.
  induction pl as [|[g d] pl IH] using rev_ind; intros Hall Hsmall; [reflexivity|].
  apply Forall_app in Hall. destruct Hall as [Hpl Hgd].
  inversion Hgd as [|? ? [Hord Hd] _]; subst. simpl in Hord, Hd.
  rewrite debited_app in Hsmall. change (debited [(g, d)]) with (d + 0) in Hsmall.
  assert (Hpos : Forall (fun gd => 0 < snd gd) pl)
    by (eapply Forall_impl; [|exact Hpl]; simpl; tauto).
  pose proof (tally_le_debited pl (Grant.payer g) Hpos) as Hle.
  specialize (IH Hpl ltac:(lia)).
  destruct (summary_invariant pl Hpl ltac:(lia)) as [Hkeys Hvals].
  rewrite fold_left_app, debited_app. cbn [fold_left].
  set (o := fold_left note_debit pl Js.empty) in *.
  unfold note_debit. cbn [fst snd].
  change (debited [(g, d)]) with (d + 0).
  destruct (Js.own o (Grant.payer g)) as [v|] eqn:Hown.
  - pose proof (own_in _ _ _ Hown) as Hentry.
    rewrite Forall_forall in Hvals. pose proof (Hvals _ Hentry) as Hv.
    simpl in Hv. subst v.
    assert (Hseen : In (Grant.payer g) (map (fun gd => Grant.payer (fst gd)) pl)).
    { rewrite <- first_seen_in, <- Hkeys.
      change (Grant.payer g) with (fst (Grant.payer g, Js.VNumber (- tally pl (Grant.payer g)))).
      apply in_map. exact Hentry. }
    pose proof (tally_present pl _ Hpos Hseen) as Htally.
    rewrite (summarise_known o _ _ d Hord Hown) by lia.
    exact_rounds.
    rewrite (magnitudes_put o _ _ d (debited pl) Hown) by (lia || assumption).
    f_equal. lia.
  - rewrite (summarise_new o _ d Hord Hown).
    rewrite (magnitudes_snoc o _ _ (debited pl) IH). f_equal. lia.
Qed.

(** ** Enumeration order *)

Lemma insert_index_perm (kv : string * Js.value) (l : list (string * Js.value)) :
  Permutation (Js.insert_index kv l) (kv :: l).
Proof.
  induction l as [|h rest IH]; simpl; [apply Permutation_refl|].
  destruct (Js.index_of kv <=? Js.index_of h)%N; [apply Permutation_refl|].
  eapply perm_trans; [apply perm_skip; exact IH | apply perm_swap].
Qed.

Lemma sort_indices_perm (l : list (string * Js.value)) :
  Permutation (Js.sort_indices l) l.
Proof.
  induction l as [|kv rest IH]; simpl; [constructor|].
  eapply perm_trans; [apply insert_index_perm | apply perm_skip; exact IH].
Qed.

Lemma insert_index_sorted (kv : string * Js.value) (l : list (string * Js.value)) :
  StronglySorted (fun a b => index_le (fst a) (fst b)) l ->
  StronglySorted (fun a b => index_le (fst a) (fst b)) (Js.insert_index kv l).
Proof.
  unfold index_le.
  induction l as [|h rest IH]; simpl; intro Hs; [repeat constructor|].
  inversion Hs as [|? ? Hrest Hall]; subst.
  unfold Js.index_of at 1 2.
  destruct (Js.index_value (fst kv) <=? Js.index_value (fst h))%N eqn:E.
  - apply N.leb_le in E. constructor; [exact Hs|].
    constructor; [exact E|].
    eapply Forall_impl; [|exact Hall]. simpl. intros a Ha. lia.
  - apply N.leb_gt in E. constructor; [apply IH; exact Hrest|].
    eapply Permutation_Forall; [apply Permutation_sym, insert_index_perm|].
    constructor; [lia | exact Hall].
Qed.

Lemma sort_indices_sorted (l : list (string * Js.value)) :
  StronglySorted (fun a b => index_le (fst a) (fst b)) (Js.sort_indices l).
Proof.
  induction l as [|kv rest IH]; simpl; [constructor|].
  apply insert_index_sorted. exact IH.
Qed.

Lemma filter_split_perm {A} (f : A -> bool) (l : list A) :
  Permutation (filter f l ++ filter (fun x => negb (f x)) l) l.
Proof.
  induction l as [|x rest IH]; simpl; [constructor|].
  destruct (f x); simpl.
  - apply perm_skip. exact IH.
  - apply Permutation_sym. apply Permutation_cons_app. apply Permutation_sym. exact IH.
Qed.

Lemma entries_perm (o : Js.object) : Permutation (Js.entries o) o.
Proof.
  unfold Js.entries.
  eapply perm_trans; [|apply (filter_split_perm Js.is_index)].
  apply Permutation_app_tail. apply sort_indices_perm.
Qed.

Lemma magnitudes_perm (l l' : list (string * Js.value)) :
  Permutation l l' -> magnitudes l = magnitudes l'.
Proof.
  induction 1 as [|[k v] l l' _ IH|[k v] [k' v'] l|l l' l'' _ IH1 _ IH2].
  - reflexivity.
  - cbn [magnitudes]. rewrite IH. reflexivity.
  - cbn [magnitudes].
    destruct v, v'; try reflexivity; destruct (magnitudes l); try reflexivity.
    f_equal. lia.
  - congruence.
Qed.

Lemma map_fst_filter (f : string -> bool) (o : Js.object) :
  map fst (filter (fun kv => f (fst kv)) o) = filter f (map fst o).
Proof.
  induction o as [|[k v] rest IH]; simpl; [reflexivity|].
  destruct (f k); simpl; rewrite IH; reflexivity.
Qed.

Lemma sorted_map_fst (l : list (string * Js.value)) :
  StronglySorted (fun a b => index_le (fst a) (fst b)) l ->
  StronglySorted index_le (map fst l).
Proof.
  induction 1 as [|a l _ IH Hall]; simpl; constructor; [exact IH|].
  apply Forall_map. exact Hall.
Qed.

(** ** Balances before and after a plan *)

Lemma balance_of_app (p : string) (a b : list Grant.t) :
  balance_of p (a ++ b) = balance_of p a + balance_of p b.
Proof.
  unfold balance_of. induction a as [|g rest IH]; cbn [app fold_right]; [lia|].
  destruct (Grant.payer g =? p); lia.
Qed.

Lemma balance_of_cons (p : string) (g : Grant.t) (t : list Grant.t) :
  balance_of p (g :: t) =
    (if Grant.payer g =? p then Grant.points g else 0) + balance_of p t.
Proof.
  unfold balance_of. cbn [fold_right]. destruct (Grant.payer g =? p); lia.
Qed.

Lemma tally_cons (g : Grant.t) (d : Z) (pl : list (Grant.t * Z)) (p : string) :
  tally ((g, d) :: pl) p = (if Grant.payer g =? p then d else 0) + tally pl p.
Proof.
  unfold tally. cbn [fold_right fst snd]. destruct (Grant.payer g =? p); lia.
Qed.

(** On a table of small magnitude every pass writes the exact difference. *)
Lemma plan_exact (rows : list Grant.t) (n : Z) :
  magnitude rows < Js.limit -> Forall exact_debit (plan rows n).
Proof.
  intro Hm. apply Forall_forall. intros [g d] Hin.
  apply plan_in in Hin. destruct Hin as (Hg & Hd & Hle).
  pose proof (magnitude_in g rows Hg).
  unfold exact_debit. simpl. apply round_exact. lia.
Qed.

Lemma snapshot_exact (t : list Grant.t) (n : Z) :
  magnitude t < Js.limit -> Forall exact_debit (plan (order_by_timestamp t) n).
Proof.
  intro Hm. apply plan_exact.
  rewrite (magnitude_perm _ _ (order_by_timestamp_perm t)). exact Hm.
Qed.

(** An amount below 2^53 is never exceeded by what the loop takes. *)
Lemma debited_le (rows : list Grant.t) (n : Z) :
  n < Js.limit -> 0 <= debited (plan rows n) <= Z.max 0 n.
Proof.
  intro Hn. destruct (Z_le_gt_dec n 0) as [Hneg|Hpos].
  - rewrite plan_nonpositive by exact Hneg. change (debited []) with 0. lia.
  - rewrite debited_plan by lia. pose proof (available_nonneg rows). lia.
Qed.

Lemma total_small (t : list Grant.t) :
  magnitude t < Js.limit -> total t < Js.limit.
Proof. intro H. pose proof (total_magnitude t). lia. Qed.

Lemma plan_balance (pl : list (Grant.t * Z)) (p : string) :
  forall t,
    applicable pl t -> Forall exact_debit pl ->
    balance_of p (fold_left apply_debit pl t) = balance_of p t - tally pl p.
Proof.
  induction pl as [|[g d] rest IH]; intros t Happ Hex; cbn [fold_left].
  - unfold tally. simpl. lia.
  - inversion Hex as [|? ? Hgd Hrest]; subst. unfold exact_debit in Hgd. simpl in Hgd.
    rewrite IH by (apply applicable_step || idtac; assumption).
    destruct Happ as (Hu & _ & Hall).
    inversion Hall as [|? ? [Hg _] _]; subst. simpl in Hg.
    destruct (apply_debit_split t g d Hu Hg) as (t1 & t2 & -> & ->).
    rewrite Hgd, tally_cons, !balance_of_app, !balance_of_cons.
    unfold with_points; simpl.
    destruct (Grant.payer g =? p); lia.
Qed.

(** ** The rows a plan touches *)

Lemma filter_none {A} (f : A -> bool) (l : list A) :
  (forall x, In x l -> f x = false) -> filter f l = [].
Proof.
  induction l as [|x rest IH]; simpl; intro H; [reflexivity|].
  rewrite (H x) by (left; reflexivity). apply IH. intros y Hy. apply H. right; exact Hy.
Qed.

Lemma plan_selects (rows : list Grant.t) :
  forall n,
    NoDup rows ->
    filter (fun g => if in_dec Grant.eq_dec g (map fst (plan rows n))
                     then true else false) rows
    = map fst (plan rows n).
Proof.
  induction rows as [|data rest IH]; intros n Hnd; [reflexivity|].
  inversion Hnd as [|? ? Hnot Hrest]; subst.
  cbn [plan].
  destruct (n <=? 0)%Z; [apply filter_none; reflexivity|].
  assert (Hskip : forall m, ~ In data (map fst (plan rest m))).
  { intros m Hin. apply in_map_iff in Hin. destruct Hin as ([g d] & Hg & Hgd).
    simpl in Hg. subst g. apply plan_in in Hgd. tauto. }
  destruct (0 <? Grant.points data)%Z.
  - set (m := Js.round (n - Z.min n (Grant.points data))).
    cbn [map fst filter].
    destruct (in_dec Grant.eq_dec data (data :: map fst (plan rest m)))
      as [_|Hno]; [|exfalso; apply Hno; left; reflexivity].
    f_equal. etransitivity; [|apply (IH m Hrest)].
    apply filter_ext_in. intros g Hg.
    destruct (in_dec Grant.eq_dec g (data :: map fst (plan rest m))) as [Hin|Hout];
      destruct (in_dec Grant.eq_dec g (map fst (plan rest m))) as [Hin'|Hout'];
      try reflexivity.
    + exfalso. destruct Hin as [->|Hin]; [contradiction | contradiction].
    + exfalso. apply Hout. right. exact Hin'.
  - cbn [filter].
    destruct (in_dec Grant.eq_dec data (map fst (plan rest n))) as [Hin|_];
      [exfalso; exact (Hskip n Hin)|].
    apply IH. exact Hrest.
Qed.

Lemma unique_ids_nodup (t : list Grant.t) : unique_ids t -> NoDup t.
Proof. unfold unique_ids. apply NoDup_map_inv. Qed.

Lemma filter_both {A} (f g : A -> bool) (l : list A) :
  filter f (filter g l) = filter (fun x => g x && f x) l.
Proof.
  induction l as [|x rest IH]; simpl; [reflexivity|].
  destruct (g x); simpl; [destruct (f x)|]; rewrite IH; reflexivity.
Qed.

(** The rows a request has changed are rows its plan debits. *)
Lemma touched_debited (rows t : list Grant.t) (n : Z) :
  unique_ids t -> Permutation rows t ->
  touched rows (fold_left apply_debit (plan rows n) t)
  = filter (fun g => if in_dec Grant.eq_dec g (fold_left apply_debit (plan rows n) t)
                     then false else true)
      (map fst (plan rows n)).
Proof.
  intros Hu Hperm.
  assert (Hrows : unique_ids rows).
  { unfold unique_ids in *. eapply Permutation_NoDup; [|exact Hu].
    apply Permutation_map, Permutation_sym, Hperm. }
  rewrite <- (plan_selects rows n (unique_ids_nodup rows Hrows)).
  unfold touched. rewrite filter_both. apply filter_ext_in. intros g Hg.
  destruct (in_dec Grant.eq_dec g (fold_left apply_debit (plan rows n) t)) as [Hafter|Hafter];
    [symmetry; apply andb_false_r|].
  destruct (in_dec Grant.eq_dec g (map fst (plan rows n))) as [Hplan|Hplan];
    [reflexivity|]. exfalso.
  apply Hafter. apply plan_frame.
  - eapply Permutation_in; eassumption.
  - intro Hin. apply Hplan. apply in_map_iff in Hin.
    destruct Hin as ([g' d] & Hid & Hgd). simpl in Hid.
    pose proof (plan_in _ _ _ _ Hgd) as (Hg' & _).
    assert (g' = g) by (apply (unique_ids_same rows); auto).
    subst g'. change g with (fst (g, d)). apply in_map. exact Hgd.
Qed.

(** They are all of them when every pass writes the exact difference. *)
Lemma touched_plan (rows t : list Grant.t) (n : Z) :
  unique_ids t -> Permutation rows t -> Forall exact_debit (plan rows n) ->
  touched rows (fold_left apply_debit (plan rows n) t) = map fst (plan rows n).
Proof.
  intros Hu Hperm Hex.
  pose proof (applicable_plan rows t n Hu Hperm) as Happ.
  assert (Hrows : unique_ids rows).
  { unfold unique_ids in *. eapply Permutation_NoDup; [|exact Hu].
    apply Permutation_map, Permutation_sym, Hperm. }
  rewrite <- (plan_selects rows n (unique_ids_nodup rows Hrows)).
  unfold touched. apply filter_ext_in. intros g Hg.
  destruct (in_dec Grant.eq_dec g (fold_left apply_debit (plan rows n) t)) as [Hafter|Hafter];
    destruct (in_dec Grant.eq_dec g (map fst (plan rows n))) as [Hplan|Hplan];
    try reflexivity; exfalso.
  - apply in_map_iff in Hplan. destruct Hplan as ([g' d] & Hg' & Hgd).
    simpl in Hg'. subst g'.
    pose proof (plan_applied _ _ _ _ Happ Hgd) as Hnew.
    rewrite Forall_forall in Hex. pose proof (Hex _ Hgd) as Hgd'.
    unfold exact_debit in Hgd'. simpl in Hgd'. rewrite Hgd' in Hnew.
    apply plan_in in Hgd. destruct Hgd as (_ & Hd & _).
    assert (Heq : g = with_points g (Grant.points g - d)).
    { apply (unique_ids_same (fold_left apply_debit (plan rows n) t)); auto.
      unfold unique_ids. rewrite fold_apply_debit_ids. exact Hu. }
    apply (f_equal Grant.points) in Heq. simpl in Heq. lia.
  - apply Hafter. apply plan_frame.
    + eapply Permutation_in; eassumption.
    + intro Hin. apply Hplan. apply in_map_iff in Hin.
      destruct Hin as ([g' d] & Hid & Hgd). simpl in Hid.
      pose proof (plan_in _ _ _ _ Hgd) as (Hg' & _).
      assert (g' = g) by (apply (unique_ids_same rows); auto).
      subst g'. change g with (fst (g, d)). apply in_map. exact Hgd.
Qed.

(** ** A successful spend, for ordinary payer names *)

Lemma plan_ordinary (rows t : list Grant.t) (n : Z) :
  Permutation rows t ->
  Forall (fun g => ordinary (Grant.payer g)) t ->
  Forall (fun gd => ordinary (Grant.payer (fst gd)) /\ 0 < snd gd) (plan rows n).
Proof.
  intros Hperm Hord. apply Forall_forall. intros [g d] Hin.
  apply plan_in in Hin. destruct Hin as (Hg & Hd & _). simpl.
  split; [|exact Hd]. rewrite Forall_forall in Hord. apply Hord.
  eapply Permutation_in; eassumption.
Qed.

Lemma plan_ordinary_debited (pl : list (Grant.t * Z)) :
  Forall (fun gd => 0 < snd gd) pl ->
  Forall (fun g => ordinary (Grant.payer g)) (map fst pl) ->
  Forall (fun gd => ordinary (Grant.payer (fst gd)) /\ 0 < snd gd) pl.
Proof.
  intros Hpos Hord. rewrite Forall_map in Hord.
  rewrite Forall_forall in *. intros gd Hgd. split; auto.
Qed.

(** What C1 asks of [/spend], for payers whose names [{}] does not
    already answer to and points whose magnitudes add up to less than
    2^53: the magnitudes of the summary add up to the requested amount
    and no row ends negative. *)
Lemma spend_exact (n : Z) (s : Store) :
  0 < n -> reliable s -> unique_ids (table s) ->
  never_negative (table s) -> magnitude (table s) < Js.limit ->
  n <= total (table s) ->
  Forall (fun g => ordinary (Grant.payer g)) (table s) ->
  exists l s',
    post_spend (mkSpendBody (Some n)) s = (mkResponse 200 (Spent l), s')
    /\ magnitudes l = Some n
    /\ never_negative (table s').
Proof.
  intros Hn Hs Hu Hnn Hm Htotal Hord.
  pose proof (order_by_timestamp_perm (table s)) as Hperm.
  pose proof (total_small _ Hm) as Hsmall.
  rewrite post_spend_valid by (assumption || lia).
  enough_points.
  cbv zeta. eexists. eexists. split; [reflexivity|]. split.
  - rewrite (magnitudes_perm _ _ (entries_perm _)).
    rewrite summary_magnitudes;
      [|eapply plan_ordinary; eassumption
       |pose proof (debited_le (order_by_timestamp (table s)) n); lia].
    rewrite debited_plan by lia. f_equal.
    rewrite (available_perm _ _ Hperm).
    assert (available (table s) = total (table s)).
    { clear - Hnn. unfold never_negative, available, total in *.
      induction Hnn as [|g t Hg _ IH]; cbn [fold_right]; [reflexivity|]. lia. }
    lia.
  - simpl. eapply shrinks_never_negative; [|exact Hnn].
    apply plan_shrinks; [apply applicable_plan; assumption|].
    apply magnitude_numbers. exact Hm.
Qed.

(** C6, as stated, fails twice. On the order of the entries: the payer
    named [10] is debited after [ACME] and listed before it. On their
    values: the entries are differences of doubles; on [lagging_ledger]
    (DANNON holds 2^53 + 2 and 1, UNILEVER 5) a spend of 2^53 + 4 takes
    2^53 + 3 points from DANNON and lists -(2^53 + 4) for it. *)
Lemma summary_not_as_claimed :
  (let s' := snd (post_spend (mkSpendBody (Some 8)) numbered_ledger) in
   fst (post_spend (mkSpendBody (Some 8)) numbered_ledger)
     = mkResponse 200 (Spent [("10", Js.VNumber (-3)); ("ACME", Js.VNumber (-5))])
   /\ first_seen (map Grant.payer
        (touched (order_by_timestamp (table numbered_ledger)) (table s')))
      = ["ACME"; "10"]
   /\ map fst [("10", Js.VNumber (-3)); ("ACME", Js.VNumber (-5))] <> ["ACME"; "10"])
  /\ (let s' := snd (post_spend (mkSpendBody (Some 9007199254740996)) lagging_ledger) in
      fst (post_spend (mkSpendBody (Some 9007199254740996)) lagging_ledger)
        = mkResponse 200 (Spent [("DANNON", Js.VNumber (-9007199254740996));
                                 ("UNILEVER", Js.VNumber (-1))])
      /\ balance_of "DANNON" (table lagging_ledger) - balance_of "DANNON" (table s')
         = 9007199254740995).
Proof.
  split; cbv zeta.
  - split; [reflexivity|]. split; [vm_compute; reflexivity|].
    simpl. discriminate.
  - split; vm_compute; reflexivity.
Qed.

(** C6, amended. Let a [/spend] be answered 200 on a reliable driver,
    over a table whose points have magnitudes that add up to less than
    2^53, and let none of the payers it debits be named like a member
    inherited from [Object.prototype]. The body is a list of payer/points
    entries in which every points value is a strictly negative number,
    equal to the negated difference between the payer's balance before
    and after; no payer is listed twice, and a payer is listed exactly
    when its balance changed. The payers whose names are array indices
    come first, by ascending index; the other payers follow in the order
    in which the loop first debited one of their rows. *)
Theorem spend_summary_contract (n : Z) (s : Store) :
  reliable s -> unique_ids (table s) ->
  magnitude (table s) < Js.limit ->
  status (fst (post_spend (mkSpendBody (Some n)) s)) = 200 ->
  Forall (fun g => ordinary (Grant.payer g))
         (touched (order_by_timestamp (table s))
                  (table (snd (post_spend (mkSpendBody (Some n)) s)))) ->
  exists l s',
    post_spend (mkSpendBody (Some n)) s = (mkResponse 200 (Spent l), s')
    /\ (forall p v, In (p, v) l ->
          exists d, v = Js.VNumber (- d) /\ 0 < d
                    /\ d = balance_of p (table s) - balance_of p (table s'))
    /\ NoDup (map fst l)
    /\ (forall p, In p (map fst l)
                  <-> balance_of p (table s') <> balance_of p (table s))
    /\ exists idx rest,
         map fst l = idx ++ rest
         /\ Permutation idx
              (filter Js.index_name
                 (first_seen (map Grant.payer
                    (touched (order_by_timestamp (table s)) (table s')))))
         /\ StronglySorted index_le idx
         /\ rest =
              filter (fun k => negb (Js.index_name k))
                (first_seen (map Grant.payer
                   (touched (order_by_timestamp (table s)) (table s')))).
Proof.
  intros Hs Hu Hm Hok Hord.
  assert (Hn : n <> 0).
  { intro E. subst n. unfold post_spend in Hok. simpl in Hok. discriminate. }
  pose proof (order_by_timestamp_perm (table s)) as Hperm.
  pose proof (total_small _ Hm) as Hsmall.
  rewrite post_spend_valid in Hok, Hord |- * by assumption.
  destruct (total (table s) <? n)%Z eqn:Echeck; [simpl in Hok; discriminate|].
  apply Z.ltb_ge in Echeck. clear Hok.
  cbv zeta in Hord |- *. cbn [snd table] in Hord.
  set (pl := plan (order_by_timestamp (table s)) n) in *.
  set (o := fold_left note_debit pl Js.empty).
  exists (Js.entries o), (mkStore (fold_left apply_debit pl (table s)) []).
  split; [reflexivity|]. cbn [table].
  pose proof (applicable_plan _ _ n Hu Hperm) as Happ. fold pl in Happ.
  pose proof (snapshot_exact _ n Hm) as Hex. fold pl in Hex.
  pose proof (touched_plan _ _ n Hu Hperm Hex) as Htouched. fold pl in Htouched.
  assert (Hpos : Forall (fun gd => 0 < snd gd) pl) by apply plan_positive.
  rewrite Htouched in Hord.
  pose proof (plan_ordinary_debited pl Hpos Hord) as Hpl.
  assert (Hdeb : debited pl < Js.limit).
  { pose proof (debited_le (order_by_timestamp (table s)) n) as H.
    unfold pl, Js.limit in *. lia. }
  destruct (summary_invariant pl Hpl Hdeb) as [Hkeys Hvals]. fold o in Hkeys, Hvals.
  assert (Hbal : forall p,
             balance_of p (fold_left apply_debit pl (table s))
             = balance_of p (table s) - tally pl p)
    by (intro p; apply plan_balance; assumption).
  assert (Hlisted : forall p,
             In p (map fst (Js.entries o))
             <-> In p (map (fun gd => Grant.payer (fst gd)) pl)).
  { intro p.
    rewrite <- (first_seen_in (map (fun gd => Grant.payer (fst gd)) pl)), <- Hkeys.
    split; intro H.
    - eapply Permutation_in; [apply Permutation_map, entries_perm | exact H].
    - eapply Permutation_in;
        [apply Permutation_map, Permutation_sym, entries_perm | exact H]. }
  split; [|split; [|split]].
  - intros p v Hin. exists (tally pl p).
    assert (Hino : In (p, v) o)
      by (eapply Permutation_in; [apply entries_perm | exact Hin]).
    rewrite Forall_forall in Hvals. specialize (Hvals _ Hino). simpl in Hvals.
    split; [exact Hvals|]. split; [|rewrite Hbal; lia].
    apply tally_present; [exact Hpos|]. apply Hlisted.
    change p with (fst (p, v)). apply in_map. exact Hin.
  - eapply Permutation_NoDup;
      [apply Permutation_map, Permutation_sym, entries_perm|].
    rewrite Hkeys. apply first_seen_nodup.
  - intro p. rewrite Hlisted, Hbal. split; intro H.
    + pose proof (tally_present pl p Hpos H). lia.
    + destruct (in_dec string_dec p (map (fun gd => Grant.payer (fst gd)) pl))
        as [Hin|Hout]; [exact Hin|].
      rewrite (tally_absent pl p Hout) in H. lia.
  - rewrite Htouched, map_map, <- Hkeys.
    exists (map fst (Js.sort_indices (filter Js.is_index o))),
           (map fst (filter (fun kv => negb (Js.is_index kv)) o)).
    split; [unfold Js.entries; apply map_app|]. split; [|split].
    + rewrite <- (map_fst_filter Js.index_name o).
      apply Permutation_map. apply sort_indices_perm.
    + apply sorted_map_fst. apply sort_indices_sorted.
    + apply (map_fst_filter (fun k => negb (Js.index_name k)) o).
Qed.

Lemma spend_summary_contract_witness :
  exists l s',
    post_spend (mkSpendBody (Some 8)) numbered_ledger
      = (mkResponse 200 (Spent l), s')
    /\ (forall p v, In (p, v) l ->
          exists d, v = Js.VNumber (- d) /\ 0 < d
                    /\ d = balance_of p (table numbered_ledger)
                           - balance_of p (table s'))
    /\ NoDup (map fst l)
    /\ (forall p, In p (map fst l)
                  <-> balance_of p (table s') <> balance_of p (table numbered_ledger))
    /\ exists idx rest,
         map fst l = idx ++ rest
         /\ Permutation idx
              (filter Js.index_name
                 (first_seen (map Grant.payer
                    (touched (order_by_timestamp (table numbered_ledger)) (table s')))))
         /\ StronglySorted index_le idx
         /\ rest =
              filter (fun k => negb (Js.index_name k))
                (first_seen (map Grant.payer
                   (touched (order_by_timestamp (table numbered_ledger)) (table s')))).
Proof.
  apply (spend_summary_contract 8 numbered_ledger).
  - reflexivity.
  - unfold unique_ids. vm_compute. repeat constructor; simpl; intuition discriminate.
  - vm_compute. reflexivity.
  - vm_compute. reflexivity.
  - vm_compute. repeat constructor.
Defined.

(** ** Payers named like a member of every object *)

(** C1 at a failing input. A single grant of 100 points from the payer
    named [constructor], then a spend of 50: the ledger satisfies the
    premises of C1 and the request succeeds, yet the summary holds NaN for
    the payer, so its magnitudes do not add up to 50. With the payer named
    [__proto__] the summary is empty. In both cases the row is debited. *)
Theorem spend_summary_inherited_names :
  never_negative (table constructor_ledger)
  /\ 50 <= total (table constructor_ledger)
  /\ post_spend (mkSpendBody (Some 50)) constructor_ledger
     = (mkResponse 200 (Spent [("constructor", Js.VNaN)]),
        mkStore [Grant.make 1 "constructor" 50 t1] [])
  /\ magnitudes [("constructor", Js.VNaN)] <> Some 50
  /\ post_spend (mkSpendBody (Some 50)) proto_ledger
     = (mkResponse 200 (Spent []), mkStore [Grant.make 1 "__proto__" 50 t1] [])
  /\ magnitudes [] <> Some 50.
Proof.
  split; [vm_compute; repeat constructor; discriminate|].
  split; [vm_compute; discriminate|].
  split; [vm_compute; reflexivity|]. split; [discriminate|].
  split; [vm_compute; reflexivity | discriminate].
Qed.

(** C7 at a failing input. For the payer named [constructor], holding one
    grant of 100 points, [/balance] answers with a string in place of 100;
    the payer named [__proto__], holding 100 points as well, is absent from
    the answer. *)
Theorem balance_inherited_names :
  balance_of "constructor" (table constructor_ledger) = 100
  /\ get_balance constructor_ledger
     = (mkResponse 200 (Balances [("constructor", Js.VText)]), constructor_ledger)
  /\ balance_of "__proto__" (table proto_ledger) = 100
  /\ get_balance proto_ledger = (mkResponse 200 (Balances []), proto_ledger).
Proof. repeat split; reflexivity. Qed.

(** ** [/balance], for ordinary payer names *)

Lemma accumulate_known (o : Js.object) (g : Grant.t) (m : Z) :
  ordinary (Grant.payer g) -> Js.own o (Grant.payer g) = Some (Js.VNumber m) ->
  accumulate o g
  = Js.put o (Grant.payer g) (Js.VNumber (Js.round (m + Grant.points g))).
Proof.
  intros Hp Hown. unfold accumulate, Js.get, Js.set. rewrite Hown. simpl.
  rewrite (ordinary_not_proto _ Hp). reflexivity.
Qed.

Lemma accumulate_new (o : Js.object) (g : Grant.t) :
  ordinary (Grant.payer g) -> Js.own o (Grant.payer g) = None ->
  accumulate o g = o ++ [(Grant.payer g, Js.VNumber (Grant.points g))].
Proof.
  intros Hp Hown. unfold accumulate, Js.get, Js.set. rewrite Hown.
  pose proof Hp as Hp'. unfold ordinary in Hp'. rewrite Hp'. simpl.
  rewrite (ordinary_not_proto _ Hp).
  apply put_absent. apply own_none. exact Hown.
Qed.

Lemma balance_of_absent (p : string) (rows : list Grant.t) :
  ~ In p (map Grant.payer rows) -> balance_of p rows = 0.
Proof.
  induction rows as [|g rest IH]; cbn [map In]; intro H; [reflexivity|].
  rewrite balance_of_cons.
  destruct (String.eqb_spec (Grant.payer g) p) as [E|_]; [tauto|].
  rewrite IH by tauto. reflexivity.
Qed.

Lemma balance_of_magnitude (p : string) (t : list Grant.t) :
  Z.abs (balance_of p t) <= magnitude t.
Proof.
  induction t as [|g rest IH]; [reflexivity|].
  rewrite balance_of_cons, magnitude_cons.
  destruct (Grant.payer g =? p); lia.
Qed.

(** While the magnitudes of the points add up to less than 2^53, no sum
    of [/balance] is rounded. *)
Lemma balance_invariant (rows : list Grant.t) :
  Forall (fun g => ordinary (Grant.payer g)) rows ->
  magnitude rows < Js.limit ->
  balances_of rows (fold_left accumulate rows Js.empty).
Proof.
  induction rows as [|g rows IH] using rev_ind; intros Hall Hm.
  - split; [reflexivity | constructor].
  - apply Forall_app in Hall. destruct Hall as [Hrows Hg].
    inversion Hg as [|? ? Hord _]; subst.
    rewrite magnitude_app, magnitude_cons in Hm.
    change (magnitude []) with 0 in Hm.
    pose proof (balance_of_magnitude (Grant.payer g) rows) as Hbound.
    destruct (IH Hrows ltac:(lia)) as [Hkeys Hvals].
    rewrite fold_left_app. cbn [fold_left].
    set (o := fold_left accumulate rows Js.empty) in *.
    unfold balances_of. rewrite map_app. cbn [map]. rewrite first_seen_snoc.
    assert (Hnd : NoDup (map fst o)) by (rewrite Hkeys; apply first_seen_nodup).
    destruct (existsb (String.eqb (Grant.payer g)) (map Grant.payer rows)) eqn:Eseen.
    + apply existsb_eqb_in in Eseen.
      assert (Hin : In (Grant.payer g) (map fst o))
        by (rewrite Hkeys; apply first_seen_in; exact Eseen).
      destruct (Js.own o (Grant.payer g)) as [v|] eqn:Hown;
        [|apply own_none in Hown; contradiction].
      pose proof (own_in _ _ _ Hown) as Hentry.
      rewrite Forall_forall in Hvals. pose proof (Hvals _ Hentry) as Hv.
      simpl in Hv. subst v.
      rewrite (accumulate_known o g _ Hord Hown).
      exact_rounds.
      split; [rewrite put_keys by exact Hin; exact Hkeys|].
      apply Forall_forall. intros [k v] Hkv. simpl.
      rewrite balance_of_app, (balance_of_cons k g []).
      change (balance_of k []) with 0.
      destruct (put_in o _ _ Hnd _ _ Hkv) as [[-> ->]|[Hne Hold]].
      * rewrite String.eqb_refl. f_equal. lia.
      * destruct (String.eqb_spec (Grant.payer g) k) as [E|_]; [congruence|].
        specialize (Hvals _ Hold). simpl in Hvals. rewrite Hvals. f_equal. lia.
    + assert (Hnot : ~ In (Grant.payer g) (map Grant.payer rows)).
      { intro H. apply existsb_eqb_in in H. congruence. }
      assert (Hown : Js.own o (Grant.payer g) = None).
      { apply own_none. rewrite Hkeys, first_seen_in. exact Hnot. }
      rewrite (accumulate_new o g Hord Hown).
      split; [rewrite map_app, Hkeys; reflexivity|].
      apply Forall_app. split.
      * rewrite Forall_forall in *. intros [k v] Hkv. simpl.
        rewrite balance_of_app, (balance_of_cons k g []).
        change (balance_of k []) with 0.
        destruct (String.eqb_spec (Grant.payer g) k) as [E|_].
        -- exfalso. apply Hnot. rewrite <- first_seen_in, <- Hkeys, E.
           change k with (fst (k, v)). apply in_map. exact Hkv.
        -- specialize (Hvals _ Hkv). simpl in Hvals. rewrite Hvals. f_equal. lia.
      * constructor; [|constructor]. simpl.
        rewrite balance_of_app, (balance_of_absent _ _ Hnot), balance_of_cons.
        rewrite String.eqb_refl. change (balance_of (Grant.payer g) []) with 0.
        f_equal. lia.
Qed.

Lemma balance_of_perm (p : string) (l l' : list Grant.t) :
  Permutation l l' -> balance_of p l = balance_of p l'.
Proof.
  induction 1 as [|g l l' _ IH|g g' l|l l' l'' _ IH1 _ IH2].
  - reflexivity.
  - rewrite !balance_of_cons, IH. reflexivity.
  - rewrite !balance_of_cons. lia.
  - congruence.
Qed.

(** What C7 asks of [/balance], for payers whose names [{}] does not
    already answer to and points whose magnitudes add up to less than
    2^53: one entry per payer that has a row, holding the sum of the
    points of its rows; nothing else, and nothing on an empty table. *)
Lemma balance_exact (s : Store) :
  reliable s ->
  Forall (fun g => ordinary (Grant.payer g)) (table s) ->
  magnitude (table s) < Js.limit ->
  exists l,
    get_balance s = (mkResponse 200 (Balances l), s)
    /\ NoDup (map fst l)
    /\ (forall p, In p (map fst l) <-> In p (map Grant.payer (table s)))
    /\ (forall p v, In (p, v) l -> v = Js.VNumber (balance_of p (table s)))
    /\ (table s = [] -> l = []).
Proof.
  intros Hs Hord Hm.
  pose proof (order_by_timestamp_perm (table s)) as Hperm.
  rewrite get_balance_reliable by assumption.
  set (rows := order_by_timestamp (table s)) in *.
  set (o := fold_left accumulate rows Js.empty).
  exists (Js.entries o). split; [reflexivity|].
  assert (Hrows : Forall (fun g => ordinary (Grant.payer g)) rows)
    by (eapply Permutation_Forall; [apply Permutation_sym; exact Hperm | exact Hord]).
  assert (Hmrows : magnitude rows < Js.limit)
    by (rewrite (magnitude_perm _ _ Hperm); exact Hm).
  destruct (balance_invariant rows Hrows Hmrows) as [Hkeys Hvals].
  fold o in Hkeys, Hvals.
  split; [|split; [|split]].
  - eapply Permutation_NoDup;
      [apply Permutation_map, Permutation_sym, entries_perm|].
    rewrite Hkeys. apply first_seen_nodup.
  - intro p. split; intro H.
    + eapply Permutation_in; [apply Permutation_map; exact Hperm|].
      apply first_seen_in. rewrite <- Hkeys.
      eapply Permutation_in; [apply Permutation_map, entries_perm | exact H].
    + eapply Permutation_in;
        [apply Permutation_map, Permutation_sym, entries_perm|].
      rewrite Hkeys. apply first_seen_in.
      eapply Permutation_in; [apply Permutation_map, Permutation_sym; exact Hperm | exact H].
  - intros p v Hin.
    assert (Hino : In (p, v) o)
      by (eapply Permutation_in; [apply entries_perm | exact Hin]).
    rewrite Forall_forall in Hvals. specialize (Hvals _ Hino). simpl in Hvals.
    rewrite Hvals. f_equal. apply balance_of_perm. exact Hperm.
  - intro Hempty. subst o rows. rewrite Hempty. reflexivity.
Qed.


(** * Further properties of the handlers *)

(** ** [/spend] under any behaviour of the driver *)

Lemma spend_loop_outcome (rows : list Grant.t) :
  forall n sm s,
    match spend_loop rows n sm s with
    | (Returned _, s') =>
        table s' = fold_left apply_debit (plan rows n) (table s)
    | (Thrown, s') =>
        exists done todo,
          plan rows n = done ++ todo /\ todo <> []
          /\ table s' = fold_left apply_debit done (table s)
    end.
Proof.
  induction rows as [|data rest IH]; intros n sm s; simpl; [reflexivity|].
  destruct (n <=? 0)%Z; [reflexivity|].
  destruct (0 <? Grant.points data)%Z; [|apply IH].
  set (d := Z.min n (Grant.points data)).
  set (t' := map (set_points (Js.round (Grant.points data - d)) (Grant.id data))
                 (table s)).
  unfold bind, UPDATE_POINTS, driver.
  destruct (faults s) as [|[|] later]; simpl; fold t'.
  - specialize (IH (Js.round (n - d)) (summarise sm (Grant.payer data) d)
                  (mkStore t' [])).
    destruct (spend_loop rest (Js.round (n - d)) _ _) as [[res|] s'];
      simpl in IH; [exact IH|].
    destruct IH as (done & todo & Hplan & Htodo & Htable).
    exists ((data, d) :: done), todo. rewrite Hplan. auto.
  - exists [], ((data, d) :: plan rest (Js.round (n - d))).
    split; [reflexivity|]. split; [discriminate | reflexivity].
  - specialize (IH (Js.round (n - d)) (summarise sm (Grant.payer data) d)
                  (mkStore t' later)).
    destruct (spend_loop rest (Js.round (n - d)) _ _) as [[res|] s'];
      simpl in IH; [exact IH|].
    destruct IH as (done & todo & Hplan & Htodo & Htable).
    exists ((data, d) :: done), todo. rewrite Hplan. auto.
Qed.

(** The four ways a validated [/spend] can end. *)
Lemma post_spend_cases (n : Z) (s : Store) :
  n <> 0 ->
  (fst (post_spend (mkSpendBody (Some n)) s) = something_went_wrong
   /\ table (snd (post_spend (mkSpendBody (Some n)) s)) = table s)
  \/ (totalBalance (order_by_timestamp (table s)) < n
      /\ fst (post_spend (mkSpendBody (Some n)) s) = not_enough
      /\ table (snd (post_spend (mkSpendBody (Some n)) s)) = table s)
  \/ (n <= totalBalance (order_by_timestamp (table s))
      /\ (exists l, fst (post_spend (mkSpendBody (Some n)) s)
                    = mkResponse 200 (Spent l))
      /\ table (snd (post_spend (mkSpendBody (Some n)) s))
         = fold_left apply_debit (plan (order_by_timestamp (table s)) n) (table s))
  \/ (n <= totalBalance (order_by_timestamp (table s))
      /\ fst (post_spend (mkSpendBody (Some n)) s) = something_went_wrong
      /\ exists done todo,
           plan (order_by_timestamp (table s)) n = done ++ todo /\ todo <> []
           /\ table (snd (post_spend (mkSpendBody (Some n)) s))
              = fold_left apply_debit done (table s)).
Proof.
  intro Hn. unfold post_spend. cbn [spend_points truthy_number].
  destruct (Z.eqb_spec n 0) as [|_]; [contradiction|].
  unfold try_catch, bind, GET_POINTS, driver.
  destruct (faults s) as [|[|] later]; simpl;
    [ | left; split; reflexivity | ];
    (destruct (totalBalance (order_by_timestamp (table s)) <? n)%Z eqn:E;
     [ apply Z.ltb_lt in E; right; left; simpl; auto
     | apply Z.ltb_ge in E; right; right ]).
  - pose proof (spend_loop_outcome (order_by_timestamp (table s)) n Js.empty
                  (mkStore (table s) [])) as H.
    destruct (spend_loop _ _ _ _) as [[res|] s']; simpl in *.
    + left. split; [exact E|]. split; [eexists; reflexivity | exact H].
    + right. split; [exact E|]. split; [reflexivity | exact H].
  - pose proof (spend_loop_outcome (order_by_timestamp (table s)) n Js.empty
                  (mkStore (table s) later)) as H.
    destruct (spend_loop _ _ _ _) as [[res|] s']; simpl in *.
    + left. split; [exact E|]. split; [eexists; reflexivity | exact H].
    + right. split; [exact E|]. split; [reflexivity | exact H].
Qed.

(** ** Points are conserved *)

Lemma total_app (a b : list Grant.t) : total (a ++ b) = total a + total b.
Proof.
  unfold total. induction a as [|g rest IH]; cbn [app fold_right]; lia.
Qed.

Lemma total_cons (g : Grant.t) (t : list Grant.t) :
  total (g :: t) = Grant.points g + total t.
Proof. reflexivity. Qed.

Lemma plan_total (pl : list (Grant.t * Z)) :
  forall t,
    applicable pl t -> Forall exact_debit pl ->
    total (fold_left apply_debit pl t) = total t - debited pl.
Proof.
  induction pl as [|[g d] rest IH]; intros t Happ Hex; cbn [fold_left].
  - change (debited []) with 0. lia.
  - inversion Hex as [|? ? Hgd Hrest]; subst. unfold exact_debit in Hgd. simpl in Hgd.
    rewrite IH by (apply applicable_step || idtac; assumption).
    destruct Happ as (Hu & _ & Hall).
    inversion Hall as [|? ? [Hg _] _]; subst. simpl in Hg.
    destruct (apply_debit_split t g d Hu Hg) as (t1 & t2 & -> & ->).
    rewrite Hgd, debited_cons, !total_app, !total_cons.
    unfold with_points; simpl. lia.
Qed.

(** The magnitude of the table shrinks by what is taken. *)
Lemma plan_magnitude (pl : list (Grant.t * Z)) :
  forall t,
    applicable pl t -> Forall exact_debit pl ->
    magnitude (fold_left apply_debit pl t) = magnitude t - debited pl.
Proof.
  induction pl as [|[g d] rest IH]; intros t Happ Hex; cbn [fold_left].
  - change (debited []) with 0. lia.
  - inversion Hex as [|? ? Hgd Hrest]; subst. unfold exact_debit in Hgd. simpl in Hgd.
    rewrite IH by (apply applicable_step || idtac; assumption).
    destruct Happ as (Hu & _ & Hall).
    inversion Hall as [|? ? [Hg Hd] _]; subst. simpl in Hg, Hd.
    destruct (apply_debit_split t g d Hu Hg) as (t1 & t2 & -> & ->).
    rewrite Hgd, debited_cons, !magnitude_app, !magnitude_cons.
    unfold with_points; simpl. lia.
Qed.

Lemma debited_nonneg (pl : list (Grant.t * Z)) :
  Forall (fun gd => 0 < snd gd) pl -> 0 <= debited pl.
Proof.
  unfold debited. induction 1 as [|gd rest Hd _ IH]; cbn [fold_right]; lia.
Qed.

Lemma debited_enough (t : list Grant.t) (n : Z) :
  0 < n -> n <= total t -> magnitude t < Js.limit ->
  debited (plan (order_by_timestamp t) n) = n.
Proof.
  intros Hpos Hle Hm. pose proof (total_small t Hm).
  rewrite debited_plan by lia.
  rewrite (available_perm _ _ (order_by_timestamp_perm t)).
  pose proof (total_le_available t). lia.
Qed.

(** X1. On a table whose points have magnitudes that add up to less than
    2^53, a validated [/spend], whatever the driver does, takes from the
    table no more than the requested amount and never adds to it; when it
    answers 200 it has taken exactly the requested amount (nothing, for a
    negative one), whatever the payers are called; when it answers 400 the
    table is as it was. *)
Theorem spend_conserves (n : Z) (s : Store) :
  n <> 0 -> unique_ids (table s) -> magnitude (table s) < Js.limit ->
  total (table s) - Z.max 0 n
    <= total (table (snd (post_spend (mkSpendBody (Some n)) s)))
    <= total (table s)
  /\ (status (fst (post_spend (mkSpendBody (Some n)) s)) = 200 ->
      total (table (snd (post_spend (mkSpendBody (Some n)) s)))
      = total (table s) - Z.max 0 n)
  /\ (status (fst (post_spend (mkSpendBody (Some n)) s)) = 400 ->
      table (snd (post_spend (mkSpendBody (Some n)) s)) = table s).
Proof.
  intros Hn Hu Hm.
  pose proof (order_by_timestamp_perm (table s)) as Hperm.
  pose proof (applicable_plan _ _ n Hu Hperm) as Happ.
  pose proof (snapshot_exact _ n Hm) as Hex.
  assert (Hfull : n <= total (table s) ->
            debited (plan (order_by_timestamp (table s)) n) = Z.max 0 n).
  { intro Hle. destruct (Z_le_gt_dec n 0) as [Hneg|Hpos].
    - rewrite plan_nonpositive by exact Hneg. change (debited []) with 0. lia.
    - rewrite debited_enough by (assumption || lia). lia. }
  destruct (post_spend_cases n s Hn)
    as [[-> ->]|[(Hlt & -> & ->)|[(Hle & [l ->] & ->)
       |(Hle & -> & done & todo & Hplan & Htodo & ->)]]];
    cbn [status something_went_wrong not_enough];
    try rewrite totalBalance_snapshot in Hle by exact Hm.
  - split; [lia|]. split; [discriminate | reflexivity].
  - split; [lia|]. split; [discriminate | reflexivity].
  - rewrite plan_total by assumption. rewrite (Hfull Hle).
    split; [lia|]. split; [reflexivity | discriminate].
  - rewrite Hplan in Happ, Hex. apply Forall_app in Hex. destruct Hex as [Hex _].
    rewrite plan_total by (try (eapply applicable_prefix; exact Happ); exact Hex).
    pose proof (Hfull Hle) as Hsum. rewrite Hplan, debited_app in Hsum.
    pose proof (plan_positive (order_by_timestamp (table s)) n) as Hpos.
    rewrite Hplan in Hpos. apply Forall_app in Hpos. destruct Hpos as [Hd Ht].
    pose proof (debited_nonneg _ Hd). pose proof (debited_nonneg _ Ht).
    split; [lia|]. split; discriminate.
Qed.

(** The ids of a table given in full are distinct. *)
Ltac distinct_ids :=
  unfold unique_ids; vm_compute; repeat constructor; simpl; intuition discriminate.

Lemma spend_conserves_witness :
  total (table (snd (post_spend (mkSpendBody (Some 5000)) scenario1)))
  = total (table scenario1) - Z.max 0 5000
  /\ table (snd (post_spend (mkSpendBody (Some 150)) scenario2)) = table scenario2
  /\ total (table flaky_scenario1) - Z.max 0 400
       <= total (table (snd (post_spend (mkSpendBody (Some 400)) flaky_scenario1)))
       <= total (table flaky_scenario1).
Proof.
  split; [|split].
  - destruct (spend_conserves 5000 scenario1) as (_ & Hdone & _);
      [lia | distinct_ids | vm_compute; reflexivity |].
    apply Hdone. vm_compute. reflexivity.
  - destruct (spend_conserves 150 scenario2) as (_ & _ & Hrejected);
      [lia | distinct_ids | vm_compute; reflexivity |].
    apply Hrejected. vm_compute. reflexivity.
  - destruct (spend_conserves 400 flaky_scenario1) as (Hbounds & _);
      [lia | distinct_ids | vm_compute; reflexivity |].
    exact Hbounds.
Defined.

(** ** The ledger is append-only *)

Lemma apply_debit_identity (t : list Grant.t) (gd : Grant.t * Z) :
  map identity (apply_debit t gd) = map identity t.
Proof.
  unfold apply_debit. rewrite map_map. apply map_ext.
  intro r. unfold set_points, identity.
  destruct (Grant.id r =? Grant.id (fst gd))%Z; reflexivity.
Qed.

Lemma plan_identity (pl : list (Grant.t * Z)) :
  forall t, map identity (fold_left apply_debit pl t) = map identity t.
Proof.
  induction pl as [|gd rest IH]; intro t; simpl; [reflexivity|].
  rewrite IH. apply apply_debit_identity.
Qed.

Lemma post_spend_identity (b : SpendBody) (s : Store) :
  map identity (table (snd (post_spend b s))) = map identity (table s).
Proof.
  destruct b as [[n|]]; [|reflexivity].
  destruct (Z.eq_dec n 0) as [->|Hn]; [reflexivity|].
  destruct (post_spend_cases n s Hn)
    as [[_ ->]|[(_ & _ & ->)|[(_ & _ & ->)|(_ & _ & done & todo & _ & _ & ->)]]];
    try reflexivity; apply plan_identity.
Qed.

(** X2. No request removes a row, reorders rows, or changes the id, the
    payer or the timestamp of a row, whatever the driver does: [/spend] and
    [/balance] keep these exactly, [/add] keeps them and appends at most
    one row. *)
Theorem ledger_append_only (s : Store) (r : Request) :
  exists extra,
    map identity (table (serve s r)) = map identity (table s) ++ map identity extra
    /\ (List.length extra <= 1)%nat
    /\ match r with
       | Add _ => True
       | Spend _ | Balance => extra = []
       end.
Proof.
  destruct r as [b|b|]; unfold serve; cbn [handle].
  - destruct (post_add_table (parse_add b) s) as [->|(p & n & ts & _ & ->)].
    + exists []. rewrite app_nil_r. repeat split. simpl. lia.
    + exists [Grant.make (next_id (table s)) p n ts].
      rewrite map_app. repeat split. simpl. lia.
  - exists []. rewrite app_nil_r, post_spend_identity. repeat split. simpl. lia.
  - exists []. rewrite app_nil_r, get_balance_table. repeat split. simpl. lia.
Qed.

(** ** Ids in every reachable ledger *)

Lemma sorted_snoc (l : list Z) (x : Z) :
  StronglySorted Z.lt l -> Forall (fun y => y < x) l ->
  StronglySorted Z.lt (l ++ [x]).
Proof.
  induction 1 as [|a l Hs IH Ha]; intro Hall; simpl.
  - repeat constructor.
  - inversion Hall; subst. constructor; [apply IH; assumption|].
    apply Forall_app. split; [exact Ha|]. constructor; [assumption | constructor].
Qed.

Lemma next_id_positive (t : list Grant.t) : 0 < next_id t.
Proof.
  unfold next_id. generalize (map Grant.id t). intro l.
  assert (0 <= fold_right Z.max 0 l)
    by (induction l as [|a l IH]; cbn [fold_right]; lia).
  lia.
Qed.

Lemma serve_ids (s : Store) (r : Request) :
  map Grant.id (table (serve s r)) = map Grant.id (table s)
  \/ map Grant.id (table (serve s r)) = map Grant.id (table s) ++ [next_id (table s)].
Proof.
  destruct r as [b|b|]; unfold serve; cbn [handle].
  - destruct (post_add_table (parse_add b) s) as [->|(p & n & ts & _ & ->)];
      [left; reflexivity|].
    right. rewrite map_app. reflexivity.
  - left. pose proof (post_spend_identity (parse_spend b) s) as H.
    apply (f_equal (map (fun k => fst (fst k)))) in H.
    rewrite !map_map in H. exact H.
  - left. rewrite get_balance_table. reflexivity.
Qed.

(** X3. In every ledger reached from the empty one, by any requests and
    under any behaviour of the driver, the ids are positive and strictly
    increasing in order of arrival; in particular no two rows share an id,
    so the [UPDATE ... WHERE id = ?] of [/spend] writes exactly one row. *)
Theorem reachable_ids_increasing (rs : list Request) (fs : list bool) :
  StronglySorted Z.lt (map Grant.id (table (run rs (empty_ledger fs))))
  /\ Forall (fun i => 0 < i) (map Grant.id (table (run rs (empty_ledger fs))))
  /\ unique_ids (table (run rs (empty_ledger fs))).
Proof.
  assert (Hinv : StronglySorted Z.lt (map Grant.id (table (run rs (empty_ledger fs))))
                 /\ Forall (fun i => 0 < i)
                      (map Grant.id (table (run rs (empty_ledger fs))))).
  { induction rs as [|r rs IH] using rev_ind.
    - split; constructor.
    - rewrite run_snoc. destruct IH as [Hs Hp].
      destruct (serve_ids (run rs (empty_ledger fs)) r) as [->| ->]; [tauto|].
      split.
      + apply sorted_snoc; [exact Hs|].
        apply Forall_forall. intros i Hi. apply in_map_iff in Hi.
        destruct Hi as (g & <- & Hg). apply next_id_above. exact Hg.
      + apply Forall_app. split; [exact Hp|]. constructor; [|constructor].
        apply next_id_positive. }
  destruct Hinv as [Hs Hp]. split; [exact Hs|]. split; [exact Hp|].
  unfold unique_ids. revert Hs.
  generalize (map Grant.id (table (run rs (empty_ledger fs)))).
  induction 1 as [|a l _ IH Ha]; constructor; [|exact IH].
  intro Hin. rewrite Forall_forall in Ha. specialize (Ha a Hin). lia.
Qed.

(** ** Balances under [/spend] *)

Lemma balance_of_nonneg (p : string) (t : list Grant.t) :
  never_negative t -> 0 <= balance_of p t.
Proof.
  unfold never_negative. induction 1 as [|g t Hg _ IH]; [reflexivity|].
  rewrite balance_of_cons. destruct (Grant.payer g =? p); lia.
Qed.

Lemma applicable_positive (pl : list (Grant.t * Z)) (t : list Grant.t) :
  applicable pl t -> Forall (fun gd => 0 < snd gd) pl.
Proof.
  intros (_ & _ & Hall). eapply Forall_impl; [|exact Hall].
  simpl. intros gd [_ H]. lia.
Qed.

Lemma shrinks_balance (p : string) (t t' : list Grant.t) :
  Forall2 shrinks t t' -> balance_of p t' <= balance_of p t.
Proof.
  induction 1 as [|g g' t t' Hg _ IH]; [reflexivity|].
  rewrite !balance_of_cons.
  destruct Hg as [->|[Heq Hrange]]; [lia|].
  assert (Hpayer : Grant.payer g' = Grant.payer g) by (rewrite Heq; reflexivity).
  rewrite Hpayer. destruct (Grant.payer g =? p); lia.
Qed.

(** Every row of a ledger reached from the empty one holds a number. *)
Lemma post_spend_numbers (b : SpendBody) (s : Store) :
  numbers (table s) -> numbers (table (snd (post_spend b s))).
Proof.
  intro H. destruct b as [[n|]]; [|exact H].
  destruct (Z.eq_dec n 0) as [->|Hn]; [exact H|].
  destruct (post_spend_cases n s Hn)
    as [[_ ->]|[(_ & _ & ->)|[(_ & _ & ->)|(_ & _ & done & todo & _ & _ & ->)]]];
    try exact H; apply plan_numbers; exact H.
Qed.

Lemma reachable_numbers (rs : list Request) (fs : list bool) :
  numbers (table (run rs (empty_ledger fs))).
Proof.
  induction rs as [|r rs IH] using rev_ind; [constructor|]. rewrite run_snoc.
  destruct r as [b|b|]; unfold serve; cbn [handle].
  - destruct (post_add_table (parse_add b) (run rs (empty_ledger fs)))
      as [->|(p & n & ts & Hb & ->)]; [exact IH|].
    destruct (parse_add_points _ _ _ _ Hb) as (n0 & _ & ->).
    apply Forall_app. split; [exact IH|]. repeat constructor.
    simpl. apply round_is_number.
  - apply post_spend_numbers. exact IH.
  - rewrite get_balance_table. exact IH.
Qed.

(** X4. When no row is negative, a [/spend] leaves the balance of every
    payer between 0 and what it was, whatever the request and whatever the
    driver does: no payer's points go negative, and none go up. The rows
    hold numbers, as the rows of every reachable ledger do. *)
Theorem spend_balances_bounded (b : SpendBody) (s : Store) (p : string) :
  unique_ids (table s) -> never_negative (table s) -> numbers (table s) ->
  0 <= balance_of p (table (snd (post_spend b s))) <= balance_of p (table s).
Proof.
  intros Hu Hnn Hnum.
  destruct (post_spend_table b s Hu) as (pl & Happ & ->).
  pose proof (plan_shrinks pl (table s) Happ Hnum) as Hshrinks.
  split.
  - apply balance_of_nonneg.
    eapply shrinks_never_negative; [exact Hshrinks | exact Hnn].
  - apply shrinks_balance. exact Hshrinks.
Qed.

Lemma spend_balances_bounded_witness :
  0 <= balance_of "DANNON"
         (table (snd (post_spend (mkSpendBody (Some 400)) flaky_scenario1)))
    <= balance_of "DANNON" (table flaky_scenario1).
Proof.
  apply (spend_balances_bounded (mkSpendBody (Some 400)) flaky_scenario1 "DANNON").
  - distinct_ids.
  - vm_compute. repeat constructor; discriminate.
  - apply (reachable_numbers
             [ grant_request "DANNON" 300 t1; grant_request "UNILEVER" 200 t2;
               grant_request "DANNON" 10000 t3;
               grant_request "MILLER COORS" 10000 t25 ] []).
Defined.

(** X5. A row that holds no points (zero or fewer) is left exactly as it
    is by [/spend], whatever the request and whatever the driver does. *)
Theorem spend_skips_exhausted (b : SpendBody) (s : Store) (g : Grant.t) :
  unique_ids (table s) -> In g (table s) -> Grant.points g <= 0 ->
  In g (table (snd (post_spend b s))).
Proof.
  intros Hu Hin Hle.
  destruct (post_spend_table b s Hu) as (pl & Happ & ->).
  apply plan_frame; [exact Hin|].
  intro Hid. apply in_map_iff in Hid. destruct Hid as ([g' d] & Hid & Hgd).
  simpl in Hid. destruct Happ as (_ & _ & Hall).
  rewrite Forall_forall in Hall. destruct (Hall _ Hgd) as [Hg' Hd]. simpl in *.
  assert (g' = g) by (apply (unique_ids_same (table s)); auto).
  subst g'. lia.
Qed.

Lemma spend_skips_exhausted_witness :
  In (Grant.make 2 "UNILEVER" (-50) t2)
     (table (snd (post_spend (mkSpendBody (Some 30)) overdrawn))).
Proof.
  apply (spend_skips_exhausted (mkSpendBody (Some 30)) overdrawn).
  - distinct_ids.
  - vm_compute. tauto.
  - simpl. lia.
Defined.

(** ** At most one grant is left partly spent *)

Lemma in_removelast {A} (l : list A) (x : A) : In x (removelast l) -> In x l.
Proof.
  induction l as [|a [|b l] IH]; simpl; [tauto | tauto |].
  intros [H|H]; [left; exact H | right; apply IH; exact H].
Qed.

Lemma removelast_map {A B} (f : A -> B) (l : list A) :
  removelast (map f l) = map f (removelast l).
Proof.
  induction l as [|a [|b l] IH]; simpl; [reflexivity | reflexivity |].
  f_equal. exact IH.
Qed.

Lemma removelast_filter {A} (f : A -> bool) (l : list A) (x : A) :
  In x (removelast (filter f l)) -> In x (removelast l).
Proof.
  induction l as [|a l IH]; [simpl; tauto|].
  cbn [filter]. destruct (f a).
  - destruct l as [|c l']; [simpl; tauto|].
    destruct (filter f (c :: l')) as [|b fl] eqn:Hfl; [simpl; tauto|].
    change (removelast (a :: b :: fl)) with (a :: removelast (b :: fl)).
    change (removelast (a :: c :: l')) with (a :: removelast (c :: l')).
    intros [Hx|Hin]; [left; exact Hx | right; apply IH; exact Hin].
  - intro Hin. destruct l as [|c l']; [simpl in Hin; contradiction|].
    change (removelast (a :: c :: l')) with (a :: removelast (c :: l')).
    right. apply IH. exact Hin.
Qed.

Lemma touched_unchanged (rows t : list Grant.t) :
  Permutation rows t -> touched rows t = [].
Proof.
  intro Hperm. unfold touched. apply filter_none. intros g Hg.
  destruct (in_dec Grant.eq_dec g t) as [_|Hout]; [reflexivity|].
  exfalso. apply Hout. eapply Permutation_in; eassumption.
Qed.

(** Every pass but the last empties its row: a pass that leaves points in
    its row has taken all that remained to be spent. *)
Lemma plan_full_but_last (rows : list Grant.t) :
  forall n g d,
    In (g, d) (removelast (plan rows n)) -> d = Grant.points g.
Proof.
  induction rows as [|data rest IH]; intros n g d; cbn [plan]; [contradiction|].
  destruct (n <=? 0)%Z eqn:En; [contradiction|]. apply Z.leb_gt in En.
  destruct (0 <? Grant.points data)%Z eqn:Ep; [|apply IH].
  set (d0 := Z.min n (Grant.points data)).
  destruct (plan rest (Js.round (n - d0))) as [|gd pl] eqn:Hrest; [contradiction|].
  cbn [removelast]. intros [Heq|Hin].
  - inversion Heq; subst g d.
    destruct (Z_le_gt_dec (Grant.points data) n) as [Hfull|Hpart].
    + subst d0. lia.
    + exfalso. assert (Hd0 : d0 = n) by (subst d0; lia).
      rewrite Hd0, Z.sub_diag, round_0 in Hrest.
      rewrite plan_nonpositive in Hrest by lia. discriminate.
  - apply (IH (Js.round (n - d0))). rewrite Hrest. exact Hin.
Qed.

(** X6. After a successful [/spend], every row the loop has changed holds
    0 points, except possibly the last one it changed: at most one grant is
    left partly spent. *)
Theorem spend_leaves_one_partial (n : Z) (s : Store) (g : Grant.t) :
  n <> 0 -> reliable s -> unique_ids (table s) -> n <= total (table s) ->
  In g (removelast
          (touched (order_by_timestamp (table s))
                   (table (snd (post_spend (mkSpendBody (Some n)) s))))) ->
  In (with_points g 0) (table (snd (post_spend (mkSpendBody (Some n)) s))).
Proof.
  intros Hn Hs Hu Hle.
  pose proof (order_by_timestamp_perm (table s)) as Hperm.
  rewrite post_spend_reliable by assumption.
  destruct (totalBalance (order_by_timestamp (table s)) <? n)%Z.
  - cbn [snd]. rewrite (touched_unchanged _ _ Hperm). simpl. contradiction.
  - cbv zeta. cbn [snd table].
    rewrite (touched_debited _ _ n Hu Hperm).
    intro Hin. apply removelast_filter in Hin.
    rewrite removelast_map in Hin.
    apply in_map_iff in Hin. destruct Hin as ([g' d] & Hg & Hgd).
    simpl in Hg. subst g'.
    pose proof (plan_full_but_last _ _ _ _ Hgd) as Hd.
    pose proof (plan_applied _ _ _ _ (applicable_plan _ _ n Hu Hperm)
                  (in_removelast _ _ Hgd)) as Hzero.
    rewrite Hd, Z.sub_diag, round_0 in Hzero. exact Hzero.
Qed.

Lemma spend_leaves_one_partial_witness :
  In (with_points (Grant.make 2 "UNILEVER" 200 t2) 0)
     (table (snd (post_spend (mkSpendBody (Some 5000)) scenario1))).
Proof.
  apply (spend_leaves_one_partial 5000 scenario1 (Grant.make 2 "UNILEVER" 200 t2)).
  - lia.
  - reflexivity.
  - distinct_ids.
  - vm_compute. discriminate.
  - vm_compute. tauto.
Defined.

(** ** Spending everything *)

Lemma all_zero (t : list Grant.t) :
  never_negative t -> total t = 0 -> Forall (fun g => Grant.points g = 0) t.
Proof.
  unfold never_negative. induction 1 as [|g t Hg Hall IH]; intro Hsum; constructor.
  - rewrite total_cons in Hsum.
    assert (0 <= total t)
      by (clear - Hall; induction Hall; [reflexivity | rewrite total_cons; lia]).
    lia.
  - apply IH. rewrite total_cons in Hsum.
    assert (0 <= total t)
      by (clear - Hall; induction Hall; [reflexivity | rewrite total_cons; lia]).
    lia.
Qed.

(** X7. On a ledger without negative rows that holds some points, fewer
    than 2^53, a [/spend] of all of them is answered 200 and leaves every
    row at 0 points. *)
Theorem spend_everything (s : Store) :
  reliable s -> unique_ids (table s) -> never_negative (table s) ->
  magnitude (table s) < Js.limit ->
  0 < total (table s) ->
  status (fst (post_spend (mkSpendBody (Some (total (table s)))) s)) = 200
  /\ Forall (fun g => Grant.points g = 0)
       (table (snd (post_spend (mkSpendBody (Some (total (table s)))) s))).
Proof.
  intros Hs Hu Hnn Hm Hpos.
  pose proof (order_by_timestamp_perm (table s)) as Hperm.
  pose proof (applicable_plan _ _ (total (table s)) Hu Hperm) as Happ.
  rewrite post_spend_valid by (assumption || lia).
  rewrite Z.ltb_irrefl. cbv zeta. split; [reflexivity|]. cbn [snd table].
  apply all_zero.
  - eapply shrinks_never_negative; [|exact Hnn].
    apply plan_shrinks; [exact Happ | apply magnitude_numbers; exact Hm].
  - rewrite plan_total by (exact Happ || (apply snapshot_exact; exact Hm)).
    rewrite debited_enough by (assumption || lia). lia.
Qed.

Lemma spend_everything_witness :
  status (fst (post_spend (mkSpendBody (Some (total (table scenario1)))) scenario1))
  = 200
  /\ Forall (fun g => Grant.points g = 0)
       (table (snd (post_spend (mkSpendBody (Some (total (table scenario1))))
                      scenario1))).
Proof.
  apply (spend_everything scenario1).
  - reflexivity.
  - distinct_ids.
  - vm_compute. repeat constructor; discriminate.
  - vm_compute. reflexivity.
  - vm_compute. reflexivity.
Defined.

(** ** Two spends in a row *)

Lemma insert_by_timestamp_map (f : Grant.t -> Grant.t) (g : Grant.t) (l : list Grant.t) :
  (forall x, Grant.timestamp (f x) = Grant.timestamp x) ->
  insert_by_timestamp (f g) (map f l) = map f (insert_by_timestamp g l).
Proof.
  intro Hf. induction l as [|h rest IH]; simpl; [reflexivity|].
  rewrite !Hf. destruct (String.leb (Grant.timestamp g) (Grant.timestamp h)).
  - reflexivity.
  - simpl. rewrite IH. reflexivity.
Qed.

Lemma order_by_timestamp_map (f : Grant.t -> Grant.t) (t : list Grant.t) :
  (forall x, Grant.timestamp (f x) = Grant.timestamp x) ->
  order_by_timestamp (map f t) = map f (order_by_timestamp t).
Proof.
  intro Hf. induction t as [|g rest IH]; simpl; [reflexivity|].
  rewrite IH. apply insert_by_timestamp_map. exact Hf.
Qed.

Lemma order_by_timestamp_plan (pl : list (Grant.t * Z)) :
  forall t,
    order_by_timestamp (fold_left apply_debit pl t)
    = fold_left apply_debit pl (order_by_timestamp t).
Proof.
  induction pl as [|gd rest IH]; intro t; simpl; [reflexivity|].
  rewrite IH. f_equal. unfold apply_debit. apply order_by_timestamp_map.
  intro x. unfold set_points.
  destruct (Grant.id x =? Grant.id (fst gd))%Z; reflexivity.
Qed.

Lemma plan_cons_frame (pl : list (Grant.t * Z)) :
  forall h t,
    ~ In (Grant.id h) (map (fun gd => Grant.id (fst gd)) pl) ->
    fold_left apply_debit pl (h :: t) = h :: fold_left apply_debit pl t.
Proof.
  induction pl as [|gd rest IH]; intros h t Hnot; simpl; [reflexivity|].
  simpl in Hnot. unfold set_points at 1.
  destruct (Grant.id h =? Grant.id (fst gd))%Z eqn:E.
  - apply Z.eqb_eq in E. exfalso. apply Hnot. left. symmetry. exact E.
  - apply IH. tauto.
Qed.

Lemma plan_settles (rows : list Grant.t) :
  forall n,
    unique_ids rows ->
    fold_left apply_debit (plan rows n) rows = settle rows n.
Proof.
  unfold unique_ids.
  induction rows as [|data rest IH]; intros n Hnd; [reflexivity|].
  cbn [map] in Hnd. inversion Hnd as [|? ? Hnot Hrest]; subst.
  cbn [plan settle].
  destruct (n <=? 0)%Z; [reflexivity|].
  assert (Hout : forall m,
             ~ In (Grant.id data) (map (fun gd => Grant.id (fst gd)) (plan rest m))).
  { intros m Hin. apply Hnot. eapply plan_ids_incl. exact Hin. }
  destruct (0 <? Grant.points data)%Z.
  - set (d := Z.min n (Grant.points data)).
    cbn [fold_left]. unfold apply_debit at 2. cbn [fst snd map].
    rewrite set_points_other by exact Hnot.
    unfold set_points. rewrite Z.eqb_refl.
    fold (with_points data (Grant.points data - d)).
    rewrite plan_cons_frame by (apply Hout).
    f_equal. apply IH. exact Hrest.
  - rewrite plan_cons_frame by (apply Hout).
    f_equal. apply IH. exact Hrest.
Qed.

Lemma settle_nonpositive (rows : list Grant.t) (n : Z) :
  n <= 0 -> settle rows n = rows.
Proof.
  intro Hn. destruct rows as [|g rest]; [reflexivity|]. cbn [settle].
  destruct (n <=? 0)%Z eqn:E; [reflexivity|]. apply Z.leb_gt in E. lia.
Qed.

(** Below 2^53, settling [a] points and then [b] is settling [a + b]. *)
Lemma settle_add (rows : list Grant.t) :
  forall a b, 0 <= a -> 0 <= b -> a + b < Js.limit ->
    Forall (fun g => Grant.points g < Js.limit) rows ->
    settle (settle rows a) b = settle rows (a + b).
Proof.
  induction rows as [|data rest IH]; intros a b Ha Hb Hab Hrows; [reflexivity|].
  inversion Hrows as [|? ? Hdata Hrest]; subst.
  destruct (Z.eq_dec a 0) as [->|Ha0].
  { rewrite (settle_nonpositive (data :: rest) 0) by lia. reflexivity. }
  destruct (Z.eq_dec b 0) as [->|Hb0].
  { rewrite (settle_nonpositive _ 0) by lia. f_equal. lia. }
  cbn [settle].
  destruct (Z.leb_spec a 0) as [|_]; [lia|].
  destruct (Z.leb_spec (a + b) 0) as [|_]; [lia|].
  destruct (Z.ltb_spec 0 (Grant.points data)) as [Hp|Hp].
  - destruct (Z_le_gt_dec (Grant.points data) a) as [Hfull|Hpart].
    + replace (Z.min a (Grant.points data)) with (Grant.points data) by lia.
      replace (Z.min (a + b) (Grant.points data)) with (Grant.points data) by lia.
      rewrite Z.sub_diag, round_0. exact_rounds.
      cbn [settle]. destruct (Z.leb_spec b 0) as [|_]; [lia|].
      unfold with_points at 1. cbn [Grant.points]. cbn [Z.ltb Z.compare].
      f_equal. rewrite IH by (assumption || lia). f_equal. lia.
    + replace (Z.min a (Grant.points data)) with a by lia.
      rewrite Z.sub_diag, round_0, (settle_nonpositive rest 0) by lia.
      exact_rounds.
      cbn [settle]. destruct (Z.leb_spec b 0) as [|_]; [lia|].
      unfold with_points at 1 2 3.
      cbn [Grant.points Grant.id Grant.payer Grant.timestamp].
      destruct (Z.ltb_spec 0 (Grant.points data - a)) as [_|]; [|lia].
      unfold with_points. cbn [Grant.points Grant.id Grant.payer Grant.timestamp].
      exact_rounds.
      f_equal; [f_equal; lia|]. f_equal. lia.
  - cbn [settle]. destruct (Z.leb_spec b 0) as [|_]; [lia|].
    destruct (Z.ltb_spec 0 (Grant.points data)) as [|_]; [lia|].
    f_equal. apply IH; assumption || lia.
Qed.

Lemma same_ids_same_rows (t1 : list Grant.t) :
  forall t2,
    map Grant.id t1 = map Grant.id t2 -> unique_ids t2 ->
    (forall g, In g t1 -> In g t2) ->
    t1 = t2.
Proof.
  unfold unique_ids.
  induction t1 as [|a t1 IH]; intros [|b t2] Hids Hnd Hincl; try discriminate;
    [reflexivity|].
  cbn [map] in Hids, Hnd. inversion Hids as [[Hab Hrest]].
  inversion Hnd as [|? ? Hnot Hnd']; subst.
  assert (a = b).
  { destruct (Hincl a (or_introl eq_refl)) as [H|H]; [symmetry; exact H|].
    exfalso. apply Hnot. rewrite <- Hab. apply in_map. exact H. }
  subst b. f_equal. apply IH; [exact Hrest | exact Hnd'|].
  intros g Hg. destruct (Hincl g (or_intror Hg)) as [H|H]; [|exact H].
  exfalso. subst g. apply Hnot. rewrite <- Hrest. apply in_map. exact Hg.
Qed.

Lemma snapshot_after_plan (t : list Grant.t) (n : Z) :
  unique_ids t ->
  order_by_timestamp
    (fold_left apply_debit (plan (order_by_timestamp t) n) t)
  = settle (order_by_timestamp t) n.
Proof.
  intro Hu. rewrite order_by_timestamp_plan. apply plan_settles.
  unfold unique_ids in *. eapply Permutation_NoDup; [|exact Hu].
  apply Permutation_map, Permutation_sym, order_by_timestamp_perm.
Qed.

Lemma snapshot_small (t : list Grant.t) :
  magnitude t < Js.limit ->
  Forall (fun g => Grant.points g < Js.limit) (order_by_timestamp t).
Proof.
  intro Hm. apply Forall_forall. intros g Hg.
  assert (Hin : In g t)
    by (eapply Permutation_in; [apply order_by_timestamp_perm | exact Hg]).
  pose proof (magnitude_in g t Hin). lia.
Qed.

(** X8. On a table whose points have magnitudes that add up to less than
    2^53, two successful spends in a row, of [a] then [b] points, leave
    the store exactly as one spend of [a + b] points does. *)
Theorem spends_compose (a b : Z) (s : Store) :
  0 < a -> 0 < b -> reliable s -> unique_ids (table s) ->
  magnitude (table s) < Js.limit ->
  a + b <= total (table s) ->
  status (fst (post_spend (mkSpendBody (Some a)) s)) = 200
  /\ status (fst (post_spend (mkSpendBody (Some b))
                    (snd (post_spend (mkSpendBody (Some a)) s)))) = 200
  /\ snd (post_spend (mkSpendBody (Some b))
            (snd (post_spend (mkSpendBody (Some a)) s)))
     = snd (post_spend (mkSpendBody (Some (a + b))) s).
Proof.
  intros Ha Hb Hs Hu Hm Hle.
  pose proof (order_by_timestamp_perm (table s)) as Hperm.
  pose proof (total_small _ Hm) as Hsmall.
  rewrite (post_spend_valid a s) by (assumption || lia).
  rewrite (post_spend_valid (a + b) s) by (assumption || lia).
  destruct (total (table s) <? a)%Z eqn:Ea; [apply Z.ltb_lt in Ea; lia|].
  destruct (total (table s) <? a + b)%Z eqn:Eab; [apply Z.ltb_lt in Eab; lia|].
  cbv zeta. cbn [fst snd status].
  set (ta := fold_left apply_debit (plan (order_by_timestamp (table s)) a) (table s)).
  assert (Hua : unique_ids ta)
    by (unfold unique_ids, ta; rewrite fold_apply_debit_ids; exact Hu).
  pose proof (applicable_plan _ _ a Hu Hperm) as Happ.
  pose proof (snapshot_exact _ a Hm) as Hex.
  pose proof (debited_enough (table s) a Ha ltac:(lia) Hm) as Hdeb.
  assert (Htotal : total ta = total (table s) - a)
    by (unfold ta; rewrite plan_total by assumption; lia).
  assert (Hma : magnitude ta < Js.limit)
    by (unfold ta; rewrite plan_magnitude by assumption; lia).
  rewrite (post_spend_valid b (mkStore ta [])) by (reflexivity || lia || exact Hma).
  cbn [table].
  destruct (total ta <? b)%Z eqn:Eb; [apply Z.ltb_lt in Eb; lia|].
  cbv zeta. cbn [fst snd status].
  split; [reflexivity|]. split; [reflexivity|]. f_equal.
  apply same_ids_same_rows.
  - rewrite !fold_apply_debit_ids. unfold ta. apply fold_apply_debit_ids.
  - unfold unique_ids. rewrite fold_apply_debit_ids. exact Hu.
  - intros g Hg.
    eapply Permutation_in; [apply order_by_timestamp_perm|].
    rewrite (snapshot_after_plan (table s) (a + b) Hu).
    rewrite <- settle_add by (lia || apply snapshot_small; exact Hm).
    rewrite <- (snapshot_after_plan (table s) a Hu). fold ta.
    rewrite <- (snapshot_after_plan ta b Hua).
    eapply Permutation_in; [apply Permutation_sym, order_by_timestamp_perm|].
    exact Hg.
Qed.

Lemma spends_compose_witness :
  status (fst (post_spend (mkSpendBody (Some 400)) scenario1)) = 200
  /\ status (fst (post_spend (mkSpendBody (Some 4600))
                    (snd (post_spend (mkSpendBody (Some 400)) scenario1)))) = 200
  /\ snd (post_spend (mkSpendBody (Some 4600))
            (snd (post_spend (mkSpendBody (Some 400)) scenario1)))
     = snd (post_spend (mkSpendBody (Some (400 + 4600))) scenario1).
Proof.
  apply (spends_compose 400 4600 scenario1).
  - lia.
  - lia.
  - reflexivity.
  - distinct_ids.
  - vm_compute. reflexivity.
  - vm_compute. discriminate.
Defined.

(** ** Answers and the driver *)

Lemma post_add_reliable (p : string) (n : Z) (ts : string) (s : Store) :
  p <> "" -> n <> 0 -> ts <> "" -> reliable s ->
  post_add (mkAddBody (Some p) (Some n) (Some ts)) s
  = (successfully_added (next_id (table s)),
     mkStore (table s ++ [Grant.make (next_id (table s)) p n ts]) []).
Proof.
  intros Hp Hn Hts Hs. unfold post_add.
  cbn [add_payer add_points add_timestamp truthy_string truthy_number].
  destruct (String.eqb_spec p "") as [|_]; [contradiction|].
  destruct (Z.eqb_spec n 0) as [|_]; [contradiction|].
  destruct (String.eqb_spec ts "") as [|_]; [contradiction|].
  unfold try_catch, bind, INSERT_POINTS.
  rewrite driver_reliable by assumption. reflexivity.
Qed.

(** X9. On a driver that does not throw, every request is answered 200
    or 400, never 500, and the driver is still reliable afterwards. *)
Theorem reliable_never_fails (r : Request) (s : Store) :
  reliable s ->
  (status (fst (handle r s)) = 200 \/ status (fst (handle r s)) = 400)
  /\ reliable (snd (handle r s)).
Proof.
  intro Hs. destruct r as [b|b|]; cbn [handle].
  - destruct (parse_add b) as [p n ts].
    unfold post_add. cbn [add_payer add_points add_timestamp].
    destruct (truthy_string p) as [p'|]; [|split; [right; reflexivity | exact Hs]].
    destruct (truthy_number n) as [n'|]; [|split; [right; reflexivity | exact Hs]].
    destruct (truthy_string ts) as [ts'|]; [|split; [right; reflexivity | exact Hs]].
    unfold try_catch, bind, INSERT_POINTS.
    rewrite driver_reliable by assumption.
    split; [left; reflexivity | reflexivity].
  - destruct (parse_spend b) as [[n|]]; [|split; [right; reflexivity | exact Hs]].
    destruct (Z.eq_dec n 0) as [->|Hn]; [split; [right; reflexivity | exact Hs]|].
    rewrite post_spend_reliable by assumption.
    destruct (totalBalance (order_by_timestamp (table s)) <? n)%Z; cbv zeta;
      [split; [right; reflexivity | exact Hs] | split; [left; reflexivity | reflexivity]].
  - rewrite get_balance_reliable by assumption.
    split; [left; reflexivity | exact Hs].
Qed.

Lemma reliable_never_fails_witness :
  (status (fst (handle (spend_request 5000) scenario1)) = 200
   \/ status (fst (handle (spend_request 5000) scenario1)) = 400)
  /\ reliable (snd (handle (spend_request 5000) scenario1)).
Proof.
  apply (reliable_never_fails (spend_request 5000) scenario1). reflexivity.
Defined.

(** X10. On a table whose points have magnitudes that add up to less
    than 2^53, a [/spend] of a positive amount that is answered 500 has
    taken strictly less than the amount from the table: a failure of the
    driver in the middle of the loop leaves a partial spend behind, never
    a complete one. *)
Theorem failed_spend_is_partial (n : Z) (s : Store) :
  0 < n -> unique_ids (table s) -> magnitude (table s) < Js.limit ->
  status (fst (post_spend (mkSpendBody (Some n)) s)) = 500 ->
  total (table s) - n < total (table (snd (post_spend (mkSpendBody (Some n)) s))).
Proof.
  intros Hn Hu Hm.
  pose proof (order_by_timestamp_perm (table s)) as Hperm.
  pose proof (applicable_plan _ _ n Hu Hperm) as Happ.
  pose proof (snapshot_exact _ n Hm) as Hex.
  destruct (post_spend_cases n s)
    as [[-> ->]|[(Hlt & -> & ->)|[(Hle & [l ->] & ->)
       |(Hle & -> & done & todo & Hplan & Htodo & ->)]]];
    cbn [status something_went_wrong not_enough]; try lia; try discriminate.
  intros _. rewrite totalBalance_snapshot in Hle by exact Hm.
  rewrite Hplan in Happ, Hex. apply Forall_app in Hex. destruct Hex as [Hex _].
  rewrite plan_total by (try (eapply applicable_prefix; exact Happ); exact Hex).
  pose proof (debited_enough (table s) n Hn Hle Hm) as Hsum.
  rewrite Hplan, debited_app in Hsum.
  pose proof (plan_positive (order_by_timestamp (table s)) n) as Hpos.
  rewrite Hplan in Hpos. apply Forall_app in Hpos. destruct Hpos as [_ Ht].
  assert (0 < debited todo).
  { destruct todo as [|[g d] todo]; [contradiction|].
    inversion Ht as [|? ? Hd Hrest]; subst. simpl in Hd.
    rewrite debited_cons. pose proof (debited_nonneg _ Hrest). lia. }
  lia.
Qed.

Lemma failed_spend_is_partial_witness :
  total (table flaky_scenario1) - 400
  < total (table (snd (post_spend (mkSpendBody (Some 400)) flaky_scenario1))).
Proof.
  apply (failed_spend_is_partial 400 flaky_scenario1).
  - lia.
  - distinct_ids.
  - vm_compute. reflexivity.
  - vm_compute. reflexivity.
Defined.

(** ** [/balance] after [/add] and after [/spend] *)

Lemma balance_entry (s : Store) (l : list (string * Js.value)) (q : string) :
  NoDup (map fst l) ->
  (forall p, In p (map fst l) <-> In p (map Grant.payer (table s))) ->
  (forall p v, In (p, v) l -> v = Js.VNumber (balance_of p (table s))) ->
  forall v,
    In (q, v) l
    <-> In q (map Grant.payer (table s)) /\ v = Js.VNumber (balance_of q (table s)).
Proof.
  intros _ Hkeys Hvals v. split.
  - intro Hin. split; [|apply Hvals; exact Hin].
    apply Hkeys. change q with (fst (q, v)). apply in_map. exact Hin.
  - intros [Hq ->]. apply Hkeys in Hq. apply in_map_iff in Hq.
    destruct Hq as ([q' v'] & Hfst & Hin). simpl in Hfst. subst q'.
    rewrite <- (Hvals _ _ Hin). exact Hin.
Qed.

(** X11. After a successful [/add] of [n] points for a payer, [/balance]
    shows that payer with [n] points more than its rows held before (the
    payer is new when they held none), and shows every other payer exactly
    as before. Payer names are ordinary ones, and the magnitudes of the
    points, those of the new grant included, add up to less than 2^53. *)
Theorem add_then_balance (p ts : string) (n : Z) (s : Store) :
  reliable s ->
  Forall (fun g => ordinary (Grant.payer g)) (table s) -> ordinary p ->
  magnitude (table s) + Z.abs n < Js.limit ->
  p <> "" -> n <> 0 -> ts <> "" ->
  exists l l',
    get_balance s = (mkResponse 200 (Balances l), s)
    /\ get_balance (snd (post_add (mkAddBody (Some p) (Some n) (Some ts)) s))
       = (mkResponse 200 (Balances l'),
          snd (post_add (mkAddBody (Some p) (Some n) (Some ts)) s))
    /\ In (p, Js.VNumber (balance_of p (table s) + n)) l'
    /\ (forall q v, q <> p -> (In (q, v) l' <-> In (q, v) l)).
Proof.
  intros Hs Hord Hp Hm Hpe Hn Hts.
  rewrite (post_add_reliable p n ts s Hpe Hn Hts Hs). cbn [snd].
  set (g := Grant.make (next_id (table s)) p n ts).
  set (s' := mkStore (table s ++ [g]) []).
  assert (Hms : magnitude (table s) < Js.limit) by lia.
  destruct (balance_exact s Hs Hord Hms) as (l & Hl & Hnd & Hkeys & Hvals & _).
  assert (Hord' : Forall (fun g => ordinary (Grant.payer g)) (table s')).
  { cbn [s' table]. apply Forall_app. split; [exact Hord|]. repeat constructor. exact Hp. }
  assert (Hms' : magnitude (table s') < Js.limit).
  { cbn [s' table]. rewrite magnitude_app, magnitude_cons.
    cbn [g Grant.points]. change (magnitude []) with 0. lia. }
  destruct (balance_exact s' eq_refl Hord' Hms')
    as (l' & Hl' & Hnd' & Hkeys' & Hvals' & _).
  exists l, l'. split; [exact Hl|]. split; [exact Hl'|].
  pose proof (balance_entry s l) as He.
  pose proof (balance_entry s' l') as He'.
  assert (Hbal : forall q,
             balance_of q (table s')
             = balance_of q (table s) + (if p =? q then n else 0)).
  { intro q. cbn [s' table]. rewrite balance_of_app, balance_of_cons.
    cbn [g Grant.payer Grant.points]. change (balance_of q []) with 0.
    destruct (p =? q); lia. }
  split.
  - apply (He' p Hnd' Hkeys' Hvals'). split.
    + cbn [s' table]. rewrite map_app. apply in_or_app. right. left. reflexivity.
    + rewrite Hbal, String.eqb_refl. reflexivity.
  - intros q v Hq.
    rewrite (He' q Hnd' Hkeys' Hvals' v), (He q Hnd Hkeys Hvals v), Hbal.
    destruct (String.eqb_spec p q) as [E|_]; [congruence|]. rewrite Z.add_0_r.
    cbn [s' table]. rewrite map_app, in_app_iff. cbn [map g Grant.payer In].
    split; intros [H ->]; (split; [|reflexivity]); [|tauto].
    destruct H as [H|[H|[]]]; [exact H | congruence].
Qed.

Lemma add_then_balance_witness :
  exists l l',
    get_balance scenario2 = (mkResponse 200 (Balances l), scenario2)
    /\ get_balance
         (snd (post_add (mkAddBody (Some "DANNON") (Some 50) (Some t2)) scenario2))
       = (mkResponse 200 (Balances l'),
          snd (post_add (mkAddBody (Some "DANNON") (Some 50) (Some t2)) scenario2))
    /\ In ("DANNON", Js.VNumber (balance_of "DANNON" (table scenario2) + 50)) l'
    /\ (forall q v, q <> "DANNON" -> (In (q, v) l' <-> In (q, v) l)).
Proof.
  apply (add_then_balance "DANNON" t2 50 scenario2).
  - reflexivity.
  - vm_compute. repeat constructor.
  - reflexivity.
  - vm_compute. reflexivity.
  - discriminate.
  - lia.
  - discriminate.
Defined.

Lemma plan_payers (pl : list (Grant.t * Z)) (t : list Grant.t) :
  map Grant.payer (fold_left apply_debit pl t) = map Grant.payer t.
Proof.
  pose proof (plan_identity pl t) as H.
  apply (f_equal (map (fun k => snd (fst k)))) in H.
  rewrite !map_map in H. exact H.
Qed.

(** X12. After a successful [/spend], [/balance] shows each payer listed
    in the answer of the spend with its former balance plus the (negative)
    points listed for it, and every payer not listed with its former
    balance. Payer names are ordinary ones, and the magnitudes of the
    points add up to less than 2^53. *)
Theorem spend_then_balance (n : Z) (s : Store) :
  n <> 0 -> reliable s -> unique_ids (table s) ->
  magnitude (table s) < Js.limit -> n <= total (table s) ->
  Forall (fun g => ordinary (Grant.payer g)) (table s) ->
  exists sm l l',
    fst (post_spend (mkSpendBody (Some n)) s) = mkResponse 200 (Spent sm)
    /\ get_balance s = (mkResponse 200 (Balances l), s)
    /\ get_balance (snd (post_spend (mkSpendBody (Some n)) s))
       = (mkResponse 200 (Balances l'), snd (post_spend (mkSpendBody (Some n)) s))
    /\ (forall q v d,
          In (q, Js.VNumber v) l -> In (q, Js.VNumber d) sm ->
          In (q, Js.VNumber (v + d)) l')
    /\ (forall q v,
          In (q, v) l -> ~ In q (map fst sm) -> In (q, v) l').
Proof.
  intros Hn Hs Hu Hm Hle Hord.
  pose proof (order_by_timestamp_perm (table s)) as Hperm.
  pose proof (total_small _ Hm) as Hsmall.
  rewrite post_spend_valid by assumption. enough_points. cbv zeta. cbn [fst snd].
  pose proof (debited_le (order_by_timestamp (table s)) n ltac:(lia)) as Hdeb.
  set (pl := plan (order_by_timestamp (table s)) n) in *.
  set (o := fold_left note_debit pl Js.empty).
  set (s' := mkStore (fold_left apply_debit pl (table s)) []).
  pose proof (plan_ordinary _ _ n Hperm Hord) as Hpl. fold pl in Hpl.
  pose proof (applicable_plan _ _ n Hu Hperm) as Happ. fold pl in Happ.
  pose proof (snapshot_exact _ n Hm) as Hex. fold pl in Hex.
  assert (Hdebited : debited pl < Js.limit) by (unfold Js.limit in *; lia).
  destruct (summary_invariant pl Hpl Hdebited) as [Hkeys Hvals].
  fold o in Hkeys, Hvals.
  assert (Hm' : magnitude (table s') < Js.limit)
    by (cbn [s' table]; rewrite plan_magnitude by assumption; lia).
  assert (Hpayers : map Grant.payer (table s') = map Grant.payer (table s))
    by apply plan_payers.
  assert (Hord' : Forall (fun g => ordinary (Grant.payer g)) (table s')).
  { apply Forall_forall. intros g Hg. rewrite Forall_forall in Hord.
    assert (Hin : In (Grant.payer g) (map Grant.payer (table s)))
      by (rewrite <- Hpayers; apply in_map; exact Hg).
    apply in_map_iff in Hin. destruct Hin as (g0 & <- & Hg0). apply Hord. exact Hg0. }
  destruct (balance_exact s Hs Hord Hm) as (l & Hl & Hnd & Hk & Hv & _).
  destruct (balance_exact s' eq_refl Hord' Hm') as (l' & Hl' & Hnd' & Hk' & Hv' & _).
  exists (Js.entries o), l, l'.
  split; [reflexivity|]. split; [exact Hl|]. split; [exact Hl'|].
  pose proof (balance_entry s l) as He.
  pose proof (balance_entry s' l') as He'.
  assert (Hbal : forall q,
             balance_of q (table s') = balance_of q (table s) - tally pl q)
    by (intro q; apply plan_balance; assumption).
  split.
  - intros q v d Hin Hsm.
    apply (He q Hnd Hk Hv) in Hin. destruct Hin as [Hq Hval].
    apply (He' q Hnd' Hk' Hv'). split; [rewrite Hpayers; exact Hq|].
    assert (Hino : In (q, Js.VNumber d) o)
      by (eapply Permutation_in; [apply entries_perm | exact Hsm]).
    rewrite Forall_forall in Hvals. specialize (Hvals _ Hino). simpl in Hvals.
    inversion Hvals; subst d. inversion Hval; subst v.
    rewrite Hbal. f_equal; lia.
  - intros q v Hin Hout.
    apply (He q Hnd Hk Hv) in Hin. destruct Hin as [Hq ->].
    apply (He' q Hnd' Hk' Hv'). split; [rewrite Hpayers; exact Hq|].
    rewrite Hbal, tally_absent; [f_equal; lia|].
    intro Hin. apply Hout.
    eapply Permutation_in;
      [apply Permutation_map, Permutation_sym, entries_perm|].
    rewrite Hkeys. apply first_seen_in. exact Hin.
Qed.

Lemma spend_then_balance_witness :
  exists sm l l',
    fst (post_spend (mkSpendBody (Some 5000)) scenario1) = mkResponse 200 (Spent sm)
    /\ get_balance scenario1 = (mkResponse 200 (Balances l), scenario1)
    /\ get_balance (snd (post_spend (mkSpendBody (Some 5000)) scenario1))
       = (mkResponse 200 (Balances l'),
          snd (post_spend (mkSpendBody (Some 5000)) scenario1))
    /\ (forall q v d,
          In (q, Js.VNumber v) l -> In (q, Js.VNumber d) sm ->
          In (q, Js.VNumber (v + d)) l')
    /\ (forall q v,
          In (q, v) l -> ~ In q (map fst sm) -> In (q, v) l').
Proof.
  apply (spend_then_balance 5000 scenario1).
  - lia.
  - reflexivity.
  - distinct_ids.
  - vm_compute. reflexivity.
  - vm_compute. discriminate.
  - vm_compute. repeat constructor.
Defined.

(** ** The balances add up to the ledger *)

Lemma sum_values_put (o : Js.object) (k : string) (m d : Z) :
  forall sum_so_far,
    Js.own o k = Some (Js.VNumber m) ->
    sum_values o = Some sum_so_far ->
    sum_values (Js.put o k (Js.VNumber (m + d))) = Some (sum_so_far + d).
Proof.
  induction o as [|[k' v'] rest IH]; intros M Hown Hsum; [discriminate|].
  cbn [Js.own Js.put sum_values] in *.
  destruct (String.eqb_spec k' k) as [->|Hne].
  - inversion Hown; subst v'. cbn [sum_values].
    destruct (sum_values rest) as [M'|]; [|discriminate].
    inversion Hsum; subst. f_equal. lia.
  - destruct v' as [|n'| | |]; try discriminate. cbn [sum_values].
    destruct (sum_values rest) as [M'|] eqn:E; [|discriminate].
    inversion Hsum; subst.
    rewrite (IH M' Hown eq_refl). f_equal. lia.
Qed.

Lemma sum_values_snoc (o : Js.object) (k : string) (n : Z) :
  forall sum_so_far,
    sum_values o = Some sum_so_far ->
    sum_values (o ++ [(k, Js.VNumber n)]) = Some (sum_so_far + n).
Proof.
  induction o as [|[k' v'] rest IH]; intros M Hsum; cbn [app sum_values] in *.
  - inversion Hsum; subst. f_equal. lia.
  - destruct v' as [|n'| | |]; try discriminate.
    destruct (sum_values rest) as [M'|] eqn:E; [|discriminate].
    inversion Hsum; subst. rewrite (IH M' eq_refl). f_equal. lia.
Qed.

Lemma sum_values_perm (l l' : list (string * Js.value)) :
  Permutation l l' -> sum_values l = sum_values l'.
Proof.
  induction 1 as [|[k v] l l' _ IH|[k v] [k' v'] l|l l' l'' _ IH1 _ IH2].
  - reflexivity.
  - cbn [sum_values]. rewrite IH. reflexivity.
  - cbn [sum_values].
    destruct v, v'; try reflexivity; destruct (sum_values l); try reflexivity.
    f_equal. lia.
  - congruence.
Qed.

Lemma accumulate_sums (rows : list Grant.t) :
  Forall (fun g => ordinary (Grant.payer g)) rows ->
  magnitude rows < Js.limit ->
  sum_values (fold_left accumulate rows Js.empty) = Some (total rows).
Proof.
  induction rows as [|g rows IH] using rev_ind; intros Hall Hm; [reflexivity|].
  apply Forall_app in Hall. destruct Hall as [Hrows Hg].
  inversion Hg as [|? ? Hord _]; subst.
  rewrite magnitude_app, magnitude_cons in Hm. change (magnitude []) with 0 in Hm.
  pose proof (balance_of_magnitude (Grant.payer g) rows) as Hbound.
  specialize (IH Hrows ltac:(lia)).
  destruct (balance_invariant rows Hrows ltac:(lia)) as [_ Hvals].
  rewrite fold_left_app, total_app, total_cons. cbn [fold_left].
  change (total []) with 0.
  set (o := fold_left accumulate rows Js.empty) in *.
  destruct (Js.own o (Grant.payer g)) as [v|] eqn:Hown.
  - pose proof (own_in _ _ _ Hown) as Hentry.
    rewrite Forall_forall in Hvals. pose proof (Hvals _ Hentry) as Hv.
    simpl in Hv. subst v.
    rewrite (accumulate_known o g _ Hord Hown).
    exact_rounds.
    rewrite (sum_values_put o _ _ (Grant.points g) (total rows) Hown IH).
    f_equal. lia.
  - rewrite (accumulate_new o g Hord Hown).
    rewrite (sum_values_snoc o _ _ (total rows) IH). f_equal. lia.
Qed.

(** X13. The values [/balance] answers with add up to the points of all
    the rows of the table. Payer names are ordinary ones, and the
    magnitudes of the points add up to less than 2^53. *)
Theorem balance_sums_to_total (s : Store) :
  reliable s ->
  Forall (fun g => ordinary (Grant.payer g)) (table s) ->
  magnitude (table s) < Js.limit ->
  exists l,
    get_balance s = (mkResponse 200 (Balances l), s)
    /\ sum_values l = Some (total (table s)).
Proof.
  intros Hs Hord Hm.
  pose proof (order_by_timestamp_perm (table s)) as Hperm.
  rewrite get_balance_reliable by assumption.
  eexists. split; [reflexivity|].
  rewrite (sum_values_perm _ _ (entries_perm _)).
  rewrite accumulate_sums.
  - f_equal. apply total_perm. exact Hperm.
  - eapply Permutation_Forall; [apply Permutation_sym; exact Hperm | exact Hord].
  - rewrite (magnitude_perm _ _ Hperm). exact Hm.
Qed.

Lemma balance_sums_to_total_witness :
  exists l,
    get_balance overdrawn = (mkResponse 200 (Balances l), overdrawn)
    /\ sum_values l = Some (total (table overdrawn)).
Proof.
  apply (balance_sums_to_total overdrawn).
  - reflexivity.
  - vm_compute. repeat constructor.
  - vm_compute. reflexivity.
Defined.

(** ** Ordinary payers beside payers with inherited names *)

Lemma own_put_same (o : Js.object) (k : string) (v : Js.value) :
  Js.own (Js.put o k v) k = Some v.
Proof.
  induction o as [|[k' v'] rest IH]; simpl.
  - rewrite String.eqb_refl. reflexivity.
  - destruct (String.eqb_spec k' k) as [->|Hne]; simpl.
    + rewrite String.eqb_refl. reflexivity.
    + destruct (String.eqb_spec k' k); [contradiction | exact IH].
Qed.

Lemma own_put_other (o : Js.object) (k k' : string) (v : Js.value) :
  k' <> k -> Js.own (Js.put o k v) k' = Js.own o k'.
Proof.
  intro Hne. induction o as [|[k0 v0] rest IH]; simpl.
  - destruct (String.eqb_spec k k'); [congruence | reflexivity].
  - destruct (String.eqb_spec k0 k) as [->|Hk]; simpl.
    + destruct (String.eqb_spec k k'); [congruence | reflexivity].
    + destruct (String.eqb_spec k0 k'); [reflexivity | exact IH].
Qed.

Lemma own_set_other (o : Js.object) (k k' : string) (v : Js.value) :
  k' <> k -> Js.own (Js.set o k v) k' = Js.own o k'.
Proof.
  intro Hne. unfold Js.set. destruct (k =? Js.proto_name); [reflexivity|].
  apply own_put_other. exact Hne.
Qed.

Lemma put_keys_nodup (o : Js.object) (k : string) (v : Js.value) :
  NoDup (map fst o) -> NoDup (map fst (Js.put o k v)).
Proof.
  intro Hnd.
  destruct (in_dec string_dec k (map fst o)) as [Hin|Hout].
  - rewrite put_keys by exact Hin. exact Hnd.
  - rewrite put_absent by exact Hout. rewrite map_app. simpl.
    apply NoDup_snoc; assumption.
Qed.

Lemma set_keys_nodup (o : Js.object) (k : string) (v : Js.value) :
  NoDup (map fst o) -> NoDup (map fst (Js.set o k v)).
Proof.
  intro Hnd. unfold Js.set. destruct (k =? Js.proto_name); [exact Hnd|].
  apply put_keys_nodup. exact Hnd.
Qed.

Lemma in_own (o : Js.object) (k : string) (v : Js.value) :
  NoDup (map fst o) -> In (k, v) o -> Js.own o k = Some v.
Proof.
  induction o as [|[k' v'] rest IH]; simpl; intros Hnd Hin; [contradiction|].
  inversion Hnd as [|? ? Hnot Hrest]; subst.
  destruct Hin as [Heq|Hin].
  - inversion Heq; subst. rewrite String.eqb_refl. reflexivity.
  - destruct (String.eqb_spec k' k) as [->|_]; [|apply IH; assumption].
    exfalso. apply Hnot. change k with (fst (k, v)). apply in_map. exact Hin.
Qed.

Lemma entries_own (o : Js.object) (k : string) (v : Js.value) :
  NoDup (map fst o) -> (In (k, v) (Js.entries o) <-> Js.own o k = Some v).
Proof.
  intro Hnd. split; intro H.
  - apply in_own; [exact Hnd|].
    eapply Permutation_in; [apply entries_perm | exact H].
  - eapply Permutation_in; [apply Permutation_sym, entries_perm|].
    apply own_in. exact H.
Qed.

Lemma accumulate_keys_nodup (rows : list Grant.t) :
  NoDup (map fst (fold_left accumulate rows Js.empty)).
Proof.
  induction rows as [|g rows IH] using rev_ind; [constructor|].
  rewrite fold_left_app. cbn [fold_left]. unfold accumulate.
  destruct (Js.is_undefined _); apply set_keys_nodup; exact IH.
Qed.

Lemma accumulate_other (o : Js.object) (g : Grant.t) (k : string) :
  k <> Grant.payer g -> Js.own (accumulate o g) k = Js.own o k.
Proof.
  intro Hne. unfold accumulate.
  destruct (Js.is_undefined _); apply own_set_other; exact Hne.
Qed.

Lemma own_snoc_absent (o : Js.object) (k : string) (v : Js.value) :
  Js.own o k = None -> Js.own (o ++ [(k, v)]) k = Some v.
Proof.
  induction o as [|[k' v'] rest IH]; simpl; intro H.
  - rewrite String.eqb_refl. reflexivity.
  - destruct (String.eqb_spec k' k); [discriminate | apply IH; exact H].
Qed.

Lemma accumulate_pointwise (rows : list Grant.t) (k : string) :
  ordinary k -> magnitude rows < Js.limit ->
  Js.own (fold_left accumulate rows Js.empty) k
  = if existsb (String.eqb k) (map Grant.payer rows)
    then Some (Js.VNumber (balance_of k rows)) else None.
Proof.
  intro Hk. induction rows as [|g rows IH] using rev_ind; intro Hm; [reflexivity|].
  rewrite magnitude_app, magnitude_cons in Hm. change (magnitude []) with 0 in Hm.
  pose proof (balance_of_magnitude k rows) as Hbound.
  specialize (IH ltac:(lia)).
  rewrite fold_left_app, map_app, existsb_app, balance_of_app, balance_of_cons.
  cbn [fold_left map existsb]. change (balance_of k []) with 0.
  rewrite orb_false_r.
  set (o := fold_left accumulate rows Js.empty) in *.
  destruct (String.eqb_spec k (Grant.payer g)) as [E|Hne].
  - subst k. rewrite String.eqb_refl, orb_true_r.
    destruct (existsb (String.eqb (Grant.payer g)) (map Grant.payer rows)) eqn:Hseen.
    + rewrite (accumulate_known o g _ Hk IH), own_put_same.
      exact_rounds. f_equal. f_equal. lia.
    + rewrite (accumulate_new o g Hk IH), (own_snoc_absent _ _ _ IH).
      assert (H0 : balance_of (Grant.payer g) rows = 0).
      { apply balance_of_absent. intro Hin. apply existsb_eqb_in in Hin. congruence. }
      rewrite H0. f_equal. f_equal. lia.
  - rewrite accumulate_other by exact Hne. rewrite IH.
    destruct (String.eqb_spec (Grant.payer g) k) as [E|_]; [congruence|].
    rewrite orb_false_r.
    destruct (existsb (String.eqb k) (map Grant.payer rows)); [|reflexivity].
    do 2 f_equal. lia.
Qed.

(** X14. Whatever the other payers are called, [/balance] shows a payer
    with an ordinary name exactly when the table has a row of that payer,
    and then with the sum of the points of its rows: a payer named like an
    inherited member spoils no entry but its own. The magnitudes of the
    points add up to less than 2^53. *)
Theorem balance_of_ordinary_payer (s : Store) (p : string) :
  reliable s -> ordinary p -> magnitude (table s) < Js.limit ->
  exists l,
    get_balance s = (mkResponse 200 (Balances l), s)
    /\ forall v,
         In (p, v) l
         <-> In p (map Grant.payer (table s))
             /\ v = Js.VNumber (balance_of p (table s)).
Proof.
  intros Hs Hp Hm.
  pose proof (order_by_timestamp_perm (table s)) as Hperm.
  rewrite get_balance_reliable by assumption.
  eexists. split; [reflexivity|]. intro v.
  rewrite entries_own by apply accumulate_keys_nodup.
  rewrite (accumulate_pointwise _ p Hp)
    by (rewrite (magnitude_perm _ _ Hperm); exact Hm).
  rewrite (balance_of_perm p _ _ Hperm).
  destruct (existsb (String.eqb p) (map Grant.payer (order_by_timestamp (table s))))
    eqn:Hseen.
  - apply existsb_eqb_in in Hseen.
    assert (Hin : In p (map Grant.payer (table s)))
      by (eapply Permutation_in; [apply Permutation_map; exact Hperm | exact Hseen]).
    split; [intro H; inversion H; auto | intros [_ ->]; reflexivity].
  - split; [discriminate|]. intros [Hin _]. exfalso.
    assert (Hin' : In p (map Grant.payer (order_by_timestamp (table s))))
      by (eapply Permutation_in;
          [apply Permutation_map, Permutation_sym; exact Hperm | exact Hin]).
    apply existsb_eqb_in in Hin'. congruence.
Qed.

Lemma balance_of_ordinary_payer_witness :
  exists l,
    get_balance (run [grant_request "DANNON" 300 t1] constructor_ledger)
    = (mkResponse 200 (Balances l),
       run [grant_request "DANNON" 300 t1] constructor_ledger)
    /\ forall v,
         In ("DANNON", v) l
         <-> In "DANNON"
               (map Grant.payer
                  (table (run [grant_request "DANNON" 300 t1] constructor_ledger)))
             /\ v = Js.VNumber
                      (balance_of "DANNON"
                         (table (run [grant_request "DANNON" 300 t1]
                                     constructor_ledger))).
Proof.
  apply (balance_of_ordinary_payer
           (run [grant_request "DANNON" 300 t1] constructor_ledger) "DANNON").
  - reflexivity.
  - reflexivity.
  - vm_compute. reflexivity.
Defined.

Lemma summarise_other (o : Js.object) (p k : string) (d : Z) :
  k <> p -> Js.own (summarise o p d) k = Js.own o k.
Proof.
  intro Hne. unfold summarise.
  destruct (Js.truthy _); apply own_set_other; exact Hne.
Qed.

Lemma summary_keys_nodup (pl : list (Grant.t * Z)) :
  NoDup (map fst (fold_left note_debit pl Js.empty)).
Proof.
  induction pl as [|gd pl IH] using rev_ind; [constructor|].
  rewrite fold_left_app. cbn [fold_left]. unfold note_debit at 1, summarise.
  destruct (Js.truthy _); apply set_keys_nodup; exact IH.
Qed.

Lemma summary_pointwise (pl : list (Grant.t * Z)) (k : string) :
  ordinary k -> Forall (fun gd => 0 < snd gd) pl -> debited pl < Js.limit ->
  Js.own (fold_left note_debit pl Js.empty) k
  = if existsb (String.eqb k) (map (fun gd => Grant.payer (fst gd)) pl)
    then Some (Js.VNumber (- tally pl k)) else None.
Proof.
  intros Hk. induction pl as [|[g d] pl IH] using rev_ind; intros Hall Hsmall;
    [reflexivity|].
  apply Forall_app in Hall. destruct Hall as [Hpl Hgd].
  inversion Hgd as [|? ? Hd _]; subst. simpl in Hd.
  rewrite debited_app in Hsmall. change (debited [(g, d)]) with (d + 0) in Hsmall.
  pose proof (tally_le_debited pl k Hpl) as Hle.
  specialize (IH Hpl ltac:(lia)).
  rewrite fold_left_app, map_app, existsb_app, tally_app, tally_cons.
  cbn [fold_left map existsb fst].
  change (tally [] k) with 0. rewrite orb_false_r.
  set (o := fold_left note_debit pl Js.empty) in *.
  unfold note_debit. cbn [fst snd].
  destruct (String.eqb_spec k (Grant.payer g)) as [E|Hne].
  - subst k. rewrite String.eqb_refl, orb_true_r.
    destruct (existsb (String.eqb (Grant.payer g))
                (map (fun gd => Grant.payer (fst gd)) pl)) eqn:Hseen.
    + apply existsb_eqb_in in Hseen.
      pose proof (tally_present pl _ Hpl Hseen) as Hpos.
      rewrite (summarise_known o _ _ d Hk IH) by lia.
      rewrite own_put_same. exact_rounds. do 2 f_equal. lia.
    + rewrite (summarise_new o _ d Hk IH), (own_snoc_absent _ _ _ IH).
      assert (H0 : tally pl (Grant.payer g) = 0).
      { apply tally_absent. intro Hin. apply existsb_eqb_in in Hin. congruence. }
      rewrite H0. do 2 f_equal. lia.
  - rewrite summarise_other by exact Hne. rewrite IH.
    destruct (String.eqb_spec (Grant.payer g) k) as [E|_]; [congruence|].
    rewrite orb_false_r.
    destruct (existsb (String.eqb k) (map (fun gd => Grant.payer (fst gd)) pl));
      [|reflexivity].
    do 2 f_equal. lia.
Qed.

(** X15. Whatever the other payers are called, the answer of a successful
    [/spend] lists a payer with an ordinary name exactly when the balance
    of that payer has changed, and then with the (negative) change of that
    balance. The magnitudes of the points add up to less than 2^53. *)
Theorem spend_entry_of_ordinary_payer (n : Z) (s : Store) (p : string) :
  n <> 0 -> reliable s -> unique_ids (table s) ->
  magnitude (table s) < Js.limit -> n <= total (table s) ->
  ordinary p ->
  exists sm,
    fst (post_spend (mkSpendBody (Some n)) s) = mkResponse 200 (Spent sm)
    /\ forall v,
         In (p, v) sm
         <-> balance_of p (table (snd (post_spend (mkSpendBody (Some n)) s)))
             <> balance_of p (table s)
             /\ v = Js.VNumber
                      (balance_of p (table (snd (post_spend (mkSpendBody (Some n)) s)))
                       - balance_of p (table s)).
Proof.
  intros Hn Hs Hu Hm Hle Hp.
  pose proof (order_by_timestamp_perm (table s)) as Hperm.
  pose proof (total_small _ Hm) as Hsmall.
  rewrite post_spend_valid by assumption. enough_points. cbv zeta. cbn [fst snd table].
  pose proof (debited_le (order_by_timestamp (table s)) n ltac:(lia)) as Hdeb.
  set (pl := plan (order_by_timestamp (table s)) n) in *.
  pose proof (applicable_plan _ _ n Hu Hperm) as Happ. fold pl in Happ.
  pose proof (snapshot_exact _ n Hm) as Hex. fold pl in Hex.
  pose proof (applicable_positive _ _ Happ) as Hpos.
  assert (Hdebited : debited pl < Js.limit) by (unfold Js.limit in *; lia).
  eexists. split; [reflexivity|]. intro v.
  rewrite entries_own by apply summary_keys_nodup.
  rewrite (summary_pointwise pl p Hp Hpos Hdebited).
  rewrite (plan_balance pl p _ Happ Hex).
  destruct (existsb (String.eqb p) (map (fun gd => Grant.payer (fst gd)) pl)) eqn:Hseen.
  - apply existsb_eqb_in in Hseen.
    pose proof (tally_present pl p Hpos Hseen) as Ht.
    split.
    + intro H. inversion H. split; [lia | f_equal; lia].
    + intros [_ ->]. do 2 f_equal. lia.
  - assert (H0 : tally pl p = 0).
    { apply tally_absent. intro Hin. apply existsb_eqb_in in Hin. congruence. }
    rewrite H0. split; [discriminate|]. intros [H _]. lia.
Qed.

Lemma spend_entry_of_ordinary_payer_witness :
  exists sm,
    fst (post_spend (mkSpendBody (Some 150))
           (run [grant_request "DANNON" 300 t2] constructor_ledger))
    = mkResponse 200 (Spent sm)
    /\ forall v,
         In ("DANNON", v) sm
         <-> balance_of "DANNON"
               (table (snd (post_spend (mkSpendBody (Some 150))
                              (run [grant_request "DANNON" 300 t2] constructor_ledger))))
             <> balance_of "DANNON"
                  (table (run [grant_request "DANNON" 300 t2] constructor_ledger))
             /\ v = Js.VNumber
                      (balance_of "DANNON"
                         (table (snd (post_spend (mkSpendBody (Some 150))
                                        (run [grant_request "DANNON" 300 t2]
                                             constructor_ledger))))
                       - balance_of "DANNON"
                           (table (run [grant_request "DANNON" 300 t2]
                                       constructor_ledger))).
Proof.
  apply (spend_entry_of_ordinary_payer 150
           (run [grant_request "DANNON" 300 t2] constructor_ledger) "DANNON").
  - lia.
  - reflexivity.
  - distinct_ids.
  - vm_compute. reflexivity.
  - vm_compute. discriminate.
  - reflexivity.
Defined.
